(** * PredictionMarkets dashboard: the query composition layer

    A shallow embedding of the query functions under [web/src/db/queries]
    (markets, smart-filters, pairs, price-snapshots, traders, alerts) and of
    the two mutating actions, together with the properties the specification
    states about them.

    Modelling conventions.
    - A table is the list of its rows; a row is a record with one field per
      column.  A nullable column has an [option] type, [None] being SQL NULL.
    - [doublePrecision] columns hold rationals ([Qc]): the queries only
      compare and take absolute values, which is exact on the rationals that
      finite doubles denote.
    - [text] columns hold [string]s, the UTF-8 bytes of the text; text is
      ordered bytewise (the order of ISO 8601 timestamps the code relies on).
    - SQL conditions are three-valued ([option bool]); WHERE keeps the rows
      whose condition is TRUE.  ORDER BY ... ASC places NULL last and
      ORDER BY ... DESC places NULL first unless NULLS LAST is written.
      The engine may return rows that tie under ORDER BY in any order;
      [Sql.order_by] is one sorted arrangement, and what is stated about the
      results of two queries either does not depend on the arrangement or
      assumes that no two rows tie.
    - A query that the engine rejects, or a JavaScript exception, is an
      [Err] result.  The engine rejects a bound parameter that does not fit
      the type of its place: a 32-bit integer for the id columns, a 64-bit
      integer for OFFSET.
    - Two things are fixed by the installation and not by the code: how the
      engine folds letter case (the locale of the database) and what text
      the driver gives an error (the versions of the driver and of the query
      builder).  Both are parameters, held with the store. *)

From Stdlib Require Import ZArith QArith Qcanon Qcabs Qround Ascii String Lia.
From stdpp Require Import base decidable option list sets numbers strings sorting gmap.

#[local] Set Warnings "-clear-no-such-hyp".

Local Open Scope string_scope.
Local Open Scope Z_scope.

(** ** Results of fallible operations *)

(** The conditions the engine reports to this layer. *)
Inductive EngineError :=
  | UniqueViolation                    (* unique_violation *)
  | ForeignKeyViolation                (* foreign_key_violation *)
  | NumericValueOutOfRange             (* numeric_value_out_of_range *)
  | InvalidTextRepresentation          (* invalid_text_representation *)
  | InvalidOffset.                     (* invalid_row_count_in_result_offset_clause *)

Inductive Error :=
  | RangeError (msg : string)          (* thrown by the JavaScript runtime *)
  | DbError (c : EngineError).         (* raised by the database engine *)

Inductive Result (A : Type) :=
  | Ok (a : A)
  | Err (e : Error).
Arguments Ok {A} a.
Arguments Err {A} e.

Global Instance Result_bind : MBind Result :=
  λ A B k r, match r with Ok a => k a | Err e => Err e end.

Global Instance EngineError_eq_dec : EqDecision EngineError.
Proof. solve_decision. Defined.
Global Instance Error_eq_dec : EqDecision Error.
Proof. solve_decision. Defined.

(** ** JavaScript numbers and strings *)

Module JS.

(** A number holds an integer of magnitude up to [2^53] exactly; a larger
    one is rounded to 53 significant bits, ties to even.  [Number n] is the
    number that the integer [n] denotes. *)
Definition Number (n : Z) : Z :=
  let a := Z.abs n in
  if a <=? 2 ^ 53 then n
  else
    let e := Z.log2 a - 52 in
    let q := a / 2 ^ e in
    let r := a mod 2 ^ e in
    let half := 2 ^ (e - 1) in
    let q' := if r <? half then q
              else if half <? r then q + 1
              else if Z.even q then q else q + 1 in
    Z.sgn n * (q' * 2 ^ e).

Definition MAX_SAFE_INTEGER : Z := 2 ^ 53 - 1.

(** [if (s)] on a string: the empty string is falsy. *)
Definition truthy (s : string) : bool :=
  match s with EmptyString => false | String _ _ => true end.


Definition is_upper (c : ascii) : bool :=
  ((65 <=? N_of_ascii c) && (N_of_ascii c <=? 90))%N.

Definition lower_ascii (c : ascii) : ascii :=
  if is_upper c then ascii_of_N (N_of_ascii c + 32) else c.

Definition lower (l : list ascii) : list ascii := map lower_ascii l.

(** [s.toLowerCase()] on ASCII text. *)
Definition toLowerCase (s : string) : string :=
  string_of_list_ascii (lower (list_ascii_of_string s)).

Fixpoint starts_with (sub s : list ascii) : bool :=
  match sub, s with
  | [], _ => true
  | _ :: _, [] => false
  | a :: sub', b :: s' => Ascii.eqb a b && starts_with sub' s'
  end.

Fixpoint includes_list (s sub : list ascii) : bool :=
  starts_with sub s ||
  match s with
  | [] => false
  | _ :: s' => includes_list s' sub
  end.

(** [s.includes(sub)] *)
Definition includes (s sub : string) : bool :=
  includes_list (list_ascii_of_string s) (list_ascii_of_string sub).

Definition is_lower (c : ascii) : bool :=
  ((97 <=? N_of_ascii c) && (N_of_ascii c <=? 122))%N.

Definition upper_ascii (c : ascii) : ascii :=
  if is_lower c then ascii_of_N (N_of_ascii c - 32) else c.

(** [s.toUpperCase()] on ASCII text. *)
Definition toUpperCase (s : string) : string :=
  string_of_list_ascii (map upper_ascii (list_ascii_of_string s)).

End JS.

(** ** The SQL fragment the queries use *)

Module Sql.

(** Three-valued truth: [None] is NULL. *)
Definition tri := option bool.

Definition and3 (a b : tri) : tri :=
  match a, b with
  | Some false, _ | _, Some false => Some false
  | Some true, Some true => Some true
  | _, _ => None
  end.

Definition cond (Row : Type) := Row → tri.

(** drizzle's [and(...conditions)] *)
Definition and_ {Row} (cs : list (cond Row)) : cond Row :=
  λ r, foldr (λ c acc, and3 (c r) acc) (Some true) cs.

(** [col = v] where [v] is a bound (non-null) parameter *)
Definition eq {A} `{EqDecision A} (col : option A) (v : A) : tri :=
  (λ x, bool_decide (x = v)) <$> col.

(** [col >= v] and [col <= v] on doubles *)
Definition gte (col : option Qc) (v : Qc) : tri :=
  (λ x, bool_decide (v ≤ x)%Qc) <$> col.
Definition lte (col : option Qc) (v : Qc) : tri :=
  (λ x, bool_decide (x ≤ v)%Qc) <$> col.

(** Bytewise order on text. *)
Definition text_le (a b : string) : Prop := String.leb a b = true.

Global Instance text_le_dec : RelDecision text_le.
Proof. intros a b. unfold text_le. apply _. Defined.

(** [col >= v] on text *)
Definition gte_text (col : option string) (v : string) : tri :=
  (λ x, bool_decide (text_le v x)) <$> col.

Definition ABS (x : option Qc) : option Qc := Qcabs <$> x.
Definition COALESCE {A} (x : option A) (d : A) : A := default d x.

(** LIKE patterns: [%] matches any run of characters, [_] any single
    character, and a backslash makes the next character literal.  A
    character of UTF-8 text is a byte that starts one and the continuation
    bytes ([10xxxxxx]) that follow it; the other bytes of a pattern are
    compared one by one. *)
Definition is_percent (c : ascii) : bool := Ascii.eqb c "%".
Definition is_underscore (c : ascii) : bool := Ascii.eqb c "_".
Definition is_backslash (c : ascii) : bool := Ascii.eqb c "\".

Definition is_continuation (c : ascii) : bool :=
  ((128 <=? N_of_ascii c) && (N_of_ascii c <? 192))%N.

(** The suffixes of [s] that start at a character, and the empty one. *)
Fixpoint char_starts (s : list ascii) : list (list ascii) :=
  match s with
  | [] => [[]]
  | c :: s' => if is_continuation c then char_starts s'
               else (c :: s') :: char_starts s'
  end.

(** The places from which the rest of a pattern is tried after [%]: the
    text itself and what is left of it after each of its characters. *)
Definition char_suffixes (s : list ascii) : list (list ascii) :=
  match s with
  | [] => [[]]
  | _ :: s' => s :: char_starts s'
  end.

(** [s] without its first character. *)
Definition next_char (s : list ascii) : list ascii :=
  match s with
  | [] => []
  | _ :: s' => default [] (head (char_starts s'))
  end.

Fixpoint like_match (p s : list ascii) : bool :=
  match p with
  | [] => match s with [] => true | _ :: _ => false end
  | c :: p' =>
      if is_percent c then existsb (like_match p') (char_suffixes s)
      else if is_underscore c then
        match s with [] => false | _ :: _ => like_match p' (next_char s) end
      else if is_backslash c then
        match p' with
        | [] => false
        | c' :: p'' =>
            match s with
            | [] => false
            | x :: s' => Ascii.eqb x c' && like_match p'' s'
            end
        end
      else
        match s with
        | [] => false
        | x :: s' => Ascii.eqb x c && like_match p' s'
        end
  end.

(** A character that stands for itself in a pattern. *)
Definition plain (c : ascii) : bool :=
  negb (is_percent c || is_underscore c || is_backslash c).

(** The engine rejects a pattern that ends in a lone escape character. *)
Fixpoint escape_ok (p : list ascii) : bool :=
  match p with
  | [] => true
  | c :: p' =>
      if is_backslash c then
        match p' with [] => false | _ :: p'' => escape_ok p'' end
      else escape_ok p'
  end.

(** [col ILIKE pat]: the engine lower-cases the pattern and the text in
    the locale of the database ([lower]) and matches them with LIKE. *)
Definition ilike (lower : string → string) (col : option string) (pat : string) : tri :=
  (λ s, like_match (list_ascii_of_string (lower pat))
                   (list_ascii_of_string (lower s))) <$> col.

(** WHERE: [None] is drizzle's [.where(undefined)], no clause at all. *)
Definition holds (t : tri) : Prop := t = Some true.

Global Instance holds_dec t : Decision (holds t).
Proof. unfold holds. apply _. Defined.

Definition keeps {Row} (w : option (cond Row)) (r : Row) : Prop :=
  match w with None => True | Some c => holds (c r) end.

Global Instance keeps_dec {Row} (w : option (cond Row)) r : Decision (keeps w r).
Proof. destruct w; simpl; apply _. Defined.

Definition where_ {Row} (w : option (cond Row)) (rows : list Row) : list Row :=
  filter (keeps w) rows.

(** ORDER BY.  [nulls_last R] orders present keys by [R] and puts NULL
    after them. *)
Definition nulls_last {A} (R : relation A) : relation (option A) :=
  λ a b, match a, b with
         | Some x, Some y => R x y
         | _, None => True
         | None, Some _ => False
         end.

Global Instance nulls_last_dec {A} (R : relation A) `{!RelDecision R} :
  RelDecision (nulls_last R).
Proof. intros [x|] [y|]; simpl; apply _. Defined.

Definition asc {Row A} (R : relation A) (key : Row → option A) : relation Row :=
  λ r1 r2, nulls_last R (key r1) (key r2).
Definition desc {Row A} (R : relation A) (key : Row → option A) : relation Row :=
  λ r1 r2, nulls_last R (key r2) (key r1).
Definition desc_nulls_last {Row A} (R : relation A) (key : Row → option A) :
  relation Row :=
  λ r1 r2, nulls_last (flip R) (key r1) (key r2).

Global Instance asc_dec {Row A} (R : relation A) `{!RelDecision R}
  (key : Row → option A) : RelDecision (asc R key).
Proof. intros r1 r2. unfold asc. apply _. Defined.
Global Instance desc_dec {Row A} (R : relation A) `{!RelDecision R}
  (key : Row → option A) : RelDecision (desc R key).
Proof. intros r1 r2. unfold desc. apply _. Defined.
Global Instance desc_nulls_last_dec {Row A} (R : relation A) `{!RelDecision R}
  (key : Row → option A) : RelDecision (desc_nulls_last R key).
Proof. intros r1 r2. unfold desc_nulls_last. apply _. Defined.

Definition order_by {Row} (R : relation Row) `{!RelDecision R}
  (rows : list Row) : list Row := merge_sort R rows.

(** LIMIT n *)
Definition limit {Row} (n : nat) (rows : list Row) : list Row := take n rows.

(** A number bound to a parameter reaches the engine as the text of
    [String(n)], which is in exponent notation from [10^21] on and then no
    integer literal; the engine reads the text at the type of the place. *)
Definition bind_int (lo hi n : Z) : Result Z :=
  if 10 ^ 21 <=? Z.abs n then Err (DbError InvalidTextRepresentation)
  else if (n <? lo) || (hi <? n) then Err (DbError NumericValueOutOfRange)
  else Ok n.

(** [integer] and [serial] columns hold 32 bits, OFFSET takes 64. *)
Definition int4 (n : Z) : Prop := - 2 ^ 31 ≤ n ≤ 2 ^ 31 - 1.
Definition bind_int4 (n : Z) : Result Z := bind_int (- 2 ^ 31) (2 ^ 31 - 1) n.
Definition bind_int8 (n : Z) : Result Z := bind_int (- 2 ^ 63) (2 ^ 63 - 1) n.

Global Instance int4_dec n : Decision (int4 n).
Proof. unfold int4. apply _. Defined.

(** LIMIT n OFFSET k: the engine rejects an offset that does not fit 64
    bits, and a negative one. *)
Definition limit_offset {Row} (n : nat) (k : Z) (rows : list Row) :
  Result (list Row) :=
  k ← bind_int8 k;
  if k <? 0 then Err (DbError InvalidOffset)
  else Ok (take n (drop (Z.to_nat k) rows)).

(** [count( * )] *)
Definition count {Row} (rows : list Row) : Z := Z.of_nat (length rows).

(** SELECT DISTINCT *)
Definition distinct {Row} `{EqDecision Row} (rows : list Row) : list Row :=
  remove_dups rows.


(** [col IS NOT NULL] *)
Definition isNotNull {A} (col : option A) : tri := Some (bool_decide (is_Some col)).

(** [a = b] between two columns *)
Definition eq_col {A} `{EqDecision A} (a b : option A) : tri :=
  x ← a; y ← b; Some (bool_decide (x = y)).

(** [col IN (v1, ..., vn)] for bound (non-null) values *)
Definition in_list (col : option string) (vs : list string) : tri :=
  (λ x, bool_decide (x ∈ vs)) <$> col.

(** MIN over an integer column: NULLs are ignored. *)
Definition min_int (xs : list (option Z)) : option Z :=
  foldr (λ x acc,
           match x, acc with
           | Some n, Some m => Some (Z.min n m)
           | Some n, None => Some n
           | None, _ => acc
           end) None xs.

(** INNER JOIN *)
Definition inner_join {A B} (on : A → B → tri) (l : list A) (r : list B) :
  list (A * B) :=
  a ← l; b ← r; if decide (holds (on a b)) then [(a, b)] else [].

End Sql.

(** ** The relational schema ([db/schema.ts]) *)

Module markets.
Record row := {
  id : Z;
  platform : string;
  platformId : string;
  title : string;
  description : option string;
  category : option string;
  subcategory : option string;
  status : option string;
  yesPrice : option Qc;
  noPrice : option Qc;
  volume : option Qc;
  liquidity : option Qc;
  closeTime : option string;
  url : option string;
  lastUpdated : option string;
  rawData : option string;
}.
Global Instance markets_row_eq_dec : EqDecision row.
Proof. solve_decision. Defined.
End markets.

Module marketPairs.
Record row := {
  id : Z;
  kalshiMarketId : option Z;
  polymarketMarketId : option Z;
  matchConfidence : option Qc;
  matchReason : option string;
  priceGap : option Qc;
  createdAt : option string;
  lastChecked : option string;
}.
Global Instance marketPairs_row_eq_dec : EqDecision row.
Proof. solve_decision. Defined.
End marketPairs.

Module priceSnapshots.
Record row := {
  id : Z;
  marketId : Z;
  yesPrice : option Qc;
  noPrice : option Qc;
  volume : option Qc;
  openInterest : option Qc;
  bestBid : option Qc;
  bestAsk : option Qc;
  spread : option Qc;
  timestamp : option string;
}.
Global Instance priceSnapshots_row_eq_dec : EqDecision row.
Proof. solve_decision. Defined.
End priceSnapshots.

Module alerts.
Record row := {
  id : Z;
  alertType : string;
  severity : option string;
  marketId : option Z;
  pairId : option Z;
  title : string;
  message : option string;
  data : option string;
  acknowledged : option Z;
  triggeredAt : option string;
}.
Global Instance alerts_row_eq_dec : EqDecision row.
Proof. solve_decision. Defined.
End alerts.

Module traders.
Record row := {
  id : Z;
  proxyWallet : string;
  userName : option string;
  profileImage : option string;
  xUsername : option string;
  verifiedBadge : option Z;
  totalPnl : option Qc;
  totalVolume : option Qc;
  portfolioValue : option Qc;
  firstSeen : option string;
  lastUpdated : option string;
}.
Global Instance traders_row_eq_dec : EqDecision row.
Proof. solve_decision. Defined.
End traders.

Module traderPositions.
Record row := {
  id : Z;
  traderId : option Z;
  proxyWallet : string;
  conditionId : option string;
  marketTitle : option string;
  outcome : option string;
  size : option Qc;
  avgPrice : option Qc;
  initialValue : option Qc;
  currentValue : option Qc;
  cashPnl : option Qc;
  percentPnl : option Qc;
  realizedPnl : option Qc;
  curPrice : option Qc;
  redeemable : option Z;
  eventSlug : option string;
  snapshotTime : option string;
}.
Global Instance traderPositions_row_eq_dec : EqDecision row.
Proof. solve_decision. Defined.
End traderPositions.

Module traderWatchlist.
Record row := {
  id : Z;
  traderId : Z;
  notes : option string;
  createdAt : option string;
}.
Global Instance traderWatchlist_row_eq_dec : EqDecision row.
Proof. solve_decision. Defined.
End traderWatchlist.

(** What the installation fixes and the code does not: [engine_lower] is
    [lower()] in the locale of the database, which ILIKE applies to both of
    its operands; [driver_String c] is [String(e)] for the error [e] that
    reaches the caller when the engine reports the condition [c], a text
    that depends on the versions of the driver and of the query builder. *)
Record Installation := {
  engine_lower : string → string;
  driver_String : EngineError → string;
}.

(** The store: one list of rows per table the layer reads or writes, the
    sequence behind [trader_watchlist.id], and the installation. *)
Record DB := {
  tbl_markets : list markets.row;
  tbl_market_pairs : list marketPairs.row;
  tbl_price_snapshots : list priceSnapshots.row;
  tbl_alerts : list alerts.row;
  tbl_traders : list traders.row;
  tbl_trader_positions : list traderPositions.row;
  tbl_trader_watchlist : list traderWatchlist.row;
  seq_trader_watchlist : Z;
  installation : Installation;
}.

(** Further tables the layer only reads. *)

Module whaleTrades.
Record row := {
  id : Z;
  traderId : option Z;
  proxyWallet : string;
  conditionId : option string;
  marketTitle : option string;
  side : option string;
  size : option Qc;
  price : option Qc;
  usdcSize : option Qc;
  outcome : option string;
  outcomeIndex : option Z;
  transactionHash : option string;
  tradeTimestamp : option Z;
  eventSlug : option string;
  createdAt : option string;
}.
Global Instance whaleTrades_row_eq_dec : EqDecision row.
Proof. solve_decision. Defined.
End whaleTrades.

Module insights.
Record row := {
  id : Z;
  reportType : option string;
  title : string;
  content : option string;
  marketsCovered : option Z;
  modelUsed : option string;
  tokensUsed : option Z;
  createdAt : option string;
}.
Global Instance insights_row_eq_dec : EqDecision row.
Proof. solve_decision. Defined.
End insights.

Module agentLogs.
Record row := {
  id : Z;
  agentName : string;
  status : string;
  startedAt : option string;
  completedAt : option string;
  durationSeconds : option Qc;
  itemsProcessed : option Z;
  summary : option string;
  error : option string;
}.
Global Instance agentLogs_row_eq_dec : EqDecision row.
Proof. solve_decision. Defined.
End agentLogs.

Record Feeds := {
  tbl_whale_trades : list whaleTrades.row;
  tbl_insights : list insights.row;
  tbl_agent_logs : list agentLogs.row;
}.

(** [Math.ceil(a / b)] on a quotient of integers. *)
Definition Math_ceil_div (a b : Z) : Z := Qceiling (inject_Z a / inject_Z b).

(** ** [queries/markets.ts] *)

Module Markets.

Definition PAGE_SIZE : Z := 50.

Record GetMarketsParams := {
  platform : option string;
  status : option string;
  category : option string;
  search : option string;
  sort : option string;
  page : option Z;
}.

(** [getMarkets()] with no argument: every parameter is [undefined]. *)
Definition no_params : GetMarketsParams :=
  {| platform := None; status := None; category := None;
     search := None; sort := None; page := None |}.

Definition status_cond (s : string) : Sql.cond markets.row :=
  λ m, Sql.eq (markets.status m) s.
Definition platform_cond (s : string) : Sql.cond markets.row :=
  λ m, Sql.eq (Some (markets.platform m)) s.
Definition category_cond (s : string) : Sql.cond markets.row :=
  λ m, Sql.eq (markets.category m) s.
Definition search_cond (db : DB) (s : string) : Sql.cond markets.row :=
  λ m, Sql.ilike (engine_lower (installation db))
         (Some (markets.title m)) ("%" ++ s ++ "%").

(** The [conditions] array after the four [if]s, as the engine of [db]
    evaluates them. *)
Definition conditions (db : DB) (p : GetMarketsParams) : list (Sql.cond markets.row) :=
  let status := default "active" (status p) in
  (if JS.truthy status && negb (status =? "all")%string
   then [status_cond status] else []) ++
  (match platform p with
   | Some pl => if JS.truthy pl && negb (pl =? "all")%string
                then [platform_cond pl] else []
   | None => []
   end) ++
  (match category p with
   | Some c => if JS.truthy c && negb (c =? "All")%string
                  && negb (c =? "all")%string
               then [category_cond c] else []
   | None => []
   end) ++
  (match search p with
   | Some s => if JS.truthy s then [search_cond db s] else []
   | None => []
   end).

Definition where_clause (db : DB) (p : GetMarketsParams) :
  option (Sql.cond markets.row) :=
  match conditions db p with
  | [] => None
  | cs => Some (Sql.and_ cs)
  end.

(** The [orderBy] term chosen by the [switch]. *)
Inductive column := col_volume | col_title | col_yesPrice.
Inductive Order := Asc (c : column) | Desc (c : column).

Definition order_of_sort (sort : string) : Order :=
  if (sort =? "volume_asc")%string then Asc col_volume
  else if (sort =? "title_asc")%string then Asc col_title
  else if (sort =? "title_desc")%string then Desc col_title
  else if (sort =? "yes_price_desc")%string then Desc col_yesPrice
  else if (sort =? "yes_price_asc")%string then Asc col_yesPrice
  else Desc col_volume.

Definition title_key (m : markets.row) : option string := Some (markets.title m).

Definition precedes (o : Order) : relation markets.row :=
  match o with
  | Asc col_volume => Sql.asc Qcle markets.volume
  | Asc col_title => Sql.asc Sql.text_le title_key
  | Asc col_yesPrice => Sql.asc Qcle markets.yesPrice
  | Desc col_volume => Sql.desc Qcle markets.volume
  | Desc col_title => Sql.desc Sql.text_le title_key
  | Desc col_yesPrice => Sql.desc Qcle markets.yesPrice
  end.

Global Instance precedes_dec o : RelDecision (precedes o).
Proof. destruct o as [[]|[]]; simpl; apply _. Defined.

Record Envelope := {
  data : list markets.row;
  total : Z;
  env_page : Z;
  pageSize : Z;
  totalPages : Z;
}.

(** The rows the WHERE clause keeps (what both queries range over). *)
Definition matching (db : DB) (p : GetMarketsParams) : list markets.row :=
  Sql.where_ (where_clause db p) (tbl_markets db).

(** [page] is a number; the offset is computed on integers, which is what
    the double-precision product comes to for every page whose offset the
    engine accepts on a table of fewer than [2^53] rows. *)
Definition getMarkets (db : DB) (p : GetMarketsParams) : Result Envelope :=
  let sort := default "volume_desc" (sort p) in
  let page := JS.Number (default 1 (page p)) in
  let orderBy := order_of_sort sort in
  let offset := (page - 1) * PAGE_SIZE in
  rows ← Sql.limit_offset (Z.to_nat PAGE_SIZE) offset
           (Sql.order_by (precedes orderBy) (matching db p));
  let count := Sql.count (matching db p) in
  Ok {| data := rows;
        total := count;
        env_page := page;
        pageSize := PAGE_SIZE;
        totalPages := Math_ceil_div count PAGE_SIZE |}.

(** The rows a caller reads off the result, none when the call failed. *)
Definition rows_of (r : Result Envelope) : list markets.row :=
  match r with Ok env => data env | Err _ => [] end.


Definition searchMarkets (db : DB) (query : string) (limit : nat) :
  list markets.row :=
  Sql.limit limit
    (Sql.order_by (Sql.desc Qcle markets.volume)
       (Sql.where_ (Some (Sql.and_ [search_cond db query; status_cond "active"]))
          (tbl_markets db))).

(** [.filter(Boolean)] keeps the non-empty strings. *)
Definition Boolean_string (c : option string) : option string :=
  match c with
  | Some s => if JS.truthy s then Some s else None
  | None => None
  end.

(** [getMarketCategories]: GROUP BY yields each category value of the
    active markets once, NULL included; ORDER BY sorts them ascending. *)
Definition getMarketCategories (db : DB) : list string :=
  omap Boolean_string
    (Sql.order_by (Sql.asc Sql.text_le (λ c : option string, c))
       (Sql.distinct
          (markets.category <$>
             Sql.where_ (Some (status_cond "active")) (tbl_markets db)))).

End Markets.

(** ** [queries/smart-filters.ts] *)

Module SmartFilters.

Definition DEFAULT_LIMIT : nat := 50.

(** The literals [0.45], [0.55] and [0.03]. *)
Definition lit_0_45 : Qc := Q2Qc (45 # 100).
Definition lit_0_55 : Qc := Q2Qc (55 # 100).
Definition lit_0_03 : Qc := Q2Qc (3 # 100).

Definition near_5050_cond : Sql.cond markets.row :=
  Sql.and_ [ (λ m, Sql.eq (markets.status m) "active");
             (λ m, Sql.gte (markets.yesPrice m) lit_0_45);
             (λ m, Sql.lte (markets.yesPrice m) lit_0_55) ].

(** The query up to its LIMIT clause. *)
Definition near_5050_all (db : DB) : list markets.row :=
  Sql.order_by (Sql.desc Qcle markets.volume)
    (Sql.where_ (Some near_5050_cond) (tbl_markets db)).

Definition getNear5050Markets (db : DB) (limit : nat) : list markets.row :=
  Sql.limit limit (near_5050_all db).

(** Three-valued OR, for the join condition. *)
Definition or3 (a b : Sql.tri) : Sql.tri :=
  match a, b with
  | Some true, _ | _, Some true => Some true
  | Some false, Some false => Some false
  | _, _ => None
  end.

(** [JOIN markets m ON m.id = mp.polymarket_market_id
                     OR m.id = mp.kalshi_market_id] *)
Definition high_arb_on (mp : marketPairs.row) (m : markets.row) : Sql.tri :=
  or3 (Sql.eq (marketPairs.polymarketMarketId mp) (markets.id m))
      (Sql.eq (marketPairs.kalshiMarketId mp) (markets.id m)).

Definition high_arb_join (db : DB) : list (marketPairs.row * markets.row) :=
  mp ← tbl_market_pairs db;
  m ← tbl_markets db;
  if decide (Sql.holds (high_arb_on mp m)) then [(mp, m)] else [].

(** [WHERE ABS(COALESCE(mp.price_gap, 0)) >= 0.03 AND m.status = 'active'] *)
Definition high_arb_cond : Sql.cond (marketPairs.row * markets.row) :=
  Sql.and_ [ (λ r, Sql.gte (Some (Qcabs (Sql.COALESCE (marketPairs.priceGap r.1) 0%Qc)))
                           lit_0_03);
             (λ r, Sql.eq (markets.status r.2) "active") ].

(** The query up to its LIMIT clause. *)
Definition high_arb_all (db : DB) : list markets.row :=
  Sql.order_by (Sql.desc_nulls_last Qcle markets.volume)
    (Sql.distinct
       (snd <$> Sql.where_ (Some high_arb_cond) (high_arb_join db))).

Definition getHighArbMarkets (db : DB) (limit : nat) : list markets.row :=
  Sql.limit limit (high_arb_all db).

Section dispatch.
(** The three heuristics that cast free text to timestamps or aggregate
    whale trades are taken as given. *)
Variables getWhaleFavoriteMarkets getClosingSoonMarkets getHottestMarkets :
  DB → nat → list markets.row.

Definition getSmartFilteredMarkets (db : DB) (filterKey : string)
  (limit : nat) : list markets.row :=
  if (filterKey =? "whale_favorites")%string then getWhaleFavoriteMarkets db limit
  else if (filterKey =? "closing_soon")%string then getClosingSoonMarkets db limit
  else if (filterKey =? "near_5050")%string then getNear5050Markets db limit
  else if (filterKey =? "high_arb")%string then getHighArbMarkets db limit
  else if (filterKey =? "hottest_24h")%string then getHottestMarkets db limit
  else [].
End dispatch.

(** [getWhaleFavoriteMarkets]: the join keeps one row per market and whale
    trade on its condition id; GROUP BY [m.id] (the primary key) folds them
    into one row per market with the number of trades. *)
Definition whale_trade_on (m : markets.row) (wt : whaleTrades.row) : Sql.tri :=
  Sql.and3 (Sql.eq (whaleTrades.conditionId wt) (markets.platformId m))
           (Sql.eq (Some (markets.platform m)) "polymarket").

Definition whale_trade_count (fd : Feeds) (m : markets.row) : Z :=
  Sql.count (filter (λ wt, Sql.holds (whale_trade_on m wt)) (tbl_whale_trades fd)).

Definition whale_favorites_all (db : DB) (fd : Feeds) : list markets.row :=
  Sql.order_by (Sql.desc Z.le (λ m, Some (whale_trade_count fd m)))
    (filter (λ m, 0 < whale_trade_count fd m)
       (Sql.where_ (Some (λ m, Sql.eq (markets.status m) "active")) (tbl_markets db))).

Definition getWhaleFavoriteMarkets (db : DB) (fd : Feeds) (limit : nat) :
  list markets.row :=
  Sql.limit limit (whale_favorites_all db fd).

End SmartFilters.

(** ** [queries/pairs.ts] *)

Module Pairs.

(** A row of the result: [mp.*] and the columns selected from the two
    joined markets (NULL when the LEFT JOIN finds no partner). *)
Record row := {
  mp : marketPairs.row;
  kalshi_title : option string;
  kalshi_yes : option Qc;
  kalshi_no : option Qc;
  kalshi_volume : option Qc;
  kalshi_category : option string;
  poly_title : option string;
  poly_yes : option Qc;
  poly_no : option Qc;
  poly_volume : option Qc;
  poly_category : option string;
}.

Definition left_join {A B} (on : A → B → Sql.tri) (l : list A) (r : list B) :
  list (A * option B) :=
  a ← l;
  match filter (λ b, Sql.holds (on a b)) r with
  | [] => [(a, None)]
  | bs => (λ b, (a, Some b)) <$> bs
  end.

Definition select (r : marketPairs.row * option markets.row * option markets.row) : row :=
  let '(p, km, pm) := r in
  {| mp := p;
     kalshi_title := markets.title <$> km;
     kalshi_yes := km ≫= markets.yesPrice;
     kalshi_no := km ≫= markets.noPrice;
     kalshi_volume := km ≫= markets.volume;
     kalshi_category := km ≫= markets.category;
     poly_title := markets.title <$> pm;
     poly_yes := pm ≫= markets.yesPrice;
     poly_no := pm ≫= markets.noPrice;
     poly_volume := pm ≫= markets.volume;
     poly_category := pm ≫= markets.category |}.

Definition joined (db : DB) :
  list (marketPairs.row * option markets.row * option markets.row) :=
  left_join (λ r pm, Sql.eq (marketPairs.polymarketMarketId r.1) (markets.id pm))
    (left_join (λ p km, Sql.eq (marketPairs.kalshiMarketId p) (markets.id km))
       (tbl_market_pairs db) (tbl_markets db))
    (tbl_markets db).

Definition abs_gap (r : marketPairs.row * option markets.row * option markets.row) :
  option Qc := Sql.ABS (marketPairs.priceGap r.1.1).

(** [minGap ? sql`WHERE ABS(mp.price_gap) >= ${minGap}` : sql``]:
    [undefined] and [0] are falsy. *)
Definition whereClause (minGap : option Qc) :
  option (Sql.cond (marketPairs.row * option markets.row * option markets.row)) :=
  match minGap with
  | Some g => if decide (g = 0%Qc) then None
              else Some (λ r, Sql.gte (abs_gap r) g)
  | None => None
  end.

Definition getAllPairs (db : DB) (minGap : option Qc) : list row :=
  select <$> Sql.order_by (Sql.desc Qcle abs_gap)
               (Sql.where_ (whereClause minGap) (joined db)).

End Pairs.

(** ** JavaScript values, property lookup and dates *)

Module JSDate.

(** The values a lookup in the [RANGE_HOURS] object can produce: a number
    ([None] is NaN), [undefined], or a member inherited from
    [Object.prototype] (a function or the prototype object itself). *)
Inductive value :=
  | undefined
  | number (n : option Z)
  | inherited (name : string).

Definition truthy (v : value) : bool :=
  match v with
  | undefined => false
  | number None => false
  | number (Some n) => negb (n =? 0)
  | inherited _ => true
  end.

(** [Number(v)]: functions and plain objects convert to NaN. *)
Definition to_number (v : value) : option Z :=
  match v with
  | number n => n
  | undefined | inherited _ => None
  end.

Definition mul (a b : option Z) : option Z := x ← a; y ← b; Some (x * y).
Definition sub (a b : option Z) : option Z := x ← a; y ← b; Some (x - y).

(** Property names every object inherits from [Object.prototype]. *)
Definition Object_prototype_names : list string :=
  [ "constructor"; "hasOwnProperty"; "isPrototypeOf"; "propertyIsEnumerable";
    "toLocaleString"; "toString"; "valueOf"; "__proto__";
    "__defineGetter__"; "__defineSetter__"; "__lookupGetter__";
    "__lookupSetter__" ].

(** [obj[key]] for an object literal with the given own properties. *)
Fixpoint own_lookup (own : list (string * Z)) (key : string) : option Z :=
  match own with
  | [] => None
  | (k, v) :: rest => if (k =? key)%string then Some v else own_lookup rest key
  end.

Definition get (own : list (string * Z)) (key : string) : value :=
  match own_lookup own key with
  | Some v => number (Some v)
  | None => if bool_decide (key ∈ Object_prototype_names)
            then inherited key else undefined
  end.

(** Decimal digits, zero padded to [w] places. *)
Definition digit (n : Z) : ascii := ascii_of_N (48 + Z.to_N n).

Fixpoint digits (w : nat) (n : Z) : string :=
  match w with
  | O => ""
  | S w' => digits w' (n / 10) ++ String (digit (n mod 10)) ""
  end.

(** Civil date of a day count since 1970-01-01 (proleptic Gregorian). *)
Definition civil_from_days (days : Z) : Z * Z * Z :=
  let z := days + 719468 in
  let era := z / 146097 in
  let doe := z - era * 146097 in
  let yoe := (doe - doe / 1460 + doe / 36524 - doe / 146096) / 365 in
  let doy := doe - (365 * yoe + yoe / 4 - yoe / 100) in
  let mp := (5 * doy + 2) / 153 in
  let d := doy - (153 * mp + 2) / 5 + 1 in
  let m := if mp <? 10 then mp + 3 else mp - 9 in
  let y := yoe + era * 400 + (if m <=? 2 then 1 else 0) in
  (y, m, d).

Definition format_year (y : Z) : string :=
  if (0 <=? y) && (y <=? 9999) then digits 4 y
  else (if y <? 0 then "-" else "+") ++ digits 6 (Z.abs y).

Definition format_iso (t : Z) : string :=
  let '(y, m, d) := civil_from_days (t / 86400000) in
  let ms := t mod 86400000 in
  format_year y ++ "-" ++ digits 2 m ++ "-" ++ digits 2 d ++ "T" ++
  digits 2 (ms / 3600000) ++ ":" ++ digits 2 (ms / 60000 mod 60) ++ ":" ++
  digits 2 (ms / 1000 mod 60) ++ "." ++ digits 3 (ms mod 1000) ++ "Z".

(** [new Date(t).toISOString()]: throws on NaN and outside the range of
    time values. *)
Definition toISOString (t : option Z) : Result string :=
  match t with
  | Some t => if Z.abs t <=? 8640000000000000 then Ok (format_iso t)
              else Err (RangeError "Invalid time value")
  | None => Err (RangeError "Invalid time value")
  end.

End JSDate.

(** ** [queries/price-snapshots.ts] *)

Module PriceSnapshots.

Definition timestamp_order : relation priceSnapshots.row :=
  Sql.desc Sql.text_le priceSnapshots.timestamp.

Definition market_cond (marketId : Z) : Sql.cond priceSnapshots.row :=
  λ r, Sql.eq (Some (priceSnapshots.marketId r)) marketId.

Definition cutoff_cond (cutoff : string) : Sql.cond priceSnapshots.row :=
  λ r, Sql.gte_text (priceSnapshots.timestamp r) cutoff.

Definition getPriceHistory (db : DB) (marketId : Z) (limit : nat) :
  list priceSnapshots.row :=
  Sql.limit limit
    (Sql.order_by timestamp_order
       (Sql.where_ (Some (market_cond marketId)) (tbl_price_snapshots db))).

Definition RANGE_HOURS : list (string * Z) :=
  [ ("24h", 24); ("7d", 168); ("30d", 720) ].

(** The [conditions] array; [now] is what [Date.now()] returns. *)
Definition conditions (now : Z) (marketId : Z) (range : option string) :
  Result (list (Sql.cond priceSnapshots.row)) :=
  match range with
  | Some rg =>
      if JS.truthy rg && negb (rg =? "all")%string then
        let hours := JSDate.get RANGE_HOURS rg in
        if JSDate.truthy hours then
          cutoff ← JSDate.toISOString
                     (JSDate.sub (Some now)
                        (JSDate.mul (JSDate.mul (JSDate.mul
                           (JSDate.to_number hours) (Some 60)) (Some 60)) (Some 1000)));
          Ok [market_cond marketId; cutoff_cond cutoff]
        else Ok [market_cond marketId]
      else Ok [market_cond marketId]
  | None => Ok [market_cond marketId]
  end.

Definition getPriceHistoryWithRange (db : DB) (now : Z) (marketId : Z)
  (range : option string) (limit : nat) : Result (list priceSnapshots.row) :=
  cs ← conditions now marketId range;
  Ok (Sql.limit limit
        (Sql.order_by timestamp_order
           (Sql.where_ (Some (Sql.and_ cs)) (tbl_price_snapshots db)))).

(** [getLatestSnapshot]: [result[0] ?? null] *)
Definition getLatestSnapshot (db : DB) (marketId : Z) : option priceSnapshots.row :=
  head (Sql.limit 1
          (Sql.order_by timestamp_order
             (Sql.where_ (Some (market_cond marketId)) (tbl_price_snapshots db)))).

End PriceSnapshots.

(** ** [queries/traders.ts] *)

Module Traders.





(** *** Watchlist *)

Definition set_watchlist (db : DB) (rows : list traderWatchlist.row) (seq : Z) : DB :=
  {| tbl_markets := tbl_markets db;
     tbl_market_pairs := tbl_market_pairs db;
     tbl_price_snapshots := tbl_price_snapshots db;
     tbl_alerts := tbl_alerts db;
     tbl_traders := tbl_traders db;
     tbl_trader_positions := tbl_trader_positions db;
     tbl_trader_watchlist := rows;
     seq_trader_watchlist := seq;
     installation := installation db |}.

Definition watched (db : DB) (traderId : Z) : Prop :=
  traderId ∈ traderWatchlist.traderId <$> tbl_trader_watchlist db.

Global Instance watched_dec db traderId : Decision (watched db traderId).
Proof. unfold watched. apply _. Defined.

Definition unique_violation : Error := DbError UniqueViolation.
Definition foreign_key_violation : Error := DbError ForeignKeyViolation.

(** [db.insert(traderWatchlist).values({traderId, createdAt})]: an id that
    does not fit the column is rejected when it is bound, before the
    statement runs.  Otherwise the sequence value is drawn first; the engine
    then enforces the unique constraint on [trader_id] and its reference to
    [traders.id]. *)
Definition insert_watchlist (db : DB) (traderId : Z) (createdAt : string) :
  DB * Result unit :=
  match Sql.bind_int4 traderId with
  | Err e => (db, Err e)
  | Ok traderId =>
      let new_id := seq_trader_watchlist db in
      let db1 := set_watchlist db (tbl_trader_watchlist db) (new_id + 1) in
      if bool_decide (watched db traderId) then (db1, Err unique_violation)
      else if bool_decide (traderId ∈ traders.id <$> tbl_traders db)
      then
        (set_watchlist db
           (tbl_trader_watchlist db ++
              [ {| traderWatchlist.id := new_id;
                   traderWatchlist.traderId := traderId;
                   traderWatchlist.notes := Some "";
                   traderWatchlist.createdAt := Some createdAt |} ])
           (new_id + 1),
         Ok ())
      else (db1, Err foreign_key_violation)
  end.

(** [String(e)]: the name and message of a JavaScript error; for an error
    out of the driver, the text the installation gives it. *)
Definition String_of_error (db : DB) (e : Error) : string :=
  match e with
  | RangeError msg => "RangeError: " ++ msg
  | DbError c => driver_String (installation db) c
  end.

(** The [catch] block: an error whose text mentions a duplicate is
    answered with [false], any other is thrown again. *)
Definition catch_duplicate (db : DB) (e : Error) : Result bool :=
  let msg := JS.toLowerCase (String_of_error db e) in
  if JS.includes msg "unique" || JS.includes msg "duplicate"
  then Ok false
  else Err e.

(** [now] is the time value of [new Date()], which is always a valid
    date.  An exception out of the insert reaches the [catch]. *)
Definition addToWatchlist (db : DB) (now : Z) (traderId : Z) : DB * Result bool :=
  match insert_watchlist db traderId (JSDate.format_iso now) with
  | (db', Ok _) => (db', Ok true)
  | (db', Err e) => (db', catch_duplicate db e)
  end.

Definition removeFromWatchlist (db : DB) (traderId : Z) : DB * Result unit :=
  match Sql.bind_int4 traderId with
  | Err e => (db, Err e)
  | Ok traderId =>
      (set_watchlist db
         (filter (λ r, traderWatchlist.traderId r ≠ traderId) (tbl_trader_watchlist db))
         (seq_trader_watchlist db),
       Ok ())
  end.

(** The row a successful [addToWatchlist] appends. *)
Definition new_watch (db : DB) (now t : Z) : traderWatchlist.row :=
  {| traderWatchlist.id := seq_trader_watchlist db;
     traderWatchlist.traderId := t;
     traderWatchlist.notes := Some "";
     traderWatchlist.createdAt := Some (JSDate.format_iso now) |}.

(** *** Leaderboard and search *)

Record TopTraders := {
  tt_data : list traders.row;
  tt_total : Z;
  tt_page : Z;
  tt_pageSize : Z;
  tt_totalPages : Z;
}.

(** [orderBy === "total_volume" ? traders.totalVolume : traders.totalPnl] *)
Definition ranked_column (orderBy : string) : traders.row → option Qc :=
  if (orderBy =? "total_volume")%string then traders.totalVolume
  else traders.totalPnl.

Definition ranked (db : DB) (orderBy : string) : list traders.row :=
  Sql.where_ (Some (λ t, Sql.isNotNull (ranked_column orderBy t))) (tbl_traders db).

Definition getTopTraders (db : DB) (orderBy : string) (page : Z) : Result TopTraders :=
  let page := JS.Number page in
  let col := ranked_column orderBy in
  let offset := (page - 1) * Markets.PAGE_SIZE in
  rows ← Sql.limit_offset (Z.to_nat Markets.PAGE_SIZE) offset
           (Sql.order_by (Sql.desc Qcle col) (ranked db orderBy));
  let count := Sql.count (ranked db orderBy) in
  Ok {| tt_data := rows;
        tt_total := count;
        tt_page := page;
        tt_pageSize := Markets.PAGE_SIZE;
        tt_totalPages := Math_ceil_div count Markets.PAGE_SIZE |}.

Definition getTraderByWallet (db : DB) (wallet : string) : option traders.row :=
  head (Sql.limit 1
          (Sql.where_ (Some (λ t, Sql.eq (Some (traders.proxyWallet t)) wallet))
             (tbl_traders db))).

Definition searchTraders (db : DB) (query : string) : list traders.row :=
  Sql.limit 20
    (Sql.order_by (Sql.desc Qcle traders.totalPnl)
       (Sql.where_
          (Some (λ t, Sql.ilike (engine_lower (installation db))
                        (traders.userName t) ("%" ++ query ++ "%")))
          (tbl_traders db))).

(** *** Reading the watchlist *)

Record WatchlistRow := {
  w_id : Z;
  w_proxyWallet : string;
  w_userName : option string;
  w_profileImage : option string;
  w_xUsername : option string;
  w_verifiedBadge : option Z;
  w_totalPnl : option Qc;
  w_totalVolume : option Qc;
  w_portfolioValue : option Qc;
  watchedSince : option string;
}.

Definition watchlist_select (r : traderWatchlist.row * traders.row) : WatchlistRow :=
  {| w_id := traders.id r.2;
     w_proxyWallet := traders.proxyWallet r.2;
     w_userName := traders.userName r.2;
     w_profileImage := traders.profileImage r.2;
     w_xUsername := traders.xUsername r.2;
     w_verifiedBadge := traders.verifiedBadge r.2;
     w_totalPnl := traders.totalPnl r.2;
     w_totalVolume := traders.totalVolume r.2;
     w_portfolioValue := traders.portfolioValue r.2;
     watchedSince := traderWatchlist.createdAt r.1 |}.

(** [eq(traderWatchlist.traderId, traders.id)] *)
Definition watch_on (w : traderWatchlist.row) (t : traders.row) : Sql.tri :=
  Sql.eq (Some (traderWatchlist.traderId w)) (traders.id t).

Definition getWatchlist (db : DB) : list WatchlistRow :=
  watchlist_select <$>
    Sql.order_by
      (Sql.desc Sql.text_le (λ r : traderWatchlist.row * traders.row,
                               traderWatchlist.createdAt r.1))
      (Sql.inner_join watch_on (tbl_trader_watchlist db) (tbl_traders db)).

(** [new Set(rows.map((r) => r.traderId))] *)
Definition getWatchlistIds (db : DB) : gset Z :=
  list_to_set (traderWatchlist.traderId <$> tbl_trader_watchlist db).

End Traders.

(** ** [queries/alerts.ts] *)

Module Alerts.

Definition set_acknowledged (a : alerts.row) (v : Z) : alerts.row :=
  {| alerts.id := alerts.id a;
     alerts.alertType := alerts.alertType a;
     alerts.severity := alerts.severity a;
     alerts.marketId := alerts.marketId a;
     alerts.pairId := alerts.pairId a;
     alerts.title := alerts.title a;
     alerts.message := alerts.message a;
     alerts.data := alerts.data a;
     alerts.acknowledged := Some v;
     alerts.triggeredAt := alerts.triggeredAt a |}.

Definition set_alerts (db : DB) (rows : list alerts.row) : DB :=
  {| tbl_markets := tbl_markets db;
     tbl_market_pairs := tbl_market_pairs db;
     tbl_price_snapshots := tbl_price_snapshots db;
     tbl_alerts := rows;
     tbl_traders := tbl_traders db;
     tbl_trader_positions := tbl_trader_positions db;
     tbl_trader_watchlist := tbl_trader_watchlist db;
     seq_trader_watchlist := seq_trader_watchlist db;
     installation := installation db |}.

(** An alert that is still open: its flag is 0. *)
Definition unack (a : alerts.row) : Prop := alerts.acknowledged a = Some 0.

Global Instance unack_dec a : Decision (unack a).
Proof. unfold unack. apply _. Defined.

(** What the UPDATE does to one row. *)
Definition ack_row (alertId : Z) (a : alerts.row) : alerts.row :=
  if decide (Sql.holds (Sql.eq (Some (alerts.id a)) alertId))
  then set_acknowledged a 1 else a.

(** [UPDATE alerts SET acknowledged = 1 WHERE id = alertId].  An id that
    does not fit the 32-bit column is rejected when it is bound: the caller
    gets the engine's error and no row is touched.  The column holds no such
    id, so mapping [ack_row] over the stored rows leaves them as they are in
    that case too, and the rows are written here in this one way for both
    outcomes. *)
Definition acknowledgeAlert (db : DB) (alertId : Z) : DB * Result unit :=
  (set_alerts db (ack_row alertId <$> tbl_alerts db),
   match Sql.bind_int4 alertId with
   | Err e => Err e
   | Ok _ => Ok ()
   end).

(** The acknowledged flag of the alert with a given id, if there is one. *)
Definition is_acknowledged (db : DB) (alertId : Z) : Prop :=
  ∃ a, a ∈ tbl_alerts db ∧ alerts.id a = alertId ∧ alerts.acknowledged a = Some 1.

(** *** Reading alerts *)

Record GetAlertsParams := {
  type : option string;
  acknowledged : option bool;
  limit : option nat;
}.

(** A result row: every column of the alert and the joined market title. *)
Record AlertRow := {
  alert : alerts.row;
  marketTitle : option string;
}.

Definition joined_row : Type := alerts.row * option markets.row.

Definition conditions (p : GetAlertsParams) : list (Sql.cond joined_row) :=
  (match type p with
   | Some t => if JS.truthy t && negb (t =? "all")%string
               then [λ r : joined_row, Sql.eq (Some (alerts.alertType r.1)) t] else []
   | None => []
   end) ++
  (match acknowledged p with
   | Some a => [λ r : joined_row,
                  Sql.eq (alerts.acknowledged r.1) (if a then 1 else 0)]
   | None => []
   end).

Definition where_clause (p : GetAlertsParams) : option (Sql.cond joined_row) :=
  match conditions p with
  | [] => None
  | cs => Some (Sql.and_ cs)
  end.

(** The query up to its LIMIT clause. *)
Definition alerts_all (db : DB) (p : GetAlertsParams) : list joined_row :=
  Sql.order_by (Sql.desc Sql.text_le (λ r : joined_row, alerts.triggeredAt r.1))
    (Sql.where_ (where_clause p)
       (Pairs.left_join (λ a m, Sql.eq (alerts.marketId a) (markets.id m))
          (tbl_alerts db) (tbl_markets db))).

Definition alert_select (r : joined_row) : AlertRow :=
  {| alert := r.1; marketTitle := markets.title <$> r.2 |}.

Definition getAlerts (db : DB) (p : GetAlertsParams) : list AlertRow :=
  alert_select <$> Sql.limit (default 100%nat (limit p)) (alerts_all db p).

Definition getAlertTypes (db : DB) : list string :=
  Sql.order_by Sql.text_le (Sql.distinct (alerts.alertType <$> tbl_alerts db)).

End Alerts.

(** ** The server actions ([app/watchlist/actions.ts], [app/alerts/actions.ts]) *)

Module Actions.

Definition toggleWatchlistAction (db : DB) (now : Z) (traderId : Z)
  (isWatched : bool) : DB * Result unit :=
  if isWatched then Traders.removeFromWatchlist db traderId
  else
    match Traders.addToWatchlist db now traderId with
    | (db', Ok _) => (db', Ok ())
    | (db', Err e) => (db', Err e)
    end.

Definition acknowledgeAlertAction (db : DB) (alertId : Z) : DB * Result unit :=
  Alerts.acknowledgeAlert db alertId.

(** The mutations the layer exposes. *)
Inductive action :=
  | ToggleWatchlist (now : Z) (traderId : Z) (isWatched : bool)
  | AcknowledgeAlert (alertId : Z).

Definition step (db : DB) (a : action) : DB :=
  match a with
  | ToggleWatchlist now traderId isWatched =>
      (toggleWatchlistAction db now traderId isWatched).1
  | AcknowledgeAlert alertId => (acknowledgeAlertAction db alertId).1
  end.

Definition run (db : DB) (acts : list action) : DB := foldl step db acts.

End Actions.

(** ** [queries/whales.ts] *)

Module Whales.

Record GetWhaleTradesParams := {
  minSize : option Qc;
  side : option string;
  limit : option nat;
}.


Definition joined_row : Type := whaleTrades.row * option traders.row.

Definition conditions (p : GetWhaleTradesParams) : list (Sql.cond joined_row) :=
  let minSize := default 0%Qc (minSize p) in
  (if bool_decide (0 < minSize)%Qc
   then [λ r : joined_row, Sql.gte (whaleTrades.usdcSize r.1) minSize] else []) ++
  (match side p with
   | Some s => if JS.truthy s && negb (s =? "all")%string
               then [λ r : joined_row, Sql.eq (whaleTrades.side r.1) (JS.toUpperCase s)]
               else []
   | None => []
   end).

Definition where_clause (p : GetWhaleTradesParams) : option (Sql.cond joined_row) :=
  match conditions p with
  | [] => None
  | cs => Some (Sql.and_ cs)
  end.




Definition getWhaleTradesByTrader (fd : Feeds) (traderId : Z) (limit : nat) :
  list whaleTrades.row :=
  Sql.limit limit
    (Sql.order_by (Sql.desc Z.le whaleTrades.tradeTimestamp)
       (Sql.where_ (Some (λ wt, Sql.eq (whaleTrades.traderId wt) traderId))
          (tbl_whale_trades fd))).

(** *** First-time trades *)

Record GetFirstTimeTradesParams := {
  ft_categories : option (list string);
  ft_minSize : option Qc;
  ft_limit : option nat;
}.

Definition ALLOWED_CATEGORIES : list string :=
  [ "Politics"; "Sports"; "Crypto"; "Culture";
    "Weather"; "Economics"; "Tech"; "Finance" ].

(** [WITH first_trades AS (SELECT trader_id, MIN(trade_timestamp) ...
    GROUP BY trader_id)]: one row per trader id value, the NULL id being a
    group of its own. *)
Definition first_trades (fd : Feeds) : list (option Z * option Z) :=
  (λ g, (g, Sql.min_int
              (whaleTrades.tradeTimestamp <$>
                 filter (λ wt, whaleTrades.traderId wt = g) (tbl_whale_trades fd)))) <$>
    Sql.distinct (whaleTrades.traderId <$> tbl_whale_trades fd).

Definition first_row : Type :=
  whaleTrades.row * (option Z * option Z) * option traders.row * option markets.row.

Definition first_wt (r : first_row) : whaleTrades.row := r.1.1.1.

Definition first_joined (db : DB) (fd : Feeds) : list first_row :=
  Pairs.left_join
    (λ r m, Sql.and3 (Sql.eq (whaleTrades.conditionId r.1.1) (markets.platformId m))
                     (Sql.eq (Some (markets.platform m)) "polymarket"))
    (Pairs.left_join
       (λ r t, Sql.eq (whaleTrades.traderId r.1) (traders.id t))
       (Sql.inner_join
          (λ wt ft, Sql.and3 (Sql.eq_col (whaleTrades.traderId wt) ft.1)
                             (Sql.eq_col (whaleTrades.tradeTimestamp wt) ft.2))
          (tbl_whale_trades fd) (first_trades fd))
       (tbl_traders db))
    (tbl_markets db).

Definition first_cond (minSize : Qc) (cats : list string) : Sql.cond first_row :=
  Sql.and_ [ (λ r, Sql.gte (whaleTrades.usdcSize (first_wt r)) minSize);
             (λ r, Sql.in_list (r.2 ≫= markets.category) cats) ].

Record FirstTimeRow := {
  ft_trade : whaleTrades.row;
  ft_user_name : option string;
  ft_profile_image : option string;
  ft_verified_badge : option Z;
  ft_first_seen : option string;
  ft_category : option string;
  ft_market_name : option string;
}.

Definition first_select (r : first_row) : FirstTimeRow :=
  {| ft_trade := first_wt r;
     ft_user_name := r.1.2 ≫= traders.userName;
     ft_profile_image := r.1.2 ≫= traders.profileImage;
     ft_verified_badge := r.1.2 ≫= traders.verifiedBadge;
     ft_first_seen := r.1.2 ≫= traders.firstSeen;
     ft_category := r.2 ≫= markets.category;
     ft_market_name := markets.title <$> r.2 |}.

Definition getFirstTimeTrades (db : DB) (fd : Feeds)
  (p : GetFirstTimeTradesParams) : list FirstTimeRow :=
  let categories := default ["Politics"; "Tech"; "Finance"] (ft_categories p) in
  let minSize := default (Q2Qc 5000) (ft_minSize p) in
  let limit := default 100%nat (ft_limit p) in
  let safeCats := filter (λ c, c ∈ ALLOWED_CATEGORIES) categories in
  match safeCats with
  | [] => []
  | _ =>
      first_select <$>
        Sql.limit limit
          (Sql.order_by
             (Sql.desc Z.le (λ r : first_row, whaleTrades.tradeTimestamp (first_wt r)))
             (Sql.where_ (Some (first_cond minSize safeCats)) (first_joined db fd)))
  end.

End Whales.

(** ** Agent logs and the dashboard *)

Module Agents.

(** The filter with a [Set] of the names seen so far: keeps the first row
    of every name. *)
Fixpoint first_per_name {A} (name : A → string) (seen : gset string)
  (rows : list A) : list A :=
  match rows with
  | [] => []
  | r :: rest =>
      if decide (name r ∈ seen) then first_per_name name seen rest
      else r :: first_per_name name ({[name r]} ∪ seen) rest
  end.

Definition id_order : relation agentLogs.row :=
  Sql.desc Z.le (λ r, Some (agentLogs.id r)).

(** The [recent] rows of [getLatestRunPerAgent]. *)
Definition recent (fd : Feeds) (n : nat) : list agentLogs.row :=
  Sql.limit n (Sql.order_by id_order (tbl_agent_logs fd)).

Definition getLatestRunPerAgent (fd : Feeds) : list agentLogs.row :=
  first_per_name agentLogs.agentName ∅ (recent fd 50).

Definition getLatestAgentRun (fd : Feeds) (agentName : string) :
  option agentLogs.row :=
  head (Sql.limit 1
          (Sql.order_by (Sql.desc Sql.text_le agentLogs.startedAt)
             (Sql.where_ (Some (λ r, Sql.eq (Some (agentLogs.agentName r)) agentName))
                (tbl_agent_logs fd)))).

End Agents.

Module Dashboard.

Record AgentRun := {
  agentName : string;
  status : string;
  completedAt : option string;
  summary : option string;
}.

Record DashboardStats := {
  totalMarkets : Z;
  activeMarkets : Z;
  totalTraders : Z;
  unacknowledgedAlerts : Z;
  totalWhaleTrades : Z;
  latestInsight : option (string * option string);
  recentAgentRuns : list AgentRun;
}.

Definition run_select (r : agentLogs.row) : AgentRun :=
  {| agentName := agentLogs.agentName r; status := agentLogs.status r;
     completedAt := agentLogs.completedAt r; summary := agentLogs.summary r |}.

Definition getDashboardStats (db : DB) (fd : Feeds) : DashboardStats :=
  {| totalMarkets := Sql.count (tbl_markets db);
     activeMarkets :=
       Sql.count (Sql.where_ (Some (λ m, Sql.eq (markets.status m) "active"))
                    (tbl_markets db));
     totalTraders := Sql.count (tbl_traders db);
     unacknowledgedAlerts :=
       Sql.count (Sql.where_ (Some (λ a, Sql.eq (alerts.acknowledged a) 0))
                    (tbl_alerts db));
     totalWhaleTrades := Sql.count (tbl_whale_trades fd);
     latestInsight :=
       head ((λ i, (insights.title i, insights.createdAt i)) <$>
               Sql.limit 1
                 (Sql.order_by (Sql.desc Z.le (λ i, Some (insights.id i)))
                    (tbl_insights fd)));
     recentAgentRuns :=
       Agents.first_per_name agentName ∅ (run_select <$> Agents.recent fd 10) |}.

End Dashboard.

(** ** [components/shared/pagination.tsx] and the markets table *)

Module PaginationView.

(** What the component shows: the two ends of "Showing a–b of n" and, for
    each button, whether it is disabled and the page it navigates to. *)
Record view := {
  start : Z;
  end_ : Z;
  prev_disabled : bool;
  prev_page : Z;
  next_disabled : bool;
  next_page : Z;
}.

Definition Pagination (page totalPages total pageSize : Z) : option view :=
  if totalPages <=? 1 then None
  else Some {| start := (page - 1) * pageSize + 1;
               end_ := Z.min (page * pageSize) total;
               prev_disabled := page <=? 1;
               prev_page := page - 1;
               next_disabled := totalPages <=? page;
               next_page := page + 1 |}.

(** The footer of [MarketsTable]: nothing under the empty state. *)
Definition MarketsTable_footer (db : DB) (p : Markets.GetMarketsParams) :
  Result (option view) :=
  env ← Markets.getMarkets db p;
  match Markets.data env with
  | [] => Ok None
  | _ => Ok (Pagination (Markets.env_page env) (Markets.totalPages env)
               (Markets.total env) (Markets.pageSize env))
  end.

End PaginationView.

(** ** URL parameters ([components/shared/filter-bar.tsx],
       [app/charts/time-range-selector.tsx]) *)

Module UrlParams.

(** [URLSearchParams]: an ordered list of name-value pairs. *)
Definition t : Type := list (string * string).

(** [get]: the first value under the name. *)
Fixpoint get (name : string) (ps : t) : option string :=
  match ps with
  | [] => None
  | (k, v) :: rest => if (k =? name)%string then Some v else get name rest
  end.

(** [delete]: drops every pair under the name. *)
Definition delete (name : string) (ps : t) : t :=
  filter (λ kv, kv.1 ≠ name) ps.

(** [set]: overwrites the first pair under the name and drops the others,
    or appends a pair. *)
Fixpoint set (name value : string) (ps : t) : t :=
  match ps with
  | [] => [(name, value)]
  | (k, v) :: rest =>
      if (k =? name)%string then (name, value) :: delete name rest
      else (k, v) :: set name value rest
  end.

(** [searchParams.get(key) || fallback] *)
Definition get_or (name fallback : string) (ps : t) : string :=
  match get name ps with
  | Some v => if JS.truthy v then v else fallback
  | None => fallback
  end.

(** [FilterSelect]: [handleChange] *)
Definition FilterSelect_handleChange (paramKey defaultValue value : string)
  (ps : t) : t :=
  delete "page"
    (if (value =? defaultValue)%string then delete paramKey ps
     else set paramKey value ps).

Definition FilterSelect_current (paramKey defaultValue : string) (ps : t) : string :=
  get_or paramKey defaultValue ps.

(** [SearchInput]: [handleSearch] *)
Definition SearchInput_handleSearch (paramKey newValue : string) (ps : t) : t :=
  delete "page"
    (if JS.truthy newValue then set paramKey newValue ps else delete paramKey ps).

(** [TimeRangeSelector]: [handleClick] *)
Definition TIME_RANGES : list string := ["24h"; "7d"; "30d"; "all"].

Definition TimeRangeSelector_handleClick (value : string) (ps : t) : t :=
  if (value =? "7d")%string then delete "range" ps else set "range" value ps.

(** The charts page: [params.range || "7d"], handed to the query. *)
Definition ChartContent_range (ps : t) : string := get_or "range" "7d" ps.

Definition ChartContent_history (db : DB) (now : Z) (marketId : Z) (ps : t) :
  Result (list priceSnapshots.row) :=
  PriceSnapshots.getPriceHistoryWithRange db now marketId
    (Some (ChartContent_range ps)) 500.

End UrlParams.

(** ** Vocabulary of the statements *)

Module Constants.
(** [CATEGORIES] in [lib/constants.ts] *)
Definition CATEGORIES : list string :=
  [ "All"; "Politics"; "Sports"; "Crypto"; "Culture"; "Weather";
    "Economics"; "Tech"; "Finance" ].

(** The status values of the data model. *)
Definition STATUSES : list string := [ "active"; "resolved"; "closed" ].

(** The sort keys [getMarkets] recognizes. *)
Definition SORT_KEYS : list string :=
  [ "volume_desc"; "volume_asc"; "yes_price_desc"; "yes_price_asc";
    "title_asc"; "title_desc" ].

(** The ranges [getPriceHistoryWithRange] recognizes. *)
Definition RANGE_KEYS : list string := ["24h"; "7d"; "30d"].
End Constants.

Module Reading.

(** Case-insensitive substring: [search] occurs in [title] once both are
    lower-cased. *)
Definition contains_ci (title search : string) : Prop :=
  JS.includes (JS.toLowerCase title) (JS.toLowerCase search) = true.

Global Instance contains_ci_dec title search : Decision (contains_ci title search).
Proof. unfold contains_ci. apply _. Defined.

(** An equality filter on a column: a parameter that is absent or is one
    of the [skip] values constrains nothing. *)
Definition allows (skip : list string) (param : option string)
  (col : option string) : Prop :=
  match param with
  | None => True
  | Some v => v ∈ skip ∨ col = Some v
  end.

Global Instance allows_dec skip param col : Decision (allows skip param col).
Proof. destruct param; simpl; apply _. Defined.

(** Text of ASCII characters only. *)
Definition is_ascii (s : string) : Prop :=
  Forall (λ c, (N_of_ascii c < 128)%N) (list_ascii_of_string s).

Global Instance is_ascii_dec s : Decision (is_ascii s).
Proof. unfold is_ascii. apply _. Defined.

(** An installation whose engine lower-cases ASCII text letter by letter,
    as all locales but the Turkic ones do. *)
Definition folds_ascii (db : DB) : Prop :=
  ∀ s, is_ascii s → engine_lower (installation db) s = JS.toLowerCase s.

(** The title filter as [getMarkets] evaluates it. *)
Definition search_like (db : DB) (param : option string) (title : string) : Prop :=
  match param with
  | None => True
  | Some s => s = "" ∨
              Sql.holds (Sql.ilike (engine_lower (installation db))
                           (Some title) ("%" ++ s ++ "%"))
  end.

(** The title filter read as substring search. *)
Definition search_substring (param : option string) (title : string) : Prop :=
  match param with
  | None => True
  | Some s => contains_ci title s
  end.

Global Instance search_like_dec db param title :
  Decision (search_like db param title).
Proof. destruct param; simpl; apply _. Defined.
Global Instance search_substring_dec param title :
  Decision (search_substring param title).
Proof. destruct param; simpl; apply _. Defined.

(** The rows [getMarkets] selects. *)
Definition selects (db : DB) (p : Markets.GetMarketsParams) (m : markets.row) : Prop :=
  allows [""; "all"] (Some (default "active" (Markets.status p))) (markets.status m) ∧
  allows [""; "all"] (Markets.platform p) (Some (markets.platform m)) ∧
  allows [""; "All"; "all"] (Markets.category p) (markets.category m) ∧
  search_like db (Markets.search p) (markets.title m).

(** The rows selected when only absent and ["all"] values are skipped and
    the search is a substring search. *)
Definition selects_as_stated (p : Markets.GetMarketsParams) (m : markets.row) : Prop :=
  allows ["all"] (Some (default "active" (Markets.status p))) (markets.status m) ∧
  allows ["all"] (Markets.platform p) (Some (markets.platform m)) ∧
  allows ["all"] (Markets.category p) (markets.category m) ∧
  search_substring (Markets.search p) (markets.title m).

(** A market that appears in a pair whose absolute price gap is at
    least 0.03. *)
Definition in_high_gap_pair (db : DB) (m : markets.row) : Prop :=
  m ∈ tbl_markets db ∧
  ∃ mp, mp ∈ tbl_market_pairs db ∧
        (marketPairs.polymarketMarketId mp = Some (markets.id m) ∨
         marketPairs.kalshiMarketId mp = Some (markets.id m)) ∧
        ∃ g, marketPairs.priceGap mp = Some g ∧
             (SmartFilters.lit_0_03 ≤ Qcabs g)%Qc.

(** An active market whose yes-price lies in [0.45, 0.55]. *)
Definition near_5050 (m : markets.row) : Prop :=
  markets.status m = Some "active" ∧
  ∃ y, markets.yesPrice m = Some y ∧
       (SmartFilters.lit_0_45 ≤ y)%Qc ∧ (y ≤ SmartFilters.lit_0_55)%Qc.


(** Every table but the watchlist is the same in both stores. *)
Definition same_but_watchlist (db db' : DB) : Prop :=
  tbl_markets db' = tbl_markets db ∧
  tbl_market_pairs db' = tbl_market_pairs db ∧
  tbl_price_snapshots db' = tbl_price_snapshots db ∧
  tbl_alerts db' = tbl_alerts db ∧
  tbl_traders db' = tbl_traders db ∧
  tbl_trader_positions db' = tbl_trader_positions db.

(** What the schema promises about the watchlist: one row per trader, row
    ids drawn from the sequence, and every row referring to a trader. *)
Definition watchlist_wf (db : DB) : Prop :=
  NoDup (traderWatchlist.traderId <$> tbl_trader_watchlist db) ∧
  NoDup (traderWatchlist.id <$> tbl_trader_watchlist db) ∧
  (∀ r, r ∈ tbl_trader_watchlist db → traderWatchlist.id r < seq_trader_watchlist db) ∧
  (∀ r, r ∈ tbl_trader_watchlist db →
        traderWatchlist.traderId r ∈ traders.id <$> tbl_traders db).

(** The page number a call asks for, as a number. *)
Definition page_of (p : Markets.GetMarketsParams) : Z :=
  JS.Number (default 1 (Markets.page p)).


Global Instance selects_dec db p m : Decision (selects db p m).
Proof. unfold selects. apply _. Defined.

(** No two of the rows tie: whichever of two precedes the other, they are
    one row.  The sorted arrangement of such rows is unique. *)
Definition no_ties {A} (R : relation A) (rows : list A) : Prop :=
  ∀ x y, x ∈ rows → y ∈ rows → R x y → R y x → x = y.

(** What the engine may return for ORDER BY: any sorted arrangement. *)
Definition sorted_arrangement {A} (R : relation A) (rows out : list A) : Prop :=
  out ≡ₚ rows ∧ StronglySorted R out.

Global Instance no_ties_dec `{EqDecision A} (R : relation A) `{!RelDecision R}
  (rows : list A) : Decision (no_ties R rows).
Proof.
  refine (cast_if (decide (Forall (λ x, Forall (λ y, R x y → R y x → x = y) rows) rows))).
  - intros x y Hx Hy. rewrite Forall_forall in f.
    specialize (f x Hx). rewrite Forall_forall in f. by apply f.
  - intros H. apply n. apply Forall_forall. intros x Hx.
    apply Forall_forall. intros y Hy. by apply H.
Defined.

Global Instance sorted_arrangement_dec `{EqDecision A} (R : relation A)
  `{!RelDecision R} (rows out : list A) : Decision (sorted_arrangement R rows out).
Proof. unfold sorted_arrangement. apply _. Defined.

(** The driver's text for a condition is one the [catch] of
    [addToWatchlist] takes for a duplicate. *)
Definition reads_as_duplicate (db : DB) (c : EngineError) : bool :=
  let msg := JS.toLowerCase (driver_String (installation db) c) in
  JS.includes msg "unique" || JS.includes msg "duplicate".

(** The condition the engine reports for an integer that does not fit its
    place. *)
Definition out_of_range (n : Z) : EngineError :=
  if decide (10 ^ 21 ≤ Z.abs n) then InvalidTextRepresentation
  else NumericValueOutOfRange.

(** The store after an insert that failed inside the engine: the rows are
    as before, one value of the sequence is spent. *)
Definition spent (db : DB) : DB :=
  Traders.set_watchlist db (tbl_trader_watchlist db) (seq_trader_watchlist db + 1).
Global Instance selects_as_stated_dec p m : Decision (selects_as_stated p m).
Proof. unfold selects_as_stated. apply _. Defined.

End Reading.

(** ** Sample data *)

Module Sample.

Definition market (i : Z) (pl t : string) (c s : option string)
  (y v : option Qc) : markets.row :=
  {| markets.id := i; markets.platform := pl; markets.platformId := t;
     markets.title := t; markets.description := Some "";
     markets.category := c; markets.subcategory := Some "";
     markets.status := s; markets.yesPrice := y; markets.noPrice := None;
     markets.volume := v; markets.liquidity := None;
     markets.closeTime := None; markets.url := Some "";
     markets.lastUpdated := None; markets.rawData := None |}.

(** Three installations.  In the first the engine folds the letters A to
    Z only (the C locale) and the error that reaches the caller carries the
    engine's message.  In the second the query builder wraps the error and
    its text shows the failed statement instead (written here without the
    quotes around identifiers and without the line of parameters, a number
    and a time stamp).  In the third the engine
    also folds the accented capitals of Latin-1 (two-byte characters that
    start with byte 195). *)
Definition engine_message (c : EngineError) : string :=
  match c with
  | UniqueViolation => "error: duplicate key value violates unique constraint"
  | ForeignKeyViolation => "error: insert or update on table violates foreign key constraint"
  | NumericValueOutOfRange => "error: value is out of range for type integer"
  | InvalidTextRepresentation => "error: invalid input syntax for type integer"
  | InvalidOffset => "error: OFFSET must not be negative"
  end.

Definition failed_query (c : EngineError) : string :=
  "Error: Failed query: insert into trader_watchlist (id, trader_id, notes, created_at) values (default, $1, default, $2)".

Definition plain_driver : Installation :=
  {| engine_lower := JS.toLowerCase; driver_String := engine_message |}.

Definition wrapping_driver : Installation :=
  {| engine_lower := JS.toLowerCase; driver_String := failed_query |}.

Fixpoint lower_latin1 (l : list ascii) : list ascii :=
  match l with
  | [] => []
  | c :: l' =>
      if (N_of_ascii c =? 195)%N then
        match l' with
        | d :: l'' =>
            c :: (if ((128 <=? N_of_ascii d) && (N_of_ascii d <=? 158)
                      && negb (N_of_ascii d =? 151))%N
                  then ascii_of_N (N_of_ascii d + 32) else d) :: lower_latin1 l''
        | [] => [c]
        end
      else JS.lower_ascii c :: lower_latin1 l'
  end.

Definition latin1_locale : Installation :=
  {| engine_lower := λ s, string_of_list_ascii (lower_latin1 (list_ascii_of_string s));
     driver_String := engine_message |}.

Definition with_installation (db : DB) (i : Installation) : DB :=
  {| tbl_markets := tbl_markets db;
     tbl_market_pairs := tbl_market_pairs db;
     tbl_price_snapshots := tbl_price_snapshots db;
     tbl_alerts := tbl_alerts db;
     tbl_traders := tbl_traders db;
     tbl_trader_positions := tbl_trader_positions db;
     tbl_trader_watchlist := tbl_trader_watchlist db;
     seq_trader_watchlist := seq_trader_watchlist db;
     installation := i |}.

Definition empty_db : DB :=
  {| tbl_markets := []; tbl_market_pairs := []; tbl_price_snapshots := [];
     tbl_alerts := []; tbl_traders := []; tbl_trader_positions := [];
     tbl_trader_watchlist := []; seq_trader_watchlist := 1;
     installation := plain_driver |}.

Definition with_markets (ms : list markets.row) : DB :=
  {| tbl_markets := ms; tbl_market_pairs := []; tbl_price_snapshots := [];
     tbl_alerts := []; tbl_traders := []; tbl_trader_positions := [];
     tbl_trader_watchlist := []; seq_trader_watchlist := 1;
     installation := plain_driver |}.

Definition m_election : markets.row :=
  market 1 "kalshi" "Election winner" (Some "Politics") (Some "active")
    (Some (Q2Qc (1 # 2))) (Some (Q2Qc 900)).
Definition m_bitcoin : markets.row :=
  market 2 "polymarket" "Bitcoin above 100k" (Some "Crypto") (Some "active")
    (Some (Q2Qc (45 # 100))) (Some (Q2Qc 1500)).
Definition m_final : markets.row :=
  market 3 "kalshi" "Cup final" (Some "Sports") (Some "resolved")
    (Some (Q2Qc 1)) None.

Definition db_markets : DB := with_markets [m_election; m_bitcoin; m_final].

Definition pair (i : Z) (kalshi poly : option Z) (gap : option Qc) :
  marketPairs.row :=
  {| marketPairs.id := i; marketPairs.kalshiMarketId := kalshi;
     marketPairs.polymarketMarketId := poly;
     marketPairs.matchConfidence := Some (Q2Qc (9 # 10));
     marketPairs.matchReason := Some "";
     marketPairs.priceGap := gap;
     marketPairs.createdAt := Some ""; marketPairs.lastChecked := None |}.

(** The resolved cup final is paired with the bitcoin market, seven
    points apart; a second pair has no recorded gap. *)
Definition p_wide : marketPairs.row :=
  pair 1 (Some 3) (Some 2) (Some (Q2Qc (7 # 100))).
Definition p_unknown : marketPairs.row := pair 2 (Some 1) (Some 2) None.

Definition db_pairs : DB :=
  {| tbl_markets := [m_election; m_bitcoin; m_final];
     tbl_market_pairs := [p_wide; p_unknown];
     tbl_price_snapshots := []; tbl_alerts := []; tbl_traders := [];
     tbl_trader_positions := []; tbl_trader_watchlist := [];
     seq_trader_watchlist := 1; installation := plain_driver |}.

Definition trader (i : Z) (wallet : string) : traders.row :=
  {| traders.id := i; traders.proxyWallet := wallet;
     traders.userName := Some ""; traders.profileImage := Some "";
     traders.xUsername := Some ""; traders.verifiedBadge := Some 0;
     traders.totalPnl := None; traders.totalVolume := None;
     traders.portfolioValue := None; traders.firstSeen := Some "";
     traders.lastUpdated := Some "" |}.

Definition position (i : Z) (trader : option Z) (value : option Qc)
  (time : option string) : traderPositions.row :=
  {| traderPositions.id := i; traderPositions.traderId := trader;
     traderPositions.proxyWallet := "0xabc";
     traderPositions.conditionId := Some "";
     traderPositions.marketTitle := Some "";
     traderPositions.outcome := Some ""; traderPositions.size := None;
     traderPositions.avgPrice := None; traderPositions.initialValue := None;
     traderPositions.currentValue := value; traderPositions.cashPnl := None;
     traderPositions.percentPnl := None; traderPositions.realizedPnl := None;
     traderPositions.curPrice := None; traderPositions.redeemable := Some 0;
     traderPositions.eventSlug := Some "";
     traderPositions.snapshotTime := time |}.

Definition alert (i : Z) (ack : option Z) : alerts.row :=
  {| alerts.id := i; alerts.alertType := "price_move";
     alerts.severity := Some "info"; alerts.marketId := None;
     alerts.pairId := None; alerts.title := "Price moved";
     alerts.message := Some ""; alerts.data := None;
     alerts.acknowledged := ack; alerts.triggeredAt := Some "" |}.

Definition watch (i trader : Z) : traderWatchlist.row :=
  {| traderWatchlist.id := i; traderWatchlist.traderId := trader;
     traderWatchlist.notes := Some "";
     traderWatchlist.createdAt := Some "2024-01-01T00:00:00.000Z" |}.

(** Trader 7 has two snapshots, the later one with two positions; the
    only position of trader 8 carries the column default, the empty
    string.  Trader 7 is watched; alert 1 is not acknowledged. *)
Definition pos_old : traderPositions.row :=
  position 1 (Some 7) (Some (Q2Qc 10)) (Some "2024-01-01T00:00:00.000Z").
Definition pos_new_small : traderPositions.row :=
  position 2 (Some 7) (Some (Q2Qc 5)) (Some "2024-01-02T00:00:00.000Z").
Definition pos_new_large : traderPositions.row :=
  position 3 (Some 7) (Some (Q2Qc 20)) (Some "2024-01-02T00:00:00.000Z").
Definition pos_untimed : traderPositions.row :=
  position 4 (Some 8) (Some (Q2Qc 1)) (Some "").

Definition db_traders : DB :=
  {| tbl_markets := []; tbl_market_pairs := []; tbl_price_snapshots := [];
     tbl_alerts := [alert 1 (Some 0); alert 2 (Some 1)];
     tbl_traders := [trader 7 "0xabc"; trader 8 "0xdef"];
     tbl_trader_positions := [pos_old; pos_new_small; pos_new_large; pos_untimed];
     tbl_trader_watchlist := [watch 1 7];
     seq_trader_watchlist := 2; installation := plain_driver |}.

(** The same store behind a query builder that wraps the driver's errors. *)
Definition db_traders_wrapped : DB := with_installation db_traders wrapping_driver.

(** A leaderboard: three traders with a profit, one of them without a
    volume, and one trader with neither. *)
Definition ranked_trader (i : Z) (wallet name : string) (pnl vol : option Qc) :
  traders.row :=
  {| traders.id := i; traders.proxyWallet := wallet;
     traders.userName := Some name; traders.profileImage := Some "";
     traders.xUsername := Some ""; traders.verifiedBadge := Some 0;
     traders.totalPnl := pnl; traders.totalVolume := vol;
     traders.portfolioValue := None; traders.firstSeen := Some "";
     traders.lastUpdated := Some "" |}.

Definition db_leaderboard : DB :=
  {| tbl_markets := []; tbl_market_pairs := []; tbl_price_snapshots := [];
     tbl_alerts := [];
     tbl_traders :=
       [ ranked_trader 1 "0x01" "Ada" (Some (Q2Qc 300)) (Some (Q2Qc 10));
         ranked_trader 2 "0x02" "Bob" None None;
         ranked_trader 3 "0x03" "Cy" (Some (Q2Qc 900)) None;
         ranked_trader 4 "0x04" "Dee" (Some (Q2Qc (-50))) (Some (Q2Qc 70)) ];
     tbl_trader_positions := []; tbl_trader_watchlist := [];
     seq_trader_watchlist := 1; installation := plain_driver |}.

(** A table of 120 active markets, enough for three pages. *)
Definition db_many : DB :=
  with_markets
    ((λ i : nat, market (Z.of_nat i) "kalshi"
                   ("Rain on day " ++ JSDate.digits 3 (Z.of_nat i)) (Some "Weather")
                   (Some "active") None (Some (Q2Qc (inject_Z (Z.of_nat i))))) <$>
       seq 1 120).

(** Stand-in for the three heuristics the dispatcher takes as given. *)
Definition no_rows : DB → nat → list markets.row := λ _ _, [].

Definition params (platform status category search sort : option string)
  (page : option Z) : Markets.GetMarketsParams :=
  {| Markets.platform := platform; Markets.status := status;
     Markets.category := category; Markets.search := search;
     Markets.sort := sort; Markets.page := page |}.

(** Three whale trades on the bitcoin market: two by trader 7, one by
    trader 8. *)
Definition whale_trade (i : Z) (trader : option Z) (sd : string) (usdc : Qc)
  (ts : Z) : whaleTrades.row :=
  {| whaleTrades.id := i; whaleTrades.traderId := trader;
     whaleTrades.proxyWallet := "0xabc";
     whaleTrades.conditionId := Some "Bitcoin above 100k";
     whaleTrades.marketTitle := Some ""; whaleTrades.side := Some sd;
     whaleTrades.size := None; whaleTrades.price := None;
     whaleTrades.usdcSize := Some usdc; whaleTrades.outcome := Some "";
     whaleTrades.outcomeIndex := None; whaleTrades.transactionHash := Some "";
     whaleTrades.tradeTimestamp := Some ts; whaleTrades.eventSlug := Some "";
     whaleTrades.createdAt := Some "" |}.

Definition feeds : Feeds :=
  {| tbl_whale_trades :=
       [ whale_trade 1 (Some 7) "BUY" (Q2Qc 6000) 100;
         whale_trade 2 (Some 7) "SELL" (Q2Qc 9000) 200;
         whale_trade 3 (Some 8) "BUY" (Q2Qc 500) 150 ];
     tbl_insights := []; tbl_agent_logs := [] |}.

Definition db_whales : DB :=
  {| tbl_markets := [m_election; m_bitcoin; m_final];
     tbl_market_pairs := []; tbl_price_snapshots := []; tbl_alerts := [];
     tbl_traders := [trader 7 "0xabc"; trader 8 "0xdef"];
     tbl_trader_positions := []; tbl_trader_watchlist := [];
     seq_trader_watchlist := 1; installation := plain_driver |}.

(** Price snapshots of market 2, one of them without a time stamp, and
    one of market 3. *)
Definition snapshot (i market : Z) (time : option string) : priceSnapshots.row :=
  {| priceSnapshots.id := i; priceSnapshots.marketId := market;
     priceSnapshots.yesPrice := None; priceSnapshots.noPrice := None;
     priceSnapshots.volume := None; priceSnapshots.openInterest := None;
     priceSnapshots.bestBid := None; priceSnapshots.bestAsk := None;
     priceSnapshots.spread := None; priceSnapshots.timestamp := time |}.

Definition db_snapshots : DB :=
  {| tbl_markets := [m_election; m_bitcoin; m_final];
     tbl_market_pairs := [];
     tbl_price_snapshots :=
       [ snapshot 1 2 (Some "2025-01-01T00:00:00.000Z");
         snapshot 2 2 (Some "2025-03-01T00:00:00.000Z");
         snapshot 3 3 (Some "2025-02-01T00:00:00.000Z");
         snapshot 4 2 None ];
     tbl_alerts := []; tbl_traders := []; tbl_trader_positions := [];
     tbl_trader_watchlist := []; seq_trader_watchlist := 1;
     installation := plain_driver |}.

(** Runs of two agents; the run of the collector with the highest id
    started first. *)
Definition agent_log (i : Z) (name : string) (started : option string) :
  agentLogs.row :=
  {| agentLogs.id := i; agentLogs.agentName := name; agentLogs.status := "ok";
     agentLogs.startedAt := started; agentLogs.completedAt := None;
     agentLogs.durationSeconds := None; agentLogs.itemsProcessed := Some 0;
     agentLogs.summary := Some ""; agentLogs.error := None |}.

Definition feeds_agents : Feeds :=
  {| tbl_whale_trades := []; tbl_insights := [];
     tbl_agent_logs :=
       [ agent_log 1 "collector" (Some "2025-03-02T00:00:00.000Z");
         agent_log 2 "analyst" (Some "2025-03-01T00:00:00.000Z");
         agent_log 3 "collector" (Some "2025-03-01T00:00:00.000Z") ] |}.

End Sample.

(** * Properties *)

(** Closed decidable facts are settled by evaluation. *)
Ltac by_compute := apply (bool_decide_unpack _); vm_compute; exact I.

(** ** Results *)

Lemma bind_Ok {A B} (r : Result A) (k : A → Result B) b :
  (r ≫= k) = Ok b ↔ ∃ a, r = Ok a ∧ k a = Ok b.
Proof.
  destruct r as [a|e]; simpl; split.
  - intros H. by exists a.
  - by intros (a' & [= <-] & H).
  - discriminate.
  - by intros (a' & ? & _).
Qed.

(** ** Orders *)

Section text_order.

Lemma ascii_compare_refl c : Ascii.compare c c = Eq.
Proof. apply N.compare_refl. Qed.

Lemma string_compare_refl s : String.compare s s = Eq.
Proof. induction s as [|c s IH]; simpl; [done|]. by rewrite ascii_compare_refl. Qed.

Lemma text_le_cons c1 s1 c2 s2 :
  Sql.text_le (String c1 s1) (String c2 s2) ↔
  (N_of_ascii c1 < N_of_ascii c2)%N ∨ (c1 = c2 ∧ Sql.text_le s1 s2).
Proof.
  unfold Sql.text_le, String.leb. simpl. unfold Ascii.compare.
  destruct (N.compare_spec (N_of_ascii c1) (N_of_ascii c2)) as [He|Hl|Hg].
  - assert (c1 = c2) as ->.
    { rewrite <-(ascii_N_embedding c1), <-(ascii_N_embedding c2). by rewrite He. }
    split; [auto|]. intros [?|[_ ?]]; [lia|done].
  - split; [auto|done].
  - split; [done|]. intros [?|[-> _]]; lia.
Qed.

Global Instance text_le_refl : Reflexive Sql.text_le.
Proof. intros s. unfold Sql.text_le, String.leb. by rewrite string_compare_refl. Qed.

Global Instance text_le_trans : Transitive Sql.text_le.
Proof.
  intros a. induction a as [|x a IH]; intros b c Hab Hbc.
  - by destruct c.
  - destruct b as [|y b]; [done|]. destruct c as [|z c]; [done|].
    apply text_le_cons in Hab, Hbc. apply text_le_cons.
    destruct Hab as [?|[-> ?]], Hbc as [?|[-> ?]]; eauto with lia.
Qed.

Global Instance text_le_total : Total Sql.text_le.
Proof. intros a b. apply String.leb_total. Qed.

End text_order.

Section null_placement.
Context {A} (R : relation A).

Global Instance nulls_last_trans `{!Transitive R} : Transitive (Sql.nulls_last R).
Proof. intros [x|] [y|] [z|]; simpl; try done. apply transitivity. Qed.

Global Instance nulls_last_total `{!Total R} : Total (Sql.nulls_last R).
Proof. intros [x|] [y|]; simpl; auto. Qed.

Context {Row} (key : Row → option A).

Global Instance asc_trans `{!Transitive R} : Transitive (Sql.asc R key).
Proof. intros x y z. unfold Sql.asc. apply transitivity. Qed.
Global Instance asc_total `{!Total R} : Total (Sql.asc R key).
Proof. intros x y. unfold Sql.asc. apply total, _. Qed.

Global Instance desc_trans `{!Transitive R} : Transitive (Sql.desc R key).
Proof. intros x y z H1 H2. unfold Sql.desc in *. by etransitivity. Qed.
Global Instance desc_total `{!Total R} : Total (Sql.desc R key).
Proof. intros x y. unfold Sql.desc. apply total, _. Qed.

Global Instance desc_nulls_last_trans `{!Transitive R} :
  Transitive (Sql.desc_nulls_last R key).
Proof.
  intros x y z. unfold Sql.desc_nulls_last.
  destruct (key x), (key y), (key z); simpl; try done.
  unfold flip. intros ??. by etransitivity.
Qed.
Global Instance desc_nulls_last_total `{!Total R} :
  Total (Sql.desc_nulls_last R key).
Proof.
  intros x y. unfold Sql.desc_nulls_last.
  destruct (key x), (key y); simpl; auto.
Qed.
End null_placement.

Global Instance Qcle_trans' : Transitive Qcle.
Proof. intros x y z. apply Qcle_trans. Qed.

(** ** WHERE, ORDER BY, LIMIT *)

Section clauses.
Context {Row : Type}.
Implicit Types (rows : list Row) (r : Row).

Lemma and3_true a b : Sql.and3 a b = Some true ↔ a = Some true ∧ b = Some true.
Proof. destruct a as [[]|], b as [[]|]; simpl; intuition congruence. Qed.

(** A conjunction is TRUE exactly when every conjunct is. *)
Lemma and_holds (cs : list (Sql.cond Row)) r :
  Sql.holds (Sql.and_ cs r) ↔ Forall (λ c, Sql.holds (c r)) cs.
Proof.
  unfold Sql.holds, Sql.and_. induction cs as [|c cs IH]; simpl.
  - split; [constructor|done].
  - rewrite and3_true, IH, Forall_cons. done.
Qed.

Lemma elem_of_where w rows r :
  r ∈ Sql.where_ w rows ↔ Sql.keeps w r ∧ r ∈ rows.
Proof. apply list_elem_of_filter. Qed.

Lemma where_None rows : Sql.where_ (Row:=Row) None rows = rows.
Proof.
  unfold Sql.where_. induction rows as [|r rows IH]; [done|].
  rewrite filter_cons_True by done. by rewrite IH.
Qed.

Context (R : relation Row) `{!RelDecision R}.

Lemma order_by_perm rows : Sql.order_by R rows ≡ₚ rows.
Proof. apply merge_sort_Permutation. Qed.

Lemma elem_of_order_by rows r : r ∈ Sql.order_by R rows ↔ r ∈ rows.
Proof. by rewrite order_by_perm. Qed.

Lemma length_order_by rows : length (Sql.order_by R rows) = length rows.
Proof. by rewrite order_by_perm. Qed.

Lemma order_by_sorted `{!Transitive R, !Total R} rows :
  StronglySorted R (Sql.order_by R rows).
Proof. apply StronglySorted_merge_sort; apply _. Qed.

Lemma StronglySorted_take n rows :
  StronglySorted R rows → StronglySorted R (take n rows).
Proof.
  intros H. rewrite <-(take_drop n rows) in H.
  by apply StronglySorted_app_1_l in H.
Qed.

Lemma StronglySorted_drop n rows :
  StronglySorted R rows → StronglySorted R (drop n rows).
Proof.
  intros H. rewrite <-(take_drop n rows) in H.
  by apply StronglySorted_app_1_r in H.
Qed.

Lemma limit_sorted n rows :
  StronglySorted R rows → StronglySorted R (Sql.limit n rows).
Proof. apply StronglySorted_take. Qed.

Lemma length_limit n rows : (length (Sql.limit n rows) ≤ n)%nat.
Proof. unfold Sql.limit. rewrite length_take. lia. Qed.

Lemma elem_of_limit n rows r : r ∈ Sql.limit n rows → r ∈ rows.
Proof. apply subseteq_take. Qed.

Lemma limit_ge n rows : (length rows ≤ n)%nat → Sql.limit n rows = rows.
Proof. apply take_ge. Qed.

End clauses.

(** A bound integer passes when it fits its place; otherwise the engine
    reports which of the two ways it does not. *)
Lemma bind_int_spec lo hi n :
  - 10 ^ 21 < lo → hi < 10 ^ 21 →
  Sql.bind_int lo hi n =
    if decide (lo ≤ n ≤ hi) then Ok n
    else Err (DbError (Reading.out_of_range n)).
Proof.
  intros Hlo Hhi. unfold Sql.bind_int, Reading.out_of_range.
  destruct (Z.leb_spec (10 ^ 21) (Z.abs n)) as [Hbig|Hsmall].
  - rewrite decide_False by lia. by rewrite decide_True.
  - rewrite (decide_False (P := 10 ^ 21 ≤ Z.abs n)) by lia.
    destruct (Z.ltb_spec n lo), (Z.ltb_spec hi n); simpl;
      case_decide; try done; lia.
Qed.

Lemma bind_int4_Ok n : Sql.int4 n → Sql.bind_int4 n = Ok n.
Proof.
  intros Hn. unfold Sql.bind_int4. rewrite bind_int_spec by lia.
  by rewrite decide_True.
Qed.

Lemma bind_int4_Err n :
  ¬ Sql.int4 n → Sql.bind_int4 n = Err (DbError (Reading.out_of_range n)).
Proof.
  intros Hn. unfold Sql.bind_int4. rewrite bind_int_spec by lia.
  by rewrite decide_False.
Qed.

Section paging.
Context {Row : Type}.
Implicit Types (rows : list Row) (r : Row).

Lemma limit_offset_Ok n k rows out :
  Sql.limit_offset n k rows = Ok out ↔
  0 ≤ k ≤ 2 ^ 63 - 1 ∧ out = take n (drop (Z.to_nat k) rows).
Proof.
  unfold Sql.limit_offset, Sql.bind_int8. rewrite bind_int_spec by lia.
  case_decide as Hk; simpl.
  - destruct (Z.ltb_spec k 0).
    + split; [done|]. intros [? _]. lia.
    + split; [intros [= <-]; split; [lia|done]|]. by intros [_ ->].
  - split; [done|]. intros [? _]. lia.
Qed.

Lemma limit_offset_Err n k rows :
  k < 0 ∨ 2 ^ 63 - 1 < k → ∃ e, Sql.limit_offset n k rows = Err e.
Proof.
  intros Hk. destruct (Sql.limit_offset n k rows) as [out|e] eqn:Hl; [|eauto].
  apply limit_offset_Ok in Hl. lia.
Qed.

End paging.

(** ** [Math.ceil] of an integer quotient *)

Lemma Math_ceil_div_spec a b :
  0 < b → b * (Math_ceil_div a b - 1) < a ≤ b * Math_ceil_div a b.
Proof.
  intros Hb. unfold Math_ceil_div, Qceiling.
  assert ((- (inject_Z a / inject_Z b) == inject_Z (- a) / inject_Z b)%Q) as ->.
  { rewrite inject_Z_opp. unfold Qdiv. ring. }
  rewrite <-Zdiv_Qdiv.
  pose proof (Z.div_mod (- a) b ltac:(lia)).
  pose proof (Z.mod_pos_bound (- a) b Hb). nia.
Qed.

(** ** Strings: [includes] and LIKE patterns *)

Section strings.
Local Open Scope list_scope.
Implicit Types (s p sub lit : list ascii) (c : ascii).

Lemma list_ascii_of_string_app (a b : string) :
  list_ascii_of_string (a ++ b)%string =
  list_ascii_of_string a ++ list_ascii_of_string b.
Proof. induction a as [|c a IH]; simpl; [done|]. by rewrite IH. Qed.

Lemma starts_with_spec sub s :
  JS.starts_with sub s = true ↔ ∃ post, s = sub ++ post.
Proof.
  revert s. induction sub as [|a sub IH]; intros s; simpl.
  - split; [by exists s|done].
  - destruct s as [|b s].
    + split; [done|]. by intros (? & ?).
    + rewrite andb_true_iff, Ascii.eqb_eq, IH. split.
      * intros (-> & post & ->). by exists post.
      * intros (post & [= -> ->]). eauto.
Qed.

Lemma includes_list_spec s sub :
  JS.includes_list s sub = true ↔ ∃ pre post, s = pre ++ sub ++ post.
Proof.
  induction s as [|b s IH]; simpl.
  - rewrite orb_false_r, starts_with_spec. split.
    + intros (post & ->). by exists [], post.
    + intros (pre & post & H). symmetry in H.
      apply app_eq_nil in H as [-> H]. by exists post.
  - rewrite orb_true_iff, starts_with_spec, IH. split.
    + intros [(post & ->)|(pre & post & ->)].
      * by exists [], post.
      * by exists (b :: pre), post.
    + intros ([|x pre] & post & H); simpl in H.
      * left. by exists post.
      * injection H as -> ->. right. by exists pre, post.
Qed.

Lemma like_match_percent p s :
  Sql.like_match ("%"%char :: p) s = existsb (Sql.like_match p) (Sql.char_suffixes s).
Proof. reflexivity. Qed.

Lemma ascii_not_continuation c :
  (N_of_ascii c < 128)%N → Sql.is_continuation c = false.
Proof.
  intros Hc. unfold Sql.is_continuation.
  destruct (N.leb_spec 128 (N_of_ascii c)); [lia|done].
Qed.

Lemma nil_char_starts s : [] ∈ Sql.char_starts s.
Proof.
  induction s as [|c s IH]; simpl; [by left|].
  destruct (Sql.is_continuation c); [done|by right].
Qed.

Lemma nil_char_suffixes s : [] ∈ Sql.char_suffixes s.
Proof. destruct s as [|c s]; simpl; [by left|]. right. apply nil_char_starts. Qed.

(** In ASCII text every byte is a character. *)
Lemma elem_of_char_starts_ascii s post :
  Forall (λ c, (N_of_ascii c < 128)%N) s →
  post ∈ Sql.char_starts s ↔ ∃ pre, s = pre ++ post.
Proof.
  induction 1 as [|c s Hc _ IH]; simpl.
  - rewrite list_elem_of_singleton. split.
    + intros ->. by exists [].
    + intros (pre & H). symmetry in H. by apply app_eq_nil in H as [_ ->].
  - rewrite (ascii_not_continuation c Hc), elem_of_cons, IH. split.
    + intros [->|(pre & ->)]; [by exists []|by exists (c :: pre)].
    + intros ([|x pre] & H); simpl in H; [by left|].
      injection H as -> ->. right. by exists pre.
Qed.

Lemma elem_of_char_suffixes_ascii s post :
  Forall (λ c, (N_of_ascii c < 128)%N) s →
  post ∈ Sql.char_suffixes s ↔ ∃ pre, s = pre ++ post.
Proof.
  intros Hs. destruct Hs as [|c s Hc Hs]; simpl.
  - rewrite list_elem_of_singleton. split.
    + intros ->. by exists [].
    + intros (pre & H). symmetry in H. by apply app_eq_nil in H as [_ ->].
  - rewrite elem_of_cons, (elem_of_char_starts_ascii _ _ Hs). split.
    + intros [->|(pre & ->)]; [by exists []|by exists (c :: pre)].
    + intros ([|x pre] & H); simpl in H; [by left|].
      injection H as -> ->. right. by exists pre.
Qed.

Lemma like_percent p s :
  Forall (λ c, (N_of_ascii c < 128)%N) s →
  Sql.like_match ("%"%char :: p) s = true ↔
  ∃ pre post, s = pre ++ post ∧ Sql.like_match p post = true.
Proof.
  intros Hs. rewrite like_match_percent, existsb_exists. split.
  - intros (post & Hin & Hm). apply list_elem_of_In in Hin.
    apply (elem_of_char_suffixes_ascii _ _ Hs) in Hin as (pre & ->). eauto.
  - intros (pre & post & -> & Hm). exists post. split; [|done].
    apply list_elem_of_In, (elem_of_char_suffixes_ascii _ _ Hs). eauto.
Qed.

Lemma like_plain c p s :
  Sql.plain c = true →
  Sql.like_match (c :: p) s = true ↔
  ∃ s', s = c :: s' ∧ Sql.like_match p s' = true.
Proof.
  unfold Sql.plain. rewrite negb_true_iff, !orb_false_iff. intros [[H1 H2] H3].
  cbn [Sql.like_match]. rewrite H1, H2, H3. destruct s as [|x s].
  - split; [done|]. by intros (? & ? & _).
  - rewrite andb_true_iff, Ascii.eqb_eq. split.
    + intros [-> ?]. eauto.
    + intros (s' & [= -> ->] & ?). done.
Qed.

Lemma like_plain_prefix lit p s :
  Forall (λ c, Sql.plain c = true) lit →
  Sql.like_match (lit ++ p) s = true ↔
  ∃ s', s = lit ++ s' ∧ Sql.like_match p s' = true.
Proof.
  intros Hlit. revert s. induction Hlit as [|c lit Hc _ IH]; intros s.
  - simpl. split; [eauto|]. by intros (? & -> & ?).
  - change ((c :: lit) ++ p) with (c :: (lit ++ p)).
    rewrite (like_plain _ _ _ Hc). split.
    + intros (s' & -> & H). apply IH in H as (s'' & -> & ?). eauto.
    + intros (s' & -> & H). exists (lit ++ s'). split; [done|].
      apply IH. eauto.
Qed.

(** A lone [%] matches every text, and so does [%%]. *)
Lemma like_percent_only s : Sql.like_match ["%"%char] s = true.
Proof.
  rewrite like_match_percent, existsb_exists. exists []. split; [|done].
  apply list_elem_of_In, nil_char_suffixes.
Qed.

Lemma like_double_percent s : Sql.like_match ["%"%char; "%"%char] s = true.
Proof.
  rewrite like_match_percent, existsb_exists. exists []. split; [|done].
  apply list_elem_of_In, nil_char_suffixes.
Qed.

(** [%lit%] matches exactly the ASCII texts that contain [lit]. *)
Lemma like_contains lit s :
  Forall (λ c, Sql.plain c = true) lit →
  Forall (λ c, (N_of_ascii c < 128)%N) s →
  Sql.like_match ("%"%char :: lit ++ ["%"%char]) s = JS.includes_list s lit.
Proof.
  intros Hlit Hs. apply eq_true_iff_eq.
  rewrite (like_percent _ _ Hs), includes_list_spec. split.
  - intros (pre & post & -> & H).
    apply (like_plain_prefix _ _ _ Hlit) in H as (s' & -> & _). eauto.
  - intros (pre & post & ->). exists pre, (lit ++ post). split; [done|].
    apply (like_plain_prefix _ _ _ Hlit). exists post.
    split; [done|apply like_percent_only].
Qed.

Lemma plain_lower c : Sql.plain c = true → Sql.plain (JS.lower_ascii c) = true.
Proof.
  destruct c as [[] [] [] [] [] [] [] []]; vm_compute; congruence.
Qed.

Lemma lower_ascii_ascii c :
  (N_of_ascii c < 128)%N → (N_of_ascii (JS.lower_ascii c) < 128)%N.
Proof.
  destruct c as [[] [] [] [] [] [] [] []]; vm_compute; congruence.
Qed.

Lemma lower_pattern (t : string) :
  JS.lower (list_ascii_of_string ("%" ++ t ++ "%")%string) =
  "%"%char :: JS.lower (list_ascii_of_string t) ++ ["%"%char].
Proof.
  rewrite !list_ascii_of_string_app. unfold JS.lower.
  rewrite !map_app. reflexivity.
Qed.

(** The engine rejects a pattern that ends in a lone escape character;
    one that ends in [%] never does. *)
Lemma escape_ok_snoc_percent p : Sql.escape_ok (p ++ ["%"%char]) = true.
Proof.
  remember (length p) as n eqn:Hn. revert p Hn.
  induction n as [n IH] using lt_wf_ind. intros p ->.
  destruct p as [|c p]; [done|]. simpl.
  destruct (Sql.is_backslash c).
  - destruct p as [|c' p]; simpl; [done|].
    apply (IH (length p)); [simpl; lia|done].
  - apply (IH (length p)); [simpl; lia|done].
Qed.

End strings.

(** ** [getMarkets]: the filter *)

Section getMarkets_filter.
Import Reading.

Lemma truthy_false s : JS.truthy s = false ↔ s = "".
Proof. by destruct s. Qed.

Lemma truthy_true s : JS.truthy s = true ↔ s ≠ "".
Proof. by destruct s. Qed.

Lemma eq_holds {A} `{EqDecision A} (col : option A) (v : A) :
  Sql.holds (Sql.eq col v) ↔ col = Some v.
Proof.
  unfold Sql.holds, Sql.eq. destruct col as [x|]; simpl; [|done].
  case_bool_decide; naive_solver.
Qed.

Lemma Forall_holds_nil {Row} (r : Row) :
  Forall (λ c : Sql.cond Row, Sql.holds (c r)) [] ↔ True.
Proof. split; [done|constructor]. Qed.

Lemma Forall_holds_singleton {Row} (c : Sql.cond Row) (r : Row) :
  Forall (λ c : Sql.cond Row, Sql.holds (c r)) [c] ↔ Sql.holds (c r).
Proof. by rewrite Forall_singleton. Qed.

Lemma status_conditions s m :
  Forall (λ c : Sql.cond markets.row, Sql.holds (c m))
    (if JS.truthy s && negb (s =? "all")%string
     then [Markets.status_cond s] else []) ↔
  allows [""; "all"] (Some s) (markets.status m).
Proof.
  simpl. destruct (JS.truthy s) eqn:Ht; simpl.
  - destruct (String.eqb_spec s "all") as [->|Hne]; simpl.
    + rewrite Forall_holds_nil. split; [|done]. intros _. left. set_solver.
    + rewrite Forall_holds_singleton. unfold Markets.status_cond.
      rewrite eq_holds. apply truthy_true in Ht. split; [auto|].
      intros [Hin|?]; [|done]. set_solver.
  - apply truthy_false in Ht as ->. rewrite Forall_holds_nil.
    split; [|done]. intros _. left. set_solver.
Qed.

Lemma platform_conditions p m :
  Forall (λ c : Sql.cond markets.row, Sql.holds (c m))
    (match Markets.platform p with
     | Some pl => if JS.truthy pl && negb (pl =? "all")%string
                  then [Markets.platform_cond pl] else []
     | None => []
     end) ↔
  allows [""; "all"] (Markets.platform p) (Some (markets.platform m)).
Proof.
  destruct (Markets.platform p) as [s|]; simpl; [|by rewrite Forall_holds_nil].
  destruct (JS.truthy s) eqn:Ht; simpl.
  - destruct (String.eqb_spec s "all") as [->|Hne]; simpl.
    + rewrite Forall_holds_nil. split; [|done]. intros _. left. set_solver.
    + rewrite Forall_holds_singleton. unfold Markets.platform_cond.
      rewrite eq_holds. apply truthy_true in Ht. split; [auto|].
      intros [Hin|?]; [|done]. set_solver.
  - apply truthy_false in Ht as ->. rewrite Forall_holds_nil.
    split; [|done]. intros _. left. set_solver.
Qed.

Lemma category_conditions p m :
  Forall (λ c : Sql.cond markets.row, Sql.holds (c m))
    (match Markets.category p with
     | Some c => if JS.truthy c && negb (c =? "All")%string
                    && negb (c =? "all")%string
                 then [Markets.category_cond c] else []
     | None => []
     end) ↔
  allows [""; "All"; "all"] (Markets.category p) (markets.category m).
Proof.
  destruct (Markets.category p) as [s|]; simpl; [|by rewrite Forall_holds_nil].
  destruct (JS.truthy s) eqn:Ht; simpl.
  - destruct (String.eqb_spec s "All") as [->|Hne1]; simpl.
    { rewrite Forall_holds_nil. split; [|done]. intros _. left. set_solver. }
    destruct (String.eqb_spec s "all") as [->|Hne2]; simpl.
    { rewrite Forall_holds_nil. split; [|done]. intros _. left. set_solver. }
    rewrite Forall_holds_singleton. unfold Markets.category_cond.
    rewrite eq_holds. apply truthy_true in Ht. split; [auto|].
    intros [Hin|?]; [|done]. set_solver.
  - apply truthy_false in Ht as ->. rewrite Forall_holds_nil.
    split; [|done]. intros _. left. set_solver.
Qed.

Lemma search_conditions db p m :
  Forall (λ c : Sql.cond markets.row, Sql.holds (c m))
    (match Markets.search p with
     | Some s => if JS.truthy s then [Markets.search_cond db s] else []
     | None => []
     end) ↔
  search_like db (Markets.search p) (markets.title m).
Proof.
  destruct (Markets.search p) as [s|]; simpl; [|by rewrite Forall_holds_nil].
  destruct (JS.truthy s) eqn:Ht; simpl.
  - rewrite Forall_holds_singleton. unfold Markets.search_cond.
    apply truthy_true in Ht. naive_solver.
  - apply truthy_false in Ht as ->. rewrite Forall_holds_nil. naive_solver.
Qed.

Lemma conditions_selects db p m :
  Forall (λ c : Sql.cond markets.row, Sql.holds (c m)) (Markets.conditions db p) ↔
  selects db p m.
Proof.
  unfold Markets.conditions, selects. rewrite !Forall_app.
  rewrite status_conditions, platform_conditions, category_conditions,
    search_conditions. done.
Qed.

Lemma keeps_where_clause db p m :
  Sql.keeps (Markets.where_clause db p) m ↔ selects db p m.
Proof.
  rewrite <-conditions_selects. unfold Markets.where_clause.
  destruct (Markets.conditions db p) as [|c cs] eqn:Hcs.
  - simpl. by rewrite Forall_holds_nil.
  - unfold Sql.keeps. apply and_holds.
Qed.

Lemma elem_of_matching db p m :
  m ∈ Markets.matching db p ↔ m ∈ tbl_markets db ∧ selects db p m.
Proof.
  unfold Markets.matching. rewrite elem_of_where, keeps_where_clause. tauto.
Qed.

Lemma is_ascii_pattern s : is_ascii s → is_ascii ("%" ++ s ++ "%").
Proof.
  unfold is_ascii. rewrite !list_ascii_of_string_app. intros Hs.
  apply Forall_app. split; [by repeat constructor|].
  apply Forall_app. split; [done|by repeat constructor].
Qed.

Lemma lower_is_ascii (l : list ascii) :
  Forall (λ c, (N_of_ascii c < 128)%N) l →
  Forall (λ c, (N_of_ascii c < 128)%N) (JS.lower l).
Proof.
  intros Hl. apply Forall_map. eapply Forall_impl; [exact Hl|].
  intros c. apply lower_ascii_ascii.
Qed.

(** On ASCII text, where the engine folds case letter by letter, and for a
    search text without LIKE metacharacters, the pattern match is a
    case-insensitive substring search. *)
Lemma ilike_contains db title s :
  folds_ascii db → is_ascii title → is_ascii s →
  Forall (λ c, Sql.plain c = true) (list_ascii_of_string s) →
  Sql.holds (Sql.ilike (engine_lower (installation db)) (Some title) ("%" ++ s ++ "%")) ↔
  contains_ci title s.
Proof.
  intros Hfold Ht Hs Hplain. unfold Sql.holds, Sql.ilike, contains_ci, JS.includes.
  cbn [fmap option_fmap option_map].
  rewrite (Hfold _ (is_ascii_pattern s Hs)), (Hfold _ Ht). unfold JS.toLowerCase.
  rewrite !list_ascii_of_string_of_list_ascii, lower_pattern.
  rewrite like_contains.
  - split; [by intros [= ->]|by intros ->].
  - apply Forall_map. eapply Forall_impl; [exact Hplain|].
    intros c Hc. by apply plain_lower.
  - by apply lower_is_ascii.
Qed.

(** Where the engine folds ASCII text letter by letter, the pattern that
    [getMarkets] builds from ASCII search text ends in [%], so the engine
    never rejects it for a lone escape character, and the pattern [%%] of
    the empty search text matches every title. *)
Lemma search_pattern_accepted db (t : string) :
  folds_ascii db → is_ascii t →
  Sql.escape_ok
    (list_ascii_of_string (engine_lower (installation db) ("%" ++ t ++ "%"))) = true.
Proof.
  intros Hfold Ht. rewrite (Hfold _ (is_ascii_pattern t Ht)). unfold JS.toLowerCase.
  rewrite list_ascii_of_string_of_list_ascii, lower_pattern.
  apply (escape_ok_snoc_percent ("%"%char :: JS.lower (list_ascii_of_string t))).
Qed.

Lemma ilike_empty_query db title :
  folds_ascii db →
  Sql.holds (Sql.ilike (engine_lower (installation db)) (Some title) ("%" ++ "" ++ "%")).
Proof.
  intros Hfold. unfold Sql.holds, Sql.ilike. cbn [fmap option_fmap option_map].
  change ("%" ++ "" ++ "%") with "%%".
  rewrite (Hfold "%%") by (by repeat constructor). f_equal.
  apply like_double_percent.
Qed.

End getMarkets_filter.

(** ** [getMarkets]: the sort order and the envelope *)

Section getMarkets_order.
Import Reading.

Global Instance precedes_trans o : Transitive (Markets.precedes o).
Proof. destruct o as [[]|[]]; simpl; apply _. Qed.

Global Instance precedes_total o : Total (Markets.precedes o).
Proof. destruct o as [[]|[]]; simpl; apply _. Qed.

Lemma order_of_sort_fallback k :
  k ∉ Constants.SORT_KEYS → Markets.order_of_sort k = Markets.Desc Markets.col_volume.
Proof.
  intros Hk. unfold Markets.order_of_sort.
  repeat match goal with
         | |- context [String.eqb k ?s] =>
             destruct (String.eqb_spec k s) as [->|_];
             [exfalso; apply Hk; unfold Constants.SORT_KEYS; set_solver|]
         end.
  done.
Qed.

Lemma order_of_sort_table :
  Markets.order_of_sort "volume_desc" = Markets.Desc Markets.col_volume ∧
  Markets.order_of_sort "volume_asc" = Markets.Asc Markets.col_volume ∧
  Markets.order_of_sort "yes_price_desc" = Markets.Desc Markets.col_yesPrice ∧
  Markets.order_of_sort "yes_price_asc" = Markets.Asc Markets.col_yesPrice ∧
  Markets.order_of_sort "title_asc" = Markets.Asc Markets.col_title ∧
  Markets.order_of_sort "title_desc" = Markets.Desc Markets.col_title.
Proof. by repeat split. Qed.

(** Integers up to [2^53] are numbers. *)
Lemma Number_safe n : Z.abs n ≤ 2 ^ 53 → JS.Number n = n.
Proof.
  intros Hn. unfold JS.Number. cbv zeta.
  by destruct (Z.leb_spec (Z.abs n) (2 ^ 53)); [|lia].
Qed.

(** The rows of every page are what the ordered selection holds from the
    offset on.  The call fails exactly when the engine rejects the offset:
    when it is negative or does not fit 64 bits. *)
Lemma getMarkets_Ok db p env :
  Markets.getMarkets db p = Ok env ↔
  1 ≤ page_of p ∧ (page_of p - 1) * Markets.PAGE_SIZE ≤ 2 ^ 63 - 1 ∧
  env = {| Markets.data :=
             take (Z.to_nat Markets.PAGE_SIZE)
               (drop (Z.to_nat ((page_of p - 1) * Markets.PAGE_SIZE))
                  (Sql.order_by
                     (Markets.precedes
                        (Markets.order_of_sort
                           (default "volume_desc" (Markets.sort p))))
                     (Markets.matching db p)));
           Markets.total := Sql.count (Markets.matching db p);
           Markets.env_page := page_of p;
           Markets.pageSize := Markets.PAGE_SIZE;
           Markets.totalPages :=
             Math_ceil_div (Sql.count (Markets.matching db p)) Markets.PAGE_SIZE |}.
Proof.
  unfold Markets.getMarkets, page_of. rewrite bind_Ok. split.
  - intros (rows & Hrows & [= <-]).
    apply limit_offset_Ok in Hrows as [Hk ->].
    unfold Markets.PAGE_SIZE in *. split; [lia|]. split; [lia|done].
  - intros (Hpg & Hmax & ->). eexists. split; [|done].
    apply limit_offset_Ok. unfold Markets.PAGE_SIZE in *. split; [lia|done].
Qed.

Lemma getMarkets_Err db p e :
  Markets.getMarkets db p = Err e →
  page_of p < 1 ∨ 2 ^ 63 - 1 < (page_of p - 1) * Markets.PAGE_SIZE.
Proof.
  intros Herr.
  destruct (decide (1 ≤ page_of p ∧ (page_of p - 1) * Markets.PAGE_SIZE ≤ 2 ^ 63 - 1))
    as [[H1 H2]|Hno]; [|lia].
  assert (∃ env, Markets.getMarkets db p = Ok env) as [env Henv]
    by (eexists; by apply getMarkets_Ok).
  congruence.
Qed.


(** A page whose offset is a safe integer is its own number. *)
Lemma page_of_safe p :
  1 ≤ default 1 (Markets.page p) →
  (default 1 (Markets.page p) - 1) * Markets.PAGE_SIZE ≤ JS.MAX_SAFE_INTEGER →
  page_of p = default 1 (Markets.page p).
Proof.
  intros H1 H2. unfold page_of. apply Number_safe.
  unfold Markets.PAGE_SIZE, JS.MAX_SAFE_INTEGER in *. lia.
Qed.

Lemma getMarkets_total_fun db p :
  1 ≤ default 1 (Markets.page p) →
  (default 1 (Markets.page p) - 1) * Markets.PAGE_SIZE ≤ JS.MAX_SAFE_INTEGER →
  ∃ env, Markets.getMarkets db p = Ok env.
Proof.
  intros H1 H2. eexists. apply getMarkets_Ok.
  rewrite (page_of_safe p H1 H2).
  unfold Markets.PAGE_SIZE, JS.MAX_SAFE_INTEGER in *. split; [done|]. split; [lia|done].
Qed.

Lemma getMarkets_sorted db p env :
  Markets.getMarkets db p = Ok env →
  StronglySorted
    (Markets.precedes (Markets.order_of_sort (default "volume_desc" (Markets.sort p))))
    (Markets.data env).
Proof.
  intros (_ & _ & ->)%getMarkets_Ok. simpl.
  apply StronglySorted_take, StronglySorted_drop, order_by_sorted; apply _.
Qed.

Lemma getMarkets_data_matching db p env m :
  Markets.getMarkets db p = Ok env → m ∈ Markets.data env → m ∈ Markets.matching db p.
Proof.
  intros (_ & _ & ->)%getMarkets_Ok. simpl. intros Hm.
  apply subseteq_take in Hm. apply subseteq_drop in Hm.
  by apply elem_of_order_by in Hm.
Qed.

End getMarkets_order.

(** C1, as stated, fails: the search text is a LIKE pattern, so the search
    ["_"] selects a market whose title does not contain an underscore. *)
Lemma getMarkets_search_is_a_pattern :
  let p := Sample.params None None None (Some "_") None None in
  (∃ env, Markets.getMarkets Sample.db_markets p = Ok env ∧
          Sample.m_election ∈ Markets.data env) ∧
  Sample.m_election ∈ tbl_markets Sample.db_markets ∧
  ¬ Reading.selects_as_stated p Sample.m_election.
Proof.
  split; [|split].
  - eexists. split; [reflexivity|]. by_compute.
  - by_compute.
  - by_compute.
Qed.

(** C1 (amended): [getMarkets] selects exactly the rows that satisfy the
    conjunction of its four filters: status (["active"] when absent),
    platform and category by equality, where an absent, empty or ["all"]
    value (for category also ["All"]) constrains nothing, and the search
    text as the pattern [%search%] that ILIKE matches against the title
    after the engine has lower-cased both.  On ASCII text, where the engine
    folds case letter by letter, that is case-insensitive substring search
    whenever the search text contains none of [%], [_] and the backslash.
    The rows come in exactly one order, the one the sort key names, and any
    other key means volume descending.  The call fails only when the engine
    rejects the offset of the page. *)
Theorem getMarkets_conjunctive_filter_one_order (db : DB) (p : Markets.GetMarketsParams) :
  (∀ m, m ∈ Markets.matching db p ↔ m ∈ tbl_markets db ∧ Reading.selects db p m) ∧
  (Reading.folds_ascii db →
   ∀ s title, Reading.is_ascii s → Reading.is_ascii title →
     Forall (λ c, Sql.plain c = true) (list_ascii_of_string s) →
     Reading.search_like db (Some s) title ↔ Reading.search_substring (Some s) title) ∧
  (∀ k, k ∉ Constants.SORT_KEYS →
     Markets.order_of_sort k = Markets.Desc Markets.col_volume) ∧
  (Markets.order_of_sort "volume_desc" = Markets.Desc Markets.col_volume ∧
   Markets.order_of_sort "volume_asc" = Markets.Asc Markets.col_volume ∧
   Markets.order_of_sort "yes_price_desc" = Markets.Desc Markets.col_yesPrice ∧
   Markets.order_of_sort "yes_price_asc" = Markets.Asc Markets.col_yesPrice ∧
   Markets.order_of_sort "title_asc" = Markets.Asc Markets.col_title ∧
   Markets.order_of_sort "title_desc" = Markets.Desc Markets.col_title) ∧
  match Markets.getMarkets db p with
  | Ok env =>
      StronglySorted
        (Markets.precedes
           (Markets.order_of_sort (default "volume_desc" (Markets.sort p))))
        (Markets.data env) ∧
      (∀ m, m ∈ Markets.data env → m ∈ Markets.matching db p)
  | Err _ =>
      Reading.page_of p < 1 ∨
      2 ^ 63 - 1 < (Reading.page_of p - 1) * Markets.PAGE_SIZE
  end.
Proof.
  split; [|split; [|split; [|split]]].
  - intros m. apply elem_of_matching.
  - intros Hfold s title Hs Ht Hplain.
    unfold Reading.search_like, Reading.search_substring.
    rewrite ilike_contains by done.
    split; [|by right]. intros [->|?]; [|done].
    unfold Reading.contains_ci, JS.includes. simpl.
    by destruct (list_ascii_of_string (JS.toLowerCase title)).
  - apply order_of_sort_fallback.
  - apply order_of_sort_table.
  - destruct (Markets.getMarkets db p) as [env|e] eqn:Hget.
    + split; [by eapply getMarkets_sorted|].
      intros m. by eapply getMarkets_data_matching.
    + by eapply getMarkets_Err.
Qed.

Lemma getMarkets_conjunctive_filter_one_order_witness :
  Reading.folds_ascii Sample.db_markets ∧
  (Reading.search_like Sample.db_markets (Some "ELECTION") "Election winner" ↔
   Reading.search_substring (Some "ELECTION") "Election winner").
Proof.
  assert (Reading.folds_ascii Sample.db_markets) as Hfold by (intros s _; reflexivity).
  split; [exact Hfold|].
  apply (proj1 (proj2 (getMarkets_conjunctive_filter_one_order
                         Sample.db_markets Markets.no_params)) Hfold);
    by_compute.
Defined.

(** What a search finds beyond ASCII is the locale's affair: the engine
    that folds accented capitals finds the title under the lower-case
    search text, the engine of the C locale does not; and under both [_]
    stands for the one two-byte character. *)
Example getMarkets_search_follows_locale :
  let title := "CAF" ++ String (ascii_of_N 195) (String (ascii_of_N 137) " open") in
  let text := "caf" ++ String (ascii_of_N 195) (String (ascii_of_N 169) "") in
  let m := Sample.market 1 "kalshi" title None (Some "active") None None in
  let db := Sample.with_markets [m] in
  let db' := Sample.with_installation db Sample.latin1_locale in
  Markets.rows_of (Markets.getMarkets db' (Sample.params None None None (Some text) None None))
    = [m] ∧
  Markets.rows_of (Markets.getMarkets db (Sample.params None None None (Some text) None None))
    = [] ∧
  Markets.rows_of (Markets.getMarkets db (Sample.params None None None (Some "caf_ ") None None))
    = [m].
Proof. by vm_compute. Qed.

(** ** [getMarkets]: pagination *)

Section getMarkets_pages.

Lemma matching_filter db p :
  Markets.matching db p = filter (Reading.selects db p) (tbl_markets db).
Proof.
  unfold Markets.matching, Sql.where_. apply list_filter_iff.
  intros m. apply keeps_where_clause.
Qed.


Lemma page_beyond_is_empty {Row} (rows : list Row) (pg : Z) :
  1 ≤ pg →
  Math_ceil_div (Sql.count rows) Markets.PAGE_SIZE < pg →
  take (Z.to_nat Markets.PAGE_SIZE)
    (drop (Z.to_nat ((pg - 1) * Markets.PAGE_SIZE)) rows) = [].
Proof.
  intros Hpg Hlt. rewrite drop_ge; [by rewrite take_nil|].
  pose proof (Math_ceil_div_spec (Sql.count rows) Markets.PAGE_SIZE) as Hc.
  unfold Markets.PAGE_SIZE, Sql.count in *. lia.
Qed.

End getMarkets_pages.




(** ** [getPriceHistoryWithRange] *)

Section price_history.

Lemma RANGE_HOURS_recognized :
  JSDate.get PriceSnapshots.RANGE_HOURS "24h" = JSDate.number (Some 24) ∧
  JSDate.get PriceSnapshots.RANGE_HOURS "7d" = JSDate.number (Some 168) ∧
  JSDate.get PriceSnapshots.RANGE_HOURS "30d" = JSDate.number (Some 720).
Proof. by repeat split. Qed.

Lemma own_lookup_unrecognized rg :
  rg ∉ Constants.RANGE_KEYS → JSDate.own_lookup PriceSnapshots.RANGE_HOURS rg = None.
Proof.
  intros Hrg. unfold PriceSnapshots.RANGE_HOURS, JSDate.own_lookup.
  repeat match goal with
         | |- context [String.eqb ?s rg] =>
             destruct (String.eqb_spec s rg) as [<-|_];
             [exfalso; apply Hrg; unfold Constants.RANGE_KEYS; set_solver|]
         end.
  done.
Qed.

(** A key that is neither a range nor a property every object inherits
    looks up as [undefined]. *)
Lemma RANGE_HOURS_undefined rg :
  rg ∉ Constants.RANGE_KEYS → rg ∉ JSDate.Object_prototype_names →
  JSDate.get PriceSnapshots.RANGE_HOURS rg = JSDate.undefined.
Proof.
  intros H1 H2. unfold JSDate.get. rewrite own_lookup_unrecognized by done.
  by rewrite bool_decide_eq_false_2.
Qed.

(** An inherited property name looks up as a truthy non-number. *)
Lemma RANGE_HOURS_inherited rg :
  rg ∈ JSDate.Object_prototype_names →
  JSDate.get PriceSnapshots.RANGE_HOURS rg = JSDate.inherited rg.
Proof.
  intros H. unfold JSDate.get. rewrite own_lookup_unrecognized.
  - by rewrite bool_decide_eq_true_2.
  - intros Hin. unfold Constants.RANGE_KEYS, JSDate.Object_prototype_names in *.
    set_solver.
Qed.

Lemma conditions_unbounded now marketId range :
  (∀ rg, range = Some rg →
     rg = "" ∨ rg = "all" ∨
     ((rg ∉ Constants.RANGE_KEYS) ∧ (rg ∉ JSDate.Object_prototype_names))) →
  PriceSnapshots.conditions now marketId range =
    Ok [PriceSnapshots.market_cond marketId].
Proof.
  intros H. destruct range as [rg|]; [|done].
  destruct (H rg eq_refl) as [->|[->|[H1 H2]]]; [done..|].
  unfold PriceSnapshots.conditions.
  rewrite RANGE_HOURS_undefined by done. simpl.
  by destruct (JS.truthy rg && negb (rg =? "all")%string).
Qed.

Lemma conditions_bounded now marketId rg hours :
  JSDate.own_lookup PriceSnapshots.RANGE_HOURS rg = Some hours →
  0 ≤ now ≤ 8640000000000000 →
  PriceSnapshots.conditions now marketId (Some rg) =
    Ok [PriceSnapshots.market_cond marketId;
        PriceSnapshots.cutoff_cond (JSDate.format_iso (now - hours * 3600000))].
Proof.
  intros Hrg Hnow.
  assert (rg = "24h" ∧ hours = 24 ∨ rg = "7d" ∧ hours = 168 ∨
          rg = "30d" ∧ hours = 720) as Hcases.
  { unfold PriceSnapshots.RANGE_HOURS, JSDate.own_lookup in Hrg.
    repeat match type of Hrg with
           | context [String.eqb ?s rg] =>
               destruct (String.eqb_spec s rg) as [<-|_]
           end; naive_solver. }
  unfold PriceSnapshots.conditions, JSDate.toISOString.
  destruct Hcases as [[-> ->]|[[-> ->]|[-> ->]]]; simpl;
    match goal with
    | |- context [Z.abs ?x <=? 8640000000000000] =>
        destruct (Z.leb_spec (Z.abs x) 8640000000000000); [|lia]
    end; repeat f_equal.
Qed.

Lemma conditions_market now marketId range cs :
  PriceSnapshots.conditions now marketId range = Ok cs →
  PriceSnapshots.market_cond marketId ∈ cs.
Proof.
  unfold PriceSnapshots.conditions. destruct range as [rg|].
  - destruct (JS.truthy rg && negb (rg =? "all")%string).
    + destruct (JSDate.truthy _).
      * destruct (JSDate.toISOString _); simpl; intros [= <-]. set_solver.
      * intros [= <-]. set_solver.
    + intros [= <-]. set_solver.
  - intros [= <-]. set_solver.
Qed.

Lemma where_single {Row} (c : Sql.cond Row) rows :
  Sql.where_ (Some (Sql.and_ [c])) rows = Sql.where_ (Some c) rows.
Proof.
  unfold Sql.where_. apply list_filter_iff. intros r.
  unfold Sql.keeps. by rewrite and_holds, Forall_singleton.
Qed.

Global Instance timestamp_order_trans : Transitive PriceSnapshots.timestamp_order.
Proof. unfold PriceSnapshots.timestamp_order. apply _. Qed.
Global Instance timestamp_order_total : Total PriceSnapshots.timestamp_order.
Proof. unfold PriceSnapshots.timestamp_order. apply _. Qed.

(** Without a lower bound the ranged query is [getPriceHistory]. *)
Lemma getPriceHistoryWithRange_unbounded db now marketId range limit :
  (∀ rg, range = Some rg →
     rg = "" ∨ rg = "all" ∨
     ((rg ∉ Constants.RANGE_KEYS) ∧ (rg ∉ JSDate.Object_prototype_names))) →
  PriceSnapshots.getPriceHistoryWithRange db now marketId range limit =
    Ok (PriceSnapshots.getPriceHistory db marketId limit).
Proof.
  intros H. unfold PriceSnapshots.getPriceHistoryWithRange.
  rewrite conditions_unbounded by done. simpl.
  unfold PriceSnapshots.getPriceHistory. by rewrite where_single.
Qed.

Lemma gte_text_holds col cutoff :
  Sql.holds (Sql.gte_text col cutoff) ↔ ∃ t, col = Some t ∧ Sql.text_le cutoff t.
Proof.
  unfold Sql.holds, Sql.gte_text. destruct col as [t|]; simpl.
  - case_bool_decide; naive_solver.
  - naive_solver.
Qed.

(** What every successful call returns: rows of the market, newest first,
    at most [limit] of them. *)
Lemma getPriceHistoryWithRange_rows db now marketId range limit rows :
  PriceSnapshots.getPriceHistoryWithRange db now marketId range limit = Ok rows →
  Forall (λ r, r ∈ tbl_price_snapshots db ∧ priceSnapshots.marketId r = marketId) rows ∧
  StronglySorted PriceSnapshots.timestamp_order rows ∧
  (length rows ≤ limit)%nat.
Proof.
  unfold PriceSnapshots.getPriceHistoryWithRange. rewrite bind_Ok.
  intros (cs & Hcs & [= <-]). split; [|split].
  - apply Forall_forall. intros r Hr.
    apply elem_of_limit, elem_of_order_by, elem_of_where in Hr as [Hk Hr].
    split; [done|]. unfold Sql.keeps in Hk. rewrite and_holds in Hk.
    pose proof (conditions_market _ _ _ _ Hcs) as Hin.
    rewrite Forall_forall in Hk. specialize (Hk _ Hin).
    unfold PriceSnapshots.market_cond in Hk. rewrite eq_holds in Hk. congruence.
  - apply limit_sorted, order_by_sorted; apply _.
  - apply length_limit.
Qed.

(** With a recognized range every returned row carries a timestamp that
    is not below the cutoff [now - N hours]. *)
Lemma getPriceHistoryWithRange_bounded db now marketId rg hours limit :
  JSDate.own_lookup PriceSnapshots.RANGE_HOURS rg = Some hours →
  0 ≤ now ≤ 8640000000000000 →
  ∃ rows,
    PriceSnapshots.getPriceHistoryWithRange db now marketId (Some rg) limit = Ok rows ∧
    Forall (λ r, ∃ t, priceSnapshots.timestamp r = Some t ∧
                      Sql.text_le (JSDate.format_iso (now - hours * 3600000)) t) rows.
Proof.
  intros Hrg Hnow. unfold PriceSnapshots.getPriceHistoryWithRange.
  rewrite (conditions_bounded _ _ _ _ Hrg Hnow). simpl. eexists. split; [done|].
  apply Forall_forall. intros r Hr.
  apply elem_of_limit, elem_of_order_by, elem_of_where in Hr as [Hk _].
  unfold Sql.keeps in Hk. rewrite and_holds in Hk.
  rewrite Forall_cons, Forall_singleton in Hk. destruct Hk as [_ Hk].
  unfold PriceSnapshots.cutoff_cond in Hk. by rewrite gte_text_holds in Hk.
Qed.

(** A range that names an inherited property makes the call throw. *)
Lemma getPriceHistoryWithRange_inherited db now marketId rg limit :
  rg ∈ JSDate.Object_prototype_names →
  PriceSnapshots.getPriceHistoryWithRange db now marketId (Some rg) limit =
    Err (RangeError "Invalid time value").
Proof.
  intros Hrg. unfold PriceSnapshots.getPriceHistoryWithRange,
    PriceSnapshots.conditions.
  rewrite RANGE_HOURS_inherited by done.
  assert (JS.truthy rg && negb (rg =? "all")%string = true) as ->; [|done].
  unfold JSDate.Object_prototype_names in Hrg.
  repeat (apply elem_of_cons in Hrg as [->|Hrg]; [done|]).
  by apply elem_of_nil in Hrg.
Qed.

(** Apart from inherited property names the ranged query does what its
    contract says: rows of the market, newest first, at most [limit]; a
    recognized range bounds the timestamps from below by [now - N hours];
    any other range leaves the history unbounded. *)
Lemma getPriceHistoryWithRange_contract db now marketId range limit :
  0 ≤ now ≤ 8640000000000000 →
  (∀ rg, range = Some rg → rg ∉ JSDate.Object_prototype_names) →
  ∃ rows,
    PriceSnapshots.getPriceHistoryWithRange db now marketId range limit = Ok rows ∧
    Forall (λ r, r ∈ tbl_price_snapshots db ∧ priceSnapshots.marketId r = marketId) rows ∧
    StronglySorted PriceSnapshots.timestamp_order rows ∧
    (length rows ≤ limit)%nat ∧
    (∀ rg hours,
       range = Some rg →
       JSDate.own_lookup PriceSnapshots.RANGE_HOURS rg = Some hours →
       Forall (λ r, ∃ t, priceSnapshots.timestamp r = Some t ∧
                         Sql.text_le (JSDate.format_iso (now - hours * 3600000)) t)
         rows) ∧
    ((∀ rg, range = Some rg → rg ∉ Constants.RANGE_KEYS) →
     rows = PriceSnapshots.getPriceHistory db marketId limit).
Proof.
  intros Hnow Hproto.
  assert (∃ rows, PriceSnapshots.getPriceHistoryWithRange db now marketId range limit
                  = Ok rows) as [rows Hrows].
  { destruct range as [rg|].
    - destruct (JSDate.own_lookup PriceSnapshots.RANGE_HOURS rg) as [hours|] eqn:Hl.
      + destruct (getPriceHistoryWithRange_bounded db now marketId rg hours limit Hl Hnow)
          as (rows & Hrows & _). eauto.
      + eexists. apply getPriceHistoryWithRange_unbounded.
        intros rg' [= <-]. right. right. split; [|by apply Hproto].
        intros Hin. unfold Constants.RANGE_KEYS in Hin.
        repeat (apply elem_of_cons in Hin as [->|Hin]; [done|]).
        by apply elem_of_nil in Hin.
    - eexists. by apply getPriceHistoryWithRange_unbounded. }
  exists rows. split; [done|].
  destruct (getPriceHistoryWithRange_rows _ _ _ _ _ _ Hrows) as (Hm & Hs & Hl).
  split; [done|]. split; [done|]. split; [done|]. split.
  - intros rg hours -> Hlook.
    destruct (getPriceHistoryWithRange_bounded db now marketId rg hours limit Hlook Hnow)
      as (rows' & Hrows' & Hb). congruence.
  - intros Hkeys.
    rewrite getPriceHistoryWithRange_unbounded in Hrows; [congruence|].
    intros rg ->. right. right. split; [by apply Hkeys|by apply Hproto].
Qed.

End price_history.

(** C3, as stated, fails: a category or status outside the vocabulary is
    not dropped but compared with the column, so it selects no row here,
    while the same call without it returns two rows. *)
Lemma getMarkets_unknown_category_still_filters :
  ("Music" ∉ Constants.CATEGORIES) ∧
  ("pending" ∉ Constants.STATUSES) ∧
  (∃ env, Markets.getMarkets Sample.db_markets
            (Sample.params None None (Some "Music") None None None) = Ok env ∧
          Markets.data env = []) ∧
  (∃ env, Markets.getMarkets Sample.db_markets
            (Sample.params None (Some "pending") None None None None) = Ok env ∧
          Markets.data env = []) ∧
  (∃ env, Markets.getMarkets Sample.db_markets
            (Sample.params None None None None None None) = Ok env ∧
          Markets.data env = [Sample.m_bitcoin; Sample.m_election]).
Proof.
  split; [by_compute|]. split; [by_compute|].
  repeat split; eexists; (split; [reflexivity|]); reflexivity.
Qed.

(** C3 (amended): no status, category or sort value is rejected for lying
    outside its vocabulary, and no range value other than the name of a
    property every object inherits.  An unrecognized sort key orders by
    volume descending; a range that is neither a recognized key nor such a
    name imposes no lower bound; and [getMarkets] succeeds, whatever the
    filter and sort values are, for every page [>= 1] whose offset is a safe
    integer.  A status or category outside the vocabulary is not treated as
    absent: unless it is empty or ["all"] (["All"]) it is compared with the
    column, so every returned row carries exactly that value. *)
Theorem unrecognized_parameters (db : DB) :
  (∀ pl st cat se pg k,
     k ∉ Constants.SORT_KEYS →
     Markets.getMarkets db
       {| Markets.platform := pl; Markets.status := st; Markets.category := cat;
          Markets.search := se; Markets.sort := Some k; Markets.page := pg |} =
     Markets.getMarkets db
       {| Markets.platform := pl; Markets.status := st; Markets.category := cat;
          Markets.search := se; Markets.sort := Some "volume_desc";
          Markets.page := pg |}) ∧
  (∀ now marketId rg limit,
     rg ∉ Constants.RANGE_KEYS → rg ∉ JSDate.Object_prototype_names →
     PriceSnapshots.getPriceHistoryWithRange db now marketId (Some rg) limit =
       PriceSnapshots.getPriceHistoryWithRange db now marketId None limit ∧
     PriceSnapshots.getPriceHistoryWithRange db now marketId (Some rg) limit =
       Ok (PriceSnapshots.getPriceHistory db marketId limit)) ∧
  (∀ p, 1 ≤ default 1 (Markets.page p) →
        (default 1 (Markets.page p) - 1) * Markets.PAGE_SIZE ≤ JS.MAX_SAFE_INTEGER →
        ∃ env, Markets.getMarkets db p = Ok env) ∧
  (∀ p env c,
     Markets.category p = Some c → c ∉ [""; "All"; "all"] →
     Markets.getMarkets db p = Ok env →
     ∀ m, m ∈ Markets.data env → markets.category m = Some c) ∧
  (∀ p env s,
     Markets.status p = Some s → s ∉ [""; "all"] →
     Markets.getMarkets db p = Ok env →
     ∀ m, m ∈ Markets.data env → markets.status m = Some s).
Proof.
  split; [|split; [|split; [|split]]].
  - intros pl st cat se pg k Hk. unfold Markets.getMarkets. simpl.
    by rewrite (order_of_sort_fallback k Hk).
  - intros now marketId rg limit H1 H2.
    rewrite !getPriceHistoryWithRange_unbounded; [done|naive_solver..].
  - apply getMarkets_total_fun.
  - intros p env c Hc Hnot Hget m Hm.
    apply (getMarkets_data_matching _ _ _ _ Hget), elem_of_matching in Hm
      as [_ (_ & _ & Hcat & _)].
    rewrite Hc in Hcat. by destruct Hcat.
  - intros p env s Hs Hnot Hget m Hm.
    apply (getMarkets_data_matching _ _ _ _ Hget), elem_of_matching in Hm
      as [_ (Hst & _)].
    rewrite Hs in Hst. by destruct Hst.
Qed.

Lemma unrecognized_parameters_witness :
  Markets.getMarkets Sample.db_markets
    (Sample.params None None None None (Some "newest") None) =
  Markets.getMarkets Sample.db_markets
    (Sample.params None None None None (Some "volume_desc") None) ∧
  PriceSnapshots.getPriceHistoryWithRange Sample.db_markets 1700000000000 1
    (Some "1y") 500 =
  Ok (PriceSnapshots.getPriceHistory Sample.db_markets 1 500).
Proof.
  destruct (unrecognized_parameters Sample.db_markets) as (Hsort & Hrange & _).
  split.
  - apply Hsort. by_compute.
  - apply Hrange; by_compute.
Defined.

(** C5 fails on the code for a range such as ["constructor"]: the lookup in
    [RANGE_HOURS] finds the inherited member, which is truthy and not a
    number, the cutoff date is invalid and [toISOString] throws. *)
Theorem getPriceHistoryWithRange_inherited_range_throws
  (db : DB) (now marketId : Z) (rg : string) (limit : nat) :
  rg ∈ JSDate.Object_prototype_names →
  PriceSnapshots.getPriceHistoryWithRange db now marketId (Some rg) limit =
    Err (RangeError "Invalid time value").
Proof. apply getPriceHistoryWithRange_inherited. Qed.

Lemma getPriceHistoryWithRange_inherited_range_throws_witness :
  "constructor" ∈ JSDate.Object_prototype_names ∧
  PriceSnapshots.getPriceHistoryWithRange Sample.db_markets 1700000000000 1
    (Some "constructor") 500 = Err (RangeError "Invalid time value").
Proof.
  assert ("constructor" ∈ JSDate.Object_prototype_names) as H by by_compute.
  split; [exact H|].
  exact (getPriceHistoryWithRange_inherited_range_throws
           Sample.db_markets 1700000000000 1 "constructor" 500 H).
Defined.

(** ** Smart filters *)

Section smart_filters.
Import Reading.

Lemma gte_holds col v :
  Sql.holds (Sql.gte col v) ↔ ∃ x, col = Some x ∧ (v ≤ x)%Qc.
Proof.
  unfold Sql.holds, Sql.gte. destruct col as [x|]; simpl.
  - case_bool_decide; naive_solver.
  - naive_solver.
Qed.

Lemma lte_holds col v :
  Sql.holds (Sql.lte col v) ↔ ∃ x, col = Some x ∧ (x ≤ v)%Qc.
Proof.
  unfold Sql.holds, Sql.lte. destruct col as [x|]; simpl.
  - case_bool_decide; naive_solver.
  - naive_solver.
Qed.

Lemma near_5050_cond_holds m :
  Sql.holds (SmartFilters.near_5050_cond m) ↔ near_5050 m.
Proof.
  unfold SmartFilters.near_5050_cond, near_5050.
  rewrite and_holds, !Forall_cons, Forall_nil.
  rewrite eq_holds, gte_holds, lte_holds. naive_solver.
Qed.

Lemma elem_of_near_5050_all db m :
  m ∈ SmartFilters.near_5050_all db ↔ m ∈ tbl_markets db ∧ near_5050 m.
Proof.
  unfold SmartFilters.near_5050_all.
  rewrite elem_of_order_by, elem_of_where. unfold Sql.keeps.
  rewrite near_5050_cond_holds. tauto.
Qed.

(** In a list sorted by a descending key, present keys never increase
    from an earlier to a later position. *)
Lemma desc_sorted_lookup {Row} (key : Row → option Qc) (rows : list Row)
  (i j : nat) (ri rj : Row) (vi vj : Qc) :
  StronglySorted (Sql.desc Qcle key) rows →
  (i < j)%nat → rows !! i = Some ri → rows !! j = Some rj →
  key ri = Some vi → key rj = Some vj → (vj ≤ vi)%Qc.
Proof.
  intros Hs. revert i j. induction Hs as [|r rows Hs IH Hall]; intros i j Hij Hi Hj Hki Hkj.
  - done.
  - destruct j as [|j]; [lia|]. destruct i as [|i]; simpl in *.
    + simplify_eq. rewrite Forall_forall in Hall.
      specialize (Hall rj (list_elem_of_lookup_2 _ _ _ Hj)).
      unfold Sql.desc in Hall. by rewrite Hki, Hkj in Hall.
    + apply (IH i j); [lia|done..].
Qed.

Lemma desc_nulls_last_sorted_lookup {Row} (key : Row → option Qc)
  (rows : list Row) (i j : nat) (ri rj : Row) :
  StronglySorted (Sql.desc_nulls_last Qcle key) rows →
  (i < j)%nat → rows !! i = Some ri → rows !! j = Some rj →
  match key ri, key rj with
  | Some vi, Some vj => (vj ≤ vi)%Qc
  | None, Some _ => False
  | _, None => True
  end.
Proof.
  intros Hs. revert i j. induction Hs as [|r rows Hs IH Hall]; intros i j Hij Hi Hj.
  - done.
  - destruct j as [|j]; [lia|]. destruct i as [|i]; simpl in *.
    + simplify_eq. rewrite Forall_forall in Hall.
      specialize (Hall rj (list_elem_of_lookup_2 _ _ _ Hj)).
      unfold Sql.desc_nulls_last, Sql.nulls_last in Hall.
      by destruct (key ri), (key rj).
    + apply (IH i j); [lia|done..].
Qed.

Lemma or3_true a b : SmartFilters.or3 a b = Some true ↔ a = Some true ∨ b = Some true.
Proof. destruct a as [[]|], b as [[]|]; simpl; intuition congruence. Qed.

Lemma high_arb_on_holds mp m :
  Sql.holds (SmartFilters.high_arb_on mp m) ↔
  marketPairs.polymarketMarketId mp = Some (markets.id m) ∨
  marketPairs.kalshiMarketId mp = Some (markets.id m).
Proof.
  unfold SmartFilters.high_arb_on, Sql.holds. rewrite or3_true.
  pose proof (eq_holds (marketPairs.polymarketMarketId mp) (markets.id m)) as H1.
  pose proof (eq_holds (marketPairs.kalshiMarketId mp) (markets.id m)) as H2.
  unfold Sql.holds in H1, H2. by rewrite H1, H2.
Qed.

Lemma elem_of_high_arb_join db mp m :
  (mp, m) ∈ SmartFilters.high_arb_join db ↔
  mp ∈ tbl_market_pairs db ∧ m ∈ tbl_markets db ∧
  (marketPairs.polymarketMarketId mp = Some (markets.id m) ∨
   marketPairs.kalshiMarketId mp = Some (markets.id m)).
Proof.
  unfold SmartFilters.high_arb_join. rewrite list_elem_of_bind. split.
  - intros (mp' & Hin & Hmp). apply list_elem_of_bind in Hin as (m' & Hin & Hm).
    case_decide as Hon; [|by apply elem_of_nil in Hin].
    apply list_elem_of_singleton in Hin. injection Hin as -> ->.
    by rewrite high_arb_on_holds in Hon.
  - intros (Hmp & Hm & Hon). exists mp. split; [|done].
    apply list_elem_of_bind. exists m. split; [|done].
    rewrite decide_True; [set_solver|]. by apply high_arb_on_holds.
Qed.

Lemma lit_0_03_pos : ¬ (SmartFilters.lit_0_03 ≤ Qcabs 0)%Qc.
Proof. by_compute. Qed.

Lemma high_arb_cond_holds mp m :
  Sql.holds (SmartFilters.high_arb_cond (mp, m)) ↔
  (∃ g, marketPairs.priceGap mp = Some g ∧ (SmartFilters.lit_0_03 ≤ Qcabs g)%Qc) ∧
  markets.status m = Some "active".
Proof.
  unfold SmartFilters.high_arb_cond.
  rewrite and_holds, !Forall_cons, Forall_nil. cbn beta. cbn [fst snd].
  rewrite eq_holds, gte_holds. unfold Sql.COALESCE.
  destruct (marketPairs.priceGap mp) as [g|]; cbn [default].
  - naive_solver.
  - split.
    + intros ((x & [= <-] & Hx) & _). by apply lit_0_03_pos in Hx.
    + intros ((g & ? & _) & _). done.
Qed.

Lemma elem_of_high_arb_all db m :
  m ∈ SmartFilters.high_arb_all db ↔
  in_high_gap_pair db m ∧ markets.status m = Some "active".
Proof.
  unfold SmartFilters.high_arb_all, Sql.distinct, in_high_gap_pair.
  rewrite elem_of_order_by, elem_of_remove_dups, list_elem_of_fmap. split.
  - intros ([mp m'] & -> & Hin). simpl.
    apply elem_of_where in Hin as [Hk Hin]. unfold Sql.keeps in Hk.
    rewrite high_arb_cond_holds in Hk. rewrite elem_of_high_arb_join in Hin.
    naive_solver.
  - intros ((Hm & mp & Hmp & Hid & Hgap) & Hact). exists (mp, m).
    split; [done|]. apply elem_of_where. split.
    + unfold Sql.keeps. rewrite high_arb_cond_holds. done.
    + by apply elem_of_high_arb_join.
Qed.

Lemma NoDup_high_arb_all db : NoDup (SmartFilters.high_arb_all db).
Proof.
  unfold SmartFilters.high_arb_all. rewrite order_by_perm.
  apply NoDup_remove_dups.
Qed.

End smart_filters.

(** C8: for every limit, the ["near_5050"] filter returns only active
    markets whose yes-price lies in the closed interval [0.45, 0.55]; it
    returns the first [limit] rows of the list of all such markets ordered
    by volume descending. *)
Theorem near_5050_filter (whale closing hottest : DB → nat → list markets.row)
  (db : DB) (limit : nat) :
  let rows :=
    SmartFilters.getSmartFilteredMarkets whale closing hottest db "near_5050" limit in
  rows = take limit (SmartFilters.near_5050_all db) ∧
  (∀ m, m ∈ SmartFilters.near_5050_all db ↔
        m ∈ tbl_markets db ∧ Reading.near_5050 m) ∧
  Forall Reading.near_5050 rows ∧
  StronglySorted (Sql.desc Qcle markets.volume) rows ∧
  (∀ i j mi mj vi vj,
     (i < j)%nat → rows !! i = Some mi → rows !! j = Some mj →
     markets.volume mi = Some vi → markets.volume mj = Some vj → (vj ≤ vi)%Qc) ∧
  (length rows ≤ limit)%nat.
Proof.
  intros rows.
  assert (rows = Sql.limit limit (SmartFilters.near_5050_all db)) as Hrows by done.
  assert (StronglySorted (Sql.desc Qcle markets.volume) rows) as Hsorted.
  { rewrite Hrows. apply limit_sorted. unfold SmartFilters.near_5050_all.
    apply order_by_sorted; apply _. }
  split; [done|]. split; [apply elem_of_near_5050_all|].
  split; [|split; [done|split]].
  - apply Forall_forall. intros m Hm. rewrite Hrows in Hm.
    apply elem_of_limit, elem_of_near_5050_all in Hm. tauto.
  - intros i j mi mj vi vj. by apply desc_sorted_lookup.
  - rewrite Hrows. apply length_limit.
Qed.

(** Both endpoints of the interval are included. *)
Example near_5050_endpoint :
  markets.yesPrice Sample.m_bitcoin = Some SmartFilters.lit_0_45 ∧
  SmartFilters.getSmartFilteredMarkets Sample.no_rows Sample.no_rows Sample.no_rows
    Sample.db_markets "near_5050" 50 = [Sample.m_bitcoin; Sample.m_election].
Proof. split; [by_compute|reflexivity]. Qed.

(** C4, as stated, fails: the resolved cup final appears in a pair whose
    gap is 0.07 and is not returned. *)
Lemma high_arb_requires_active :
  Reading.in_high_gap_pair Sample.db_pairs Sample.m_final ∧
  Sample.m_final ∉
    SmartFilters.getSmartFilteredMarkets Sample.no_rows Sample.no_rows Sample.no_rows
      Sample.db_pairs "high_arb" 50.
Proof.
  split.
  - split; [by_compute|]. exists Sample.p_wide. split; [by_compute|].
    split; [by right|]. eexists. split; [reflexivity|by_compute].
  - by_compute.
Qed.

(** C4 (amended): for every limit, the ["high_arb"] filter returns the
    first [limit] rows of the duplicate-free list of the active markets that
    appear in some pair whose absolute price gap is at least 0.03, ordered
    by volume descending with absent volumes last; being active and
    appearing in such a pair are the only conditions. *)
Theorem high_arb_filter (whale closing hottest : DB → nat → list markets.row)
  (db : DB) (limit : nat) :
  let rows :=
    SmartFilters.getSmartFilteredMarkets whale closing hottest db "high_arb" limit in
  rows = take limit (SmartFilters.high_arb_all db) ∧
  (∀ m, m ∈ SmartFilters.high_arb_all db ↔
        Reading.in_high_gap_pair db m ∧ markets.status m = Some "active") ∧
  NoDup (SmartFilters.high_arb_all db) ∧
  NoDup rows ∧
  StronglySorted (Sql.desc_nulls_last Qcle markets.volume) (SmartFilters.high_arb_all db) ∧
  StronglySorted (Sql.desc_nulls_last Qcle markets.volume) rows ∧
  (∀ i j mi mj,
     (i < j)%nat → rows !! i = Some mi → rows !! j = Some mj →
     match markets.volume mi, markets.volume mj with
     | Some vi, Some vj => (vj ≤ vi)%Qc
     | None, Some _ => False
     | _, None => True
     end) ∧
  (length rows ≤ limit)%nat.
Proof.
  intros rows.
  assert (rows = Sql.limit limit (SmartFilters.high_arb_all db)) as Hrows by done.
  assert (StronglySorted (Sql.desc_nulls_last Qcle markets.volume)
            (SmartFilters.high_arb_all db)) as Hall.
  { unfold SmartFilters.high_arb_all. apply order_by_sorted; apply _. }
  assert (StronglySorted (Sql.desc_nulls_last Qcle markets.volume) rows) as Hsorted.
  { rewrite Hrows. by apply limit_sorted. }
  split; [done|]. split; [apply elem_of_high_arb_all|].
  split; [apply NoDup_high_arb_all|]. split; [|split; [done|split; [done|split]]].
  - rewrite Hrows. unfold Sql.limit.
    apply (sublist_NoDup _ _ (NoDup_high_arb_all db)), sublist_take.
  - intros i j mi mj. by apply desc_nulls_last_sorted_lookup.
  - rewrite Hrows. apply length_limit.
Qed.

Example high_arb_sample :
  SmartFilters.getSmartFilteredMarkets Sample.no_rows Sample.no_rows Sample.no_rows
    Sample.db_pairs "high_arb" 50 = [Sample.m_bitcoin].
Proof. reflexivity. Qed.

(** ** [getAllPairs] *)

Section pairs.

Lemma whereClause_zero : Pairs.whereClause (Some 0%Qc) = None.
Proof. reflexivity. Qed.

Lemma whereClause_nonzero g :
  g ≠ 0%Qc → Pairs.whereClause (Some g) = Some (λ r, Sql.gte (Pairs.abs_gap r) g).
Proof. intros Hg. unfold Pairs.whereClause. by rewrite decide_False. Qed.

(** A LEFT JOIN loses no row of its left operand and invents none. *)
Lemma left_join_left {A B} (on : A → B → Sql.tri) (l : list A) (r : list B) a :
  a ∈ l ↔ ∃ ob, (a, ob) ∈ Pairs.left_join on l r.
Proof.
  unfold Pairs.left_join. split.
  - intros Ha. destruct (filter (λ b, Sql.holds (on a b)) r) as [|b bs] eqn:Hf.
    + exists None. apply list_elem_of_bind. exists a. rewrite Hf. set_solver.
    + exists (Some b). apply list_elem_of_bind. exists a. rewrite Hf. set_solver.
  - intros (ob & H). apply list_elem_of_bind in H as (a' & H & Ha').
    destruct (filter (λ b, Sql.holds (on a' b)) r) as [|b bs].
    + apply list_elem_of_singleton in H. by simplify_eq.
    + apply list_elem_of_fmap in H as (b' & [= -> ->] & _). done.
Qed.

Lemma joined_pairs db mp :
  mp ∈ tbl_market_pairs db ↔ ∃ r, r ∈ Pairs.joined db ∧ r.1.1 = mp.
Proof.
  unfold Pairs.joined. split.
  - intros H. apply (left_join_left
      (λ p km, Sql.eq (marketPairs.kalshiMarketId p) (markets.id km))
      _ (tbl_markets db)) in H as (km & H).
    apply (left_join_left
      (λ r pm, Sql.eq (marketPairs.polymarketMarketId r.1) (markets.id pm))
      _ (tbl_markets db)) in H as (pm & H).
    by exists (mp, km, pm).
  - intros ([[p km] pm] & H & <-). simpl.
    assert (∃ ob, (p, km, ob) ∈ Pairs.left_join
              (λ r pm, Sql.eq (marketPairs.polymarketMarketId r.1) (markets.id pm))
              (Pairs.left_join
                 (λ p km, Sql.eq (marketPairs.kalshiMarketId p) (markets.id km))
                 (tbl_market_pairs db) (tbl_markets db))
              (tbl_markets db)) as H' by eauto.
    apply left_join_left in H'.
    assert (∃ ob, (p, ob) ∈ Pairs.left_join
              (λ p km, Sql.eq (marketPairs.kalshiMarketId p) (markets.id km))
              (tbl_market_pairs db) (tbl_markets db)) as H'' by eauto.
    by apply left_join_left in H''.
Qed.

Lemma select_mp r : Pairs.mp (Pairs.select r) = r.1.1.
Proof. by destruct r as [[p km] pm]. Qed.

Lemma elem_of_getAllPairs db minGap row :
  row ∈ Pairs.getAllPairs db minGap ↔
  ∃ r, row = Pairs.select r ∧ Sql.keeps (Pairs.whereClause minGap) r ∧
       r ∈ Pairs.joined db.
Proof.
  unfold Pairs.getAllPairs. rewrite list_elem_of_fmap.
  by setoid_rewrite elem_of_order_by; setoid_rewrite elem_of_where.
Qed.

End pairs.

(** C10: [getAllPairs] treats [minGap = 0] exactly like an omitted
    [minGap]: no gap filter is applied and every pair of the table is in
    the result, those with a NULL [price_gap] included.  For [minGap > 0] the
    result holds exactly the pairs with [abs(price_gap) >= minGap], so no
    pair with a NULL [price_gap]. *)
Theorem getAllPairs_minGap (db : DB) :
  Pairs.getAllPairs db (Some 0%Qc) = Pairs.getAllPairs db None ∧
  (∀ mp, mp ∈ tbl_market_pairs db ↔
         ∃ row, row ∈ Pairs.getAllPairs db (Some 0%Qc) ∧ Pairs.mp row = mp) ∧
  (∀ g mp, (0 < g)%Qc →
     (∃ row, row ∈ Pairs.getAllPairs db (Some g) ∧ Pairs.mp row = mp) ↔
     mp ∈ tbl_market_pairs db ∧
     ∃ x, marketPairs.priceGap mp = Some x ∧ (g ≤ Qcabs x)%Qc) ∧
  (∀ g row, (0 < g)%Qc → row ∈ Pairs.getAllPairs db (Some g) →
     marketPairs.priceGap (Pairs.mp row) ≠ None).
Proof.
  assert (∀ g mp, (0 < g)%Qc →
     (∃ row, row ∈ Pairs.getAllPairs db (Some g) ∧ Pairs.mp row = mp) ↔
     mp ∈ tbl_market_pairs db ∧
     ∃ x, marketPairs.priceGap mp = Some x ∧ (g ≤ Qcabs x)%Qc) as Hpos.
  { intros g mp Hg.
    assert (g ≠ 0%Qc) as Hne by (intros ->; by apply Qclt_not_eq in Hg).
    setoid_rewrite elem_of_getAllPairs. rewrite (whereClause_nonzero g Hne).
    unfold Sql.keeps. setoid_rewrite gte_holds. unfold Pairs.abs_gap, Sql.ABS.
    rewrite joined_pairs. split.
    - intros (row & (r & -> & (x & Hx & Hle) & Hr) & <-). rewrite select_mp.
      split; [by exists r|].
      destruct (marketPairs.priceGap r.1.1) as [y|]; simplify_eq/=. eauto.
    - intros ((r & Hr & <-) & x & Hx & Hle). exists (Pairs.select r).
      split; [|apply select_mp]. exists r. split; [done|]. split; [|done].
      exists (Qcabs x). by rewrite Hx. }
  split; [done|]. split; [|split; [done|]].
  - intros mp. rewrite joined_pairs. setoid_rewrite elem_of_getAllPairs.
    rewrite whereClause_zero. split.
    + intros (r & Hr & <-). exists (Pairs.select r). split; [|apply select_mp].
      by exists r.
    + intros (row & (r & -> & _ & Hr) & <-). exists r. by rewrite select_mp.
  - intros g row Hg Hrow.
    destruct (proj1 (Hpos g (Pairs.mp row) Hg)) as (_ & x & -> & _); [eauto|done].
Qed.

Lemma getAllPairs_minGap_witness :
  (∃ row, row ∈ Pairs.getAllPairs Sample.db_pairs (Some 0%Qc) ∧
          Pairs.mp row = Sample.p_unknown) ∧
  marketPairs.priceGap Sample.p_unknown = None ∧
  ¬ (∃ row, row ∈ Pairs.getAllPairs Sample.db_pairs (Some (Q2Qc (5 # 100))) ∧
            Pairs.mp row = Sample.p_unknown).
Proof.
  destruct (getAllPairs_minGap Sample.db_pairs) as (_ & Hzero & Hpos & _).
  split; [|split].
  - apply Hzero. by_compute.
  - reflexivity.
  - intros H. apply Hpos in H as (_ & x & Hx & _); [discriminate Hx|by_compute].
Defined.

(** ** [getLatestTraderPositions] *)

Section latest_positions.







End latest_positions.




(** ** The watchlist *)

Section watchlist.

Lemma set_watchlist_id db :
  Traders.set_watchlist db (tbl_trader_watchlist db) (seq_trader_watchlist db) = db.
Proof. by destruct db. Qed.

Lemma filter_all {A} (P : A → Prop) `{∀ x, Decision (P x)} (l : list A) :
  Forall P l → filter P l = l.
Proof.
  induction 1 as [|x l Hx _ IH]; [done|].
  by rewrite filter_cons_True, IH.
Qed.

(** What the [catch] makes of an error out of the engine is decided by the
    text the installation gives it. *)
Lemma catch_duplicate_engine db c :
  Traders.catch_duplicate db (DbError c) =
    if Reading.reads_as_duplicate db c then Ok false else Err (DbError c).
Proof. reflexivity. Qed.

(** The four outcomes of the insert. *)
Lemma insert_watchlist_out_of_range db traderId createdAt :
  ¬ Sql.int4 traderId →
  Traders.insert_watchlist db traderId createdAt =
    (db, Err (DbError (Reading.out_of_range traderId))).
Proof.
  intros Hr. unfold Traders.insert_watchlist. by rewrite bind_int4_Err.
Qed.

Lemma insert_watchlist_conflict db traderId createdAt :
  Sql.int4 traderId → Traders.watched db traderId →
  Traders.insert_watchlist db traderId createdAt =
    (Reading.spent db, Err Traders.unique_violation).
Proof.
  intros Hr Hw. unfold Traders.insert_watchlist. rewrite bind_int4_Ok by done.
  by rewrite bool_decide_eq_true_2.
Qed.

Lemma insert_watchlist_dangling db traderId createdAt :
  Sql.int4 traderId → ¬ Traders.watched db traderId →
  traderId ∉ traders.id <$> tbl_traders db →
  Traders.insert_watchlist db traderId createdAt =
    (Reading.spent db, Err Traders.foreign_key_violation).
Proof.
  intros Hr Hw Ht. unfold Traders.insert_watchlist. rewrite bind_int4_Ok by done.
  by rewrite !bool_decide_eq_false_2.
Qed.

(** The outcomes of [addToWatchlist]. *)
Lemma addToWatchlist_out_of_range db now traderId :
  ¬ Sql.int4 traderId →
  Traders.addToWatchlist db now traderId =
    (db, Traders.catch_duplicate db (DbError (Reading.out_of_range traderId))).
Proof.
  intros Hr. unfold Traders.addToWatchlist.
  by rewrite insert_watchlist_out_of_range.
Qed.

Lemma addToWatchlist_watched db now traderId :
  Sql.int4 traderId → Traders.watched db traderId →
  Traders.addToWatchlist db now traderId =
    (Reading.spent db, Traders.catch_duplicate db Traders.unique_violation).
Proof.
  intros Hr Hw. unfold Traders.addToWatchlist.
  by rewrite insert_watchlist_conflict.
Qed.

Lemma addToWatchlist_new db now t :
  Sql.int4 t → ¬ Traders.watched db t → t ∈ traders.id <$> tbl_traders db →
  Traders.addToWatchlist db now t =
    (Traders.set_watchlist db
       (tbl_trader_watchlist db ++ [Traders.new_watch db now t])%list
       (seq_trader_watchlist db + 1), Ok true).
Proof.
  intros Hr Hw Ht. unfold Traders.addToWatchlist, Traders.insert_watchlist.
  rewrite bind_int4_Ok by done.
  rewrite bool_decide_eq_false_2 by done. by rewrite bool_decide_eq_true_2.
Qed.

Lemma addToWatchlist_dangling db now t :
  Sql.int4 t → ¬ Traders.watched db t → t ∉ traders.id <$> tbl_traders db →
  Traders.addToWatchlist db now t =
    (Reading.spent db, Traders.catch_duplicate db Traders.foreign_key_violation).
Proof.
  intros Hr Hw Ht. unfold Traders.addToWatchlist.
  by rewrite insert_watchlist_dangling.
Qed.

(** Every path of [addToWatchlist] but the successful insert leaves the
    rows of the watchlist as they were. *)
Lemma addToWatchlist_cases db now t :
  (Sql.int4 t ∧ ¬ Traders.watched db t ∧ t ∈ traders.id <$> tbl_traders db ∧
   Traders.addToWatchlist db now t =
     (Traders.set_watchlist db
        (tbl_trader_watchlist db ++ [Traders.new_watch db now t])%list
        (seq_trader_watchlist db + 1), Ok true)) ∨
  (∃ c,
     (c = Reading.out_of_range t ∧ ¬ Sql.int4 t ∧
      (Traders.addToWatchlist db now t).1 = db ∨
      (c = UniqueViolation ∧ Sql.int4 t ∧ Traders.watched db t ∨
       c = ForeignKeyViolation ∧ Sql.int4 t ∧ ¬ Traders.watched db t ∧
       (t ∉ traders.id <$> tbl_traders db)) ∧
      (Traders.addToWatchlist db now t).1 = Reading.spent db) ∧
     (Traders.addToWatchlist db now t).2 = Traders.catch_duplicate db (DbError c)).
Proof.
  destruct (decide (Sql.int4 t)) as [Hr|Hr].
  - destruct (decide (Traders.watched db t)) as [Hw|Hw].
    + right. exists UniqueViolation. rewrite addToWatchlist_watched by done.
      split; [right; split; [left|]|]; done.
    + destruct (decide (t ∈ traders.id <$> tbl_traders db)) as [Ht|Ht].
      * left. by rewrite addToWatchlist_new.
      * right. exists ForeignKeyViolation. rewrite addToWatchlist_dangling by done.
        split; [right; split; [right|]|]; done.
  - right. exists (Reading.out_of_range t).
    rewrite addToWatchlist_out_of_range by done. split; [left|]; done.
Qed.

Lemma catch_duplicate_cases db c :
  Traders.catch_duplicate db (DbError c) = Ok false ∨
  Traders.catch_duplicate db (DbError c) = Err (DbError c).
Proof.
  rewrite catch_duplicate_engine.
  destruct (Reading.reads_as_duplicate db c); [by left|by right].
Qed.

Lemma removeFromWatchlist_in_range db traderId :
  Sql.int4 traderId →
  Traders.removeFromWatchlist db traderId =
    (Traders.set_watchlist db
       (filter (λ r, traderWatchlist.traderId r ≠ traderId) (tbl_trader_watchlist db))
       (seq_trader_watchlist db), Ok ()).
Proof.
  intros Hr. unfold Traders.removeFromWatchlist. by rewrite bind_int4_Ok.
Qed.

Lemma removeFromWatchlist_out_of_range db traderId :
  ¬ Sql.int4 traderId →
  Traders.removeFromWatchlist db traderId =
    (db, Err (DbError (Reading.out_of_range traderId))).
Proof.
  intros Hr. unfold Traders.removeFromWatchlist. by rewrite bind_int4_Err.
Qed.

Lemma removeFromWatchlist_unwatched db traderId :
  Sql.int4 traderId → ¬ Traders.watched db traderId →
  Traders.removeFromWatchlist db traderId = (db, Ok ()).
Proof.
  intros Hr Hw. rewrite removeFromWatchlist_in_range by done. rewrite filter_all.
  - by rewrite set_watchlist_id.
  - apply Forall_forall. intros r Hr' Heq. apply Hw.
    unfold Traders.watched. rewrite <-Heq. by apply list_elem_of_fmap_2.
Qed.

Lemma removeFromWatchlist_unwatches db traderId :
  Sql.int4 traderId →
  ¬ Traders.watched (Traders.removeFromWatchlist db traderId).1 traderId.
Proof.
  intros Hr. rewrite removeFromWatchlist_in_range by done.
  unfold Traders.watched. simpl.
  intros (r & Heq & Hr')%list_elem_of_fmap.
  apply list_elem_of_filter in Hr' as [Hne _]. done.
Qed.

(** The watchlist mutations touch no other table. *)
Lemma add_other_tables db now t :
  Reading.same_but_watchlist db (Traders.addToWatchlist db now t).1.
Proof.
  destruct (addToWatchlist_cases db now t)
    as [(_ & _ & _ & ->)|(c & [(_ & _ & ->)|[_ ->]] & _)]; by repeat split.
Qed.

Lemma remove_other_tables db t :
  Reading.same_but_watchlist db (Traders.removeFromWatchlist db t).1.
Proof.
  destruct (decide (Sql.int4 t)) as [Hr|Hr].
  - rewrite removeFromWatchlist_in_range by done. by repeat split.
  - rewrite removeFromWatchlist_out_of_range by done. by repeat split.
Qed.

Lemma toggle_other_tables db now t isWatched :
  Reading.same_but_watchlist db (Actions.toggleWatchlistAction db now t isWatched).1.
Proof.
  unfold Actions.toggleWatchlistAction. destruct isWatched.
  - apply remove_other_tables.
  - pose proof (add_other_tables db now t) as H.
    by destruct (Traders.addToWatchlist db now t) as [db' [b|e]].
Qed.

End watchlist.

(** C6, as stated, fails on two counts.  Whether the unique violation is
    taken for one is decided by the text of the error: behind a query
    builder that wraps the driver's error in one that shows the failed
    statement, the text mentions neither [unique] nor [duplicate], and the
    violation reaches the caller of [addToWatchlist] and of the toggle
    action.  And a delete for a trader id that does not fit the 32-bit
    column, for which there is no watchlist entry, raises an error. *)
Lemma watchlist_conflict_can_surface :
  Traders.watched Sample.db_traders_wrapped 7 ∧
  (Traders.addToWatchlist Sample.db_traders_wrapped 1700000000000 7).2 =
    Err Traders.unique_violation ∧
  (Actions.toggleWatchlistAction Sample.db_traders_wrapped 1700000000000 7 false).2 =
    Err Traders.unique_violation ∧
  ¬ Traders.watched Sample.db_traders (2 ^ 31) ∧
  Traders.removeFromWatchlist Sample.db_traders (2 ^ 31) =
    (Sample.db_traders, Err (DbError NumericValueOutOfRange)).
Proof.
  split; [by_compute|]. split; [by vm_compute|]. split; [by vm_compute|].
  split; [by_compute|]. by vm_compute.
Qed.

(** C6 (amended): for a trader id that fits the column, an insert for a
    trader who is already watched hits the unique constraint and leaves the
    rows of the watchlist and of every other table as they were;
    [addToWatchlist] and the toggle action return normally exactly when the
    text that the installation gives the error mentions [unique] or
    [duplicate], and otherwise hand the violation to the caller.  A delete
    for a trader who is not watched changes nothing and raises no error,
    and a delete never raises one.  For a trader id that does not fit the
    column the delete changes nothing and raises the engine's error, and
    the insert changes nothing. *)
Theorem watchlist_conflicts_are_benign (db : DB) (now traderId : Z) :
  (Sql.int4 traderId →
   (Traders.watched db traderId →
    ∃ db',
      tbl_trader_watchlist db' = tbl_trader_watchlist db ∧
      Reading.same_but_watchlist db db' ∧
      (Reading.reads_as_duplicate db UniqueViolation = true →
       Traders.addToWatchlist db now traderId = (db', Ok false) ∧
       Actions.toggleWatchlistAction db now traderId false = (db', Ok ())) ∧
      (Reading.reads_as_duplicate db UniqueViolation = false →
       Traders.addToWatchlist db now traderId = (db', Err Traders.unique_violation) ∧
       Actions.toggleWatchlistAction db now traderId false =
         (db', Err Traders.unique_violation))) ∧
   (¬ Traders.watched db traderId →
    Traders.removeFromWatchlist db traderId = (db, Ok ()) ∧
    Actions.toggleWatchlistAction db now traderId true = (db, Ok ())) ∧
   (Traders.removeFromWatchlist db traderId).2 = Ok () ∧
   ¬ Traders.watched (Traders.removeFromWatchlist db traderId).1 traderId) ∧
  (¬ Sql.int4 traderId →
   Traders.removeFromWatchlist db traderId =
     (db, Err (DbError (Reading.out_of_range traderId))) ∧
   (Traders.addToWatchlist db now traderId).1 = db).
Proof.
  split.
  - intros Hr. split; [|split; [|split]].
    + intros Hw. exists (Reading.spent db). split; [done|].
      split; [by repeat split|].
      unfold Actions.toggleWatchlistAction.
      rewrite addToWatchlist_watched by done.
      unfold Traders.unique_violation. rewrite catch_duplicate_engine.
      split; intros ->; done.
    + intros Hw. split.
      * by apply removeFromWatchlist_unwatched.
      * unfold Actions.toggleWatchlistAction. by apply removeFromWatchlist_unwatched.
    + by rewrite removeFromWatchlist_in_range.
    + by apply removeFromWatchlist_unwatches.
  - intros Hr. split; [by apply removeFromWatchlist_out_of_range|].
    by rewrite addToWatchlist_out_of_range.
Qed.

Lemma watchlist_conflicts_are_benign_witness :
  Sql.int4 7 ∧ Traders.watched Sample.db_traders 7 ∧
  Reading.reads_as_duplicate Sample.db_traders UniqueViolation = true ∧
  (Traders.addToWatchlist Sample.db_traders 1700000000000 7).2 = Ok false ∧
  tbl_trader_watchlist (Traders.addToWatchlist Sample.db_traders 1700000000000 7).1 =
    tbl_trader_watchlist Sample.db_traders ∧
  ¬ Traders.watched Sample.db_traders 8 ∧
  Traders.removeFromWatchlist Sample.db_traders 8 = (Sample.db_traders, Ok ()).
Proof.
  assert (Sql.int4 7) as Hr7 by by_compute.
  assert (Sql.int4 8) as Hr8 by by_compute.
  assert (Traders.watched Sample.db_traders 7) as Hw by by_compute.
  assert (¬ Traders.watched Sample.db_traders 8) as Hu by by_compute.
  assert (Reading.reads_as_duplicate Sample.db_traders UniqueViolation = true) as Hd
    by reflexivity.
  destruct (proj1 (watchlist_conflicts_are_benign Sample.db_traders 1700000000000 7) Hr7)
    as (Hadd & _).
  destruct (proj1 (watchlist_conflicts_are_benign Sample.db_traders 1700000000000 8) Hr8)
    as (_ & Hdel & _).
  destruct (Hadd Hw) as (db' & Hrows & _ & Hcaught & _).
  destruct (Hcaught Hd) as (Heq & _).
  destruct (Hdel Hu) as (Hrm & _).
  split; [exact Hr7|]. split; [exact Hw|]. split; [exact Hd|].
  rewrite Heq. split; [reflexivity|].
  split; [exact Hrows|]. split; [exact Hu|exact Hrm].
Defined.

(** ** Alert acknowledgement *)

Section alerts_ack.

Lemma set_alerts_id db : Alerts.set_alerts db (tbl_alerts db) = db.
Proof. by destruct db. Qed.

Lemma ack_row_id alertId a : alerts.id (Alerts.ack_row alertId a) = alerts.id a.
Proof. unfold Alerts.ack_row. by case_decide. Qed.

Lemma ack_row_hit alertId a :
  alerts.id a = alertId → alerts.acknowledged (Alerts.ack_row alertId a) = Some 1.
Proof.
  intros <-. unfold Alerts.ack_row. rewrite decide_True; [done|]. by apply eq_holds.
Qed.

Lemma ack_row_miss alertId a : alerts.id a ≠ alertId → Alerts.ack_row alertId a = a.
Proof.
  intros Hne. unfold Alerts.ack_row. rewrite decide_False; [done|].
  rewrite eq_holds. congruence.
Qed.

Lemma ack_row_keeps alertId a :
  alerts.acknowledged a = Some 1 → alerts.acknowledged (Alerts.ack_row alertId a) = Some 1.
Proof. intros H. unfold Alerts.ack_row. by case_decide. Qed.

Lemma ack_row_idemp alertId a : Alerts.ack_row alertId (Alerts.ack_row alertId a) = Alerts.ack_row alertId a.
Proof.
  unfold Alerts.ack_row.
  destruct (decide (Sql.holds (Sql.eq (Some (alerts.id a)) alertId))) as [H|H].
  - rewrite decide_True; [done|exact H].
  - by rewrite decide_False.
Qed.

Lemma acknowledgeAlert_alerts db alertId :
  tbl_alerts (Alerts.acknowledgeAlert db alertId).1 = Alerts.ack_row alertId <$> tbl_alerts db.
Proof. done. Qed.

Lemma acknowledgeAlert_keeps db alertId id' :
  Alerts.is_acknowledged db id' →
  Alerts.is_acknowledged (Alerts.acknowledgeAlert db alertId).1 id'.
Proof.
  intros (a & Ha & Hid & Hack). exists (Alerts.ack_row alertId a).
  rewrite acknowledgeAlert_alerts. split; [by apply list_elem_of_fmap_2|].
  split; [by rewrite ack_row_id|by apply ack_row_keeps].
Qed.

Lemma toggle_keeps_alerts db now traderId isWatched :
  tbl_alerts (Actions.toggleWatchlistAction db now traderId isWatched).1 = tbl_alerts db.
Proof.
  by destruct (toggle_other_tables db now traderId isWatched) as (_ & _ & _ & ? & _).
Qed.

Lemma step_keeps db act id' :
  Alerts.is_acknowledged db id' → Alerts.is_acknowledged (Actions.step db act) id'.
Proof.
  destruct act as [now traderId isWatched|alertId]; simpl.
  - unfold Alerts.is_acknowledged. by rewrite toggle_keeps_alerts.
  - apply acknowledgeAlert_keeps.
Qed.

Lemma run_keeps db acts id' :
  Alerts.is_acknowledged db id' → Alerts.is_acknowledged (Actions.run db acts) id'.
Proof.
  unfold Actions.run. revert db. induction acts as [|act acts IH]; intros db H.
  - done.
  - simpl. by apply IH, step_keeps.
Qed.

End alerts_ack.

(** C7, as stated, fails: [2^31] is an id that no alert carries, and
    acknowledging it is not a harmless no-op: the id does not fit the
    32-bit column and the engine rejects the statement. *)
Lemma acknowledgeAlert_out_of_range_throws :
  Forall (λ a, alerts.id a ≠ 2 ^ 31) (tbl_alerts Sample.db_traders) ∧
  Alerts.acknowledgeAlert Sample.db_traders (2 ^ 31) =
    (Sample.db_traders, Err (DbError NumericValueOutOfRange)) ∧
  Actions.acknowledgeAlertAction Sample.db_traders (2 ^ 31) =
    (Sample.db_traders, Err (DbError NumericValueOutOfRange)).
Proof. split; [by_compute|]. split; by vm_compute. Qed.

(** C7 (amended): acknowledging an alert whose id fits the 32-bit column
    sets its flag to 1, touches no other alert and returns normally;
    acknowledging the same id again has the same outcome and leaves the
    store as it was after the first time; acknowledging an id no alert
    carries leaves the store unchanged; an id that does not fit the column
    is answered with the engine's error, and with the stored ids all
    fitting it changes nothing; and no sequence of the exposed mutations
    takes an acknowledged alert back to unacknowledged. *)
Theorem acknowledgement_idempotent_one_way (db : DB) (alertId : Z) :
  let db1 := (Alerts.acknowledgeAlert db alertId).1 in
  (Sql.int4 alertId →
   ∀ a, a ∈ tbl_alerts db1 → alerts.id a = alertId → alerts.acknowledged a = Some 1) ∧
  (Sql.int4 alertId → (∃ a, a ∈ tbl_alerts db ∧ alerts.id a = alertId) →
   Alerts.is_acknowledged db1 alertId) ∧
  (∀ a, a ∈ tbl_alerts db → alerts.id a ≠ alertId → a ∈ tbl_alerts db1) ∧
  (Sql.int4 alertId → (Alerts.acknowledgeAlert db alertId).2 = Ok ()) ∧
  (¬ Sql.int4 alertId →
   (Alerts.acknowledgeAlert db alertId).2 = Err (DbError (Reading.out_of_range alertId))) ∧
  Alerts.acknowledgeAlert db1 alertId = (db1, (Alerts.acknowledgeAlert db alertId).2) ∧
  ((∀ a, a ∈ tbl_alerts db → alerts.id a ≠ alertId) →
   (Alerts.acknowledgeAlert db alertId).1 = db) ∧
  ((∀ a, a ∈ tbl_alerts db → Sql.int4 (alerts.id a)) → ¬ Sql.int4 alertId →
   Alerts.acknowledgeAlert db alertId =
     (db, Err (DbError (Reading.out_of_range alertId)))) ∧
  (∀ acts id', Alerts.is_acknowledged db id' →
               Alerts.is_acknowledged (Actions.run db acts) id').
Proof.
  intros db1.
  assert ((∀ a, a ∈ tbl_alerts db → alerts.id a ≠ alertId) →
          (Alerts.acknowledgeAlert db alertId).1 = db) as Hnone.
  { intros Hnone. unfold Alerts.acknowledgeAlert. cbn [fst].
    etransitivity; [|apply set_alerts_id]. f_equal.
    etransitivity; [|apply list_fmap_id]. apply list_fmap_ext.
    intros i a Hi. apply ack_row_miss, Hnone.
    by eapply list_elem_of_lookup_2. }
  assert (¬ Sql.int4 alertId →
          (Alerts.acknowledgeAlert db alertId).2 =
            Err (DbError (Reading.out_of_range alertId))) as Hout.
  { intros Hr. unfold Alerts.acknowledgeAlert. cbn [snd]. by rewrite bind_int4_Err. }
  split; [|split; [|split; [|split; [|split; [done|split; [|split; [done|split]]]]]]].
  - intros _ a Ha Hid. unfold db1 in Ha. rewrite acknowledgeAlert_alerts in Ha.
    apply list_elem_of_fmap in Ha as (a0 & -> & _).
    apply ack_row_hit. by rewrite ack_row_id in Hid.
  - intros _ (a & Ha & Hid). exists (Alerts.ack_row alertId a).
    unfold db1. rewrite acknowledgeAlert_alerts.
    split; [by apply list_elem_of_fmap_2|].
    split; [by rewrite ack_row_id|by apply ack_row_hit].
  - intros a Ha Hne. unfold db1. rewrite acknowledgeAlert_alerts.
    rewrite <-(ack_row_miss alertId a Hne). by apply list_elem_of_fmap_2.
  - intros Hr. unfold Alerts.acknowledgeAlert. cbn [snd]. by rewrite bind_int4_Ok.
  - unfold db1, Alerts.acknowledgeAlert. cbn [fst snd]. f_equal.
    unfold Alerts.set_alerts. cbn. f_equal.
    rewrite <-list_fmap_compose. apply list_fmap_ext.
    intros i a _. apply ack_row_idemp.
  - intros Hall Hr. rewrite (surjective_pairing (Alerts.acknowledgeAlert db alertId)).
    rewrite Hout by done. f_equal. apply Hnone.
    intros a Ha Heq. apply Hr. rewrite <-Heq. by apply Hall.
  - intros acts id'. apply run_keeps.
Qed.

Lemma acknowledgement_idempotent_one_way_witness :
  Sql.int4 1 ∧
  Alerts.is_acknowledged (Alerts.acknowledgeAlert Sample.db_traders 1).1 1 ∧
  (Alerts.acknowledgeAlert Sample.db_traders 1).2 = Ok () ∧
  Alerts.acknowledgeAlert Sample.db_traders 99 = (Sample.db_traders, Ok ()) ∧
  Alerts.is_acknowledged
    (Actions.run Sample.db_traders
       [Actions.AcknowledgeAlert 1; Actions.ToggleWatchlist 1700000000000 7 true;
        Actions.AcknowledgeAlert 1; Actions.ToggleWatchlist 1700000000000 7 false]) 2.
Proof.
  assert (Sql.int4 1) as Hr1 by by_compute.
  assert (Sql.int4 99) as Hr99 by by_compute.
  destruct (acknowledgement_idempotent_one_way Sample.db_traders 1)
    as (_ & Hset & _ & Hok & _ & _ & _ & _ & Hkeep).
  destruct (acknowledgement_idempotent_one_way Sample.db_traders 99)
    as (_ & _ & _ & Hok' & _ & _ & Hnone & _).
  split; [exact Hr1|]. split; [|split; [exact (Hok Hr1)|split]].
  - apply (Hset Hr1). exists (Sample.alert 1 (Some 0)). split; [by_compute|reflexivity].
  - apply injective_projections; cbn [fst snd]; [|exact (Hok' Hr99)].
    apply Hnone. intros a Ha.
    apply elem_of_cons in Ha as [Heq|Ha]; [by subst a|].
    apply elem_of_cons in Ha as [Heq|Ha]; [by subst a|].
    by apply elem_of_nil in Ha.
  - apply Hkeep. exists (Sample.alert 2 (Some 1)).
    split; [by_compute|split; reflexivity].
Defined.

(** * Further properties of the query layer *)

(** ** Lookups by key *)

Section lookups.
Context {Row : Type}.

Lemma head_limit_1 (rows : list Row) : head (Sql.limit 1 rows) = head rows.
Proof. by destruct rows. Qed.

Lemma head_filter_None (P : Row → Prop) `{∀ r, Decision (P r)} (rows : list Row) :
  head (filter P rows) = None ↔ ∀ r, r ∈ rows → ¬ P r.
Proof.
  induction rows as [|x rows IH].
  - split; [|done]. intros _ r Hr. by apply elem_of_nil in Hr.
  - destruct (decide (P x)) as [Hx|Hx].
    + rewrite filter_cons_True by done. split; [done|].
      intros Hall. exfalso. apply (Hall x); [by left|done].
    + rewrite filter_cons_False by done. rewrite IH. split.
      * intros Hall r [->|Hr]%elem_of_cons; [done|by apply Hall].
      * intros Hall r Hr. apply Hall. by right.
Qed.

Lemma head_filter_Some (P : Row → Prop) `{∀ r, Decision (P r)} (rows : list Row) r :
  head (filter P rows) = Some r → r ∈ rows ∧ P r.
Proof.
  intros Hh. assert (r ∈ filter P rows) as Hin.
  { destruct (filter P rows) as [|y l]; simplify_eq/=. by left. }
  apply list_elem_of_filter in Hin. tauto.
Qed.

(** With a unique key the first row under a key is the only one. *)
Lemma head_filter_unique {K} `{EqDecision K} (key : Row → K) (rows : list Row) r :
  NoDup (key <$> rows) → r ∈ rows →
  head (filter (λ x, key x = key r) rows) = Some r.
Proof.
  induction rows as [|x rows IH]; intros Hnd Hr.
  - by apply elem_of_nil in Hr.
  - rewrite fmap_cons in Hnd. apply NoDup_cons in Hnd as [Hx Hnd].
    apply elem_of_cons in Hr as [->|Hr].
    + by rewrite filter_cons_True.
    + rewrite filter_cons_False; [by apply IH|].
      intros Heq. apply Hx. rewrite Heq. by apply list_elem_of_fmap_2.
Qed.

End lookups.




(** ** Sorted arrangements *)

Section arrangements.
Context {A : Type} (R : relation A).

(** Rows of which no two tie have one sorted arrangement only, so every
    engine returns them in the same order. *)
Lemma sorted_arrangement_unique (l1 l2 : list A) :
  Reading.no_ties R l1 → StronglySorted R l1 → StronglySorted R l2 →
  l1 ≡ₚ l2 → l1 = l2.
Proof.
  revert l2. induction l1 as [|x l1 IH]; intros l2 Hties Hs1 Hs2 Hp.
  - by rewrite Permutation_nil_l in Hp.
  - destruct l2 as [|y l2]; [by rewrite Permutation_nil_r in Hp|].
    apply StronglySorted_inv in Hs1 as [Hs1 Hx].
    apply StronglySorted_inv in Hs2 as [Hs2 Hy].
    rewrite Forall_forall in Hx, Hy.
    assert (x = y) as <-.
    { assert (x ∈ y :: l2) as Hxin by (rewrite <-Hp; by left).
      assert (y ∈ x :: l1) as Hyin by (rewrite Hp; by left).
      apply elem_of_cons in Hxin as [?|Hxin]; [done|].
      apply elem_of_cons in Hyin as [?|Hyin]; [done|].
      apply Hties; [by left|by right|by apply Hx|by apply Hy]. }
    f_equal. apply IH; [|done|done|by eapply Permutation_cons_inv].
    intros a b Ha Hb. apply Hties; by right.
Qed.

Lemma no_ties_perm (l1 l2 : list A) :
  l1 ≡ₚ l2 → Reading.no_ties R l1 → Reading.no_ties R l2.
Proof.
  intros Hp Hties a b Ha Hb. apply Hties; by rewrite Hp.
Qed.

Lemma order_by_arrangement `{!RelDecision R, !Transitive R, !Total R} (rows : list A) :
  Reading.sorted_arrangement R rows (Sql.order_by R rows).
Proof. split; [apply order_by_perm|by apply order_by_sorted]. Qed.

Lemma arrangement_unique `{!RelDecision R, !Transitive R, !Total R} (rows out : list A) :
  Reading.no_ties R rows → Reading.sorted_arrangement R rows out →
  out = Sql.order_by R rows.
Proof.
  intros Hties [Hp Hs]. apply sorted_arrangement_unique; [|done| |].
  - by apply (no_ties_perm rows).
  - by apply order_by_sorted.
  - by rewrite order_by_perm.
Qed.

End arrangements.

(** ** [searchMarkets] and the first page of [getMarkets] *)

Lemma searchMarkets_keeps db query m :
  query ≠ "" ∨ Reading.folds_ascii db →
  Sql.keeps (Some (Sql.and_ [Markets.search_cond db query; Markets.status_cond "active"])) m ↔
  Reading.selects db (Sample.params None None None (Some query) None None) m.
Proof.
  intros Hq. unfold Sql.keeps. rewrite and_holds, Forall_cons, Forall_singleton.
  unfold Markets.search_cond, Markets.status_cond, Reading.selects. simpl.
  rewrite eq_holds. split.
  - intros [Hs Hst]. split; [by right|]. split; [done|]. split; [done|]. by right.
  - intros (Hst & _ & _ & Hs). split.
    + destruct Hs as [->|Hs]; [|done].
      destruct Hq as [?|Hfold]; [done|]. by apply ilike_empty_query.
    + destruct Hst as [Hin|Hst]; [|done]. set_solver.
Qed.

Lemma searchMarkets_matching db query :
  query ≠ "" ∨ Reading.folds_ascii db →
  Sql.where_
    (Some (Sql.and_ [Markets.search_cond db query; Markets.status_cond "active"]))
    (tbl_markets db) =
  Markets.matching db (Sample.params None None None (Some query) None None).
Proof.
  intros Hq. rewrite matching_filter. unfold Sql.where_. apply list_filter_iff.
  intros m. by rewrite searchMarkets_keeps.
Qed.

(** X2: [searchMarkets(query, 50)] and the first page that [getMarkets]
    returns for the same search text and no other parameter select from
    the same rows, the active markets whose title the pattern matches (for
    the empty text, where the engine folds ASCII case as usual, all active
    markets).  When no two of these rows tie on volume, both calls return
    the same list, the first 50 rows of their one arrangement by volume
    descending, in whatever order the engine returns tied rows
    otherwise. *)
Theorem searchMarkets_is_first_page (db : DB) (query : string) :
  query ≠ "" ∨ Reading.folds_ascii db →
  let p := Sample.params None None None (Some query) None None in
  (∀ m, m ∈ Markets.searchMarkets db query 50 → m ∈ Markets.matching db p) ∧
  (∃ env, Markets.getMarkets db p = Ok env ∧
          ∀ m, m ∈ Markets.data env → m ∈ Markets.matching db p) ∧
  (Reading.no_ties (Sql.desc Qcle markets.volume) (Markets.matching db p) →
   ∀ l, Reading.sorted_arrangement (Sql.desc Qcle markets.volume)
          (Markets.matching db p) l →
        Markets.searchMarkets db query 50 = take 50 l ∧
        ∃ env, Markets.getMarkets db p = Ok env ∧ Markets.data env = take 50 l).
Proof.
  intros Hq p.
  assert (∃ env, Markets.getMarkets db p = Ok env ∧
                 Markets.data env =
                   take 50 (Sql.order_by (Sql.desc Qcle markets.volume)
                              (Markets.matching db p))) as (env & Hget & Hdata).
  { eexists. split; [reflexivity|]. simpl. by rewrite drop_0. }
  split; [|split].
  - intros m Hm. unfold Markets.searchMarkets in Hm.
    apply elem_of_limit, elem_of_order_by in Hm.
    by rewrite searchMarkets_matching in Hm.
  - exists env. split; [done|]. intros m. by apply getMarkets_data_matching.
  - intros Hties l Hl.
    rewrite (arrangement_unique _ _ l Hties Hl). split.
    + unfold Markets.searchMarkets, Sql.limit. by rewrite searchMarkets_matching.
    + by exists env.
Qed.

Lemma searchMarkets_is_first_page_witness :
  Markets.searchMarkets Sample.db_markets "o" 50 = [Sample.m_bitcoin; Sample.m_election] ∧
  ∃ env, Markets.getMarkets Sample.db_markets
           (Sample.params None None None (Some "o") None None) = Ok env ∧
         Markets.data env = [Sample.m_bitcoin; Sample.m_election].
Proof.
  destruct (searchMarkets_is_first_page Sample.db_markets "o" ltac:(by left))
    as (_ & _ & Hsame).
  apply (Hsame ltac:(by_compute) [Sample.m_bitcoin; Sample.m_election]).
  split; [by_compute|by_compute].
Defined.

(** ** [getMarketCategories] *)

Section categories.

Lemma Boolean_string_Some c s :
  Markets.Boolean_string c = Some s ↔ c = Some s ∧ s ≠ "".
Proof.
  unfold Markets.Boolean_string. destruct c as [t|]; [|naive_solver].
  destruct (JS.truthy t) eqn:Ht.
  - apply truthy_true in Ht. naive_solver.
  - apply truthy_false in Ht. naive_solver.
Qed.

Lemma elem_of_omap_Boolean (l : list (option string)) s :
  s ∈ omap Markets.Boolean_string l ↔ Some s ∈ l ∧ s ≠ "".
Proof.
  rewrite list_elem_of_omap. setoid_rewrite Boolean_string_Some. naive_solver.
Qed.

Lemma NoDup_omap_Boolean (l : list (option string)) :
  NoDup l → NoDup (omap Markets.Boolean_string l).
Proof.
  induction 1 as [|c l Hc _ IH]; simpl; [constructor|].
  destruct (Markets.Boolean_string c) as [s|] eqn:Hs; [|done].
  apply Boolean_string_Some in Hs as [-> _]. constructor; [|done].
  rewrite elem_of_omap_Boolean. naive_solver.
Qed.

Lemma sorted_omap_Boolean (l : list (option string)) :
  StronglySorted (Sql.nulls_last Sql.text_le) l →
  StronglySorted Sql.text_le (omap Markets.Boolean_string l).
Proof.
  induction 1 as [|c l _ IH Hall]; simpl; [constructor|].
  destruct (Markets.Boolean_string c) as [s|] eqn:Hs; [|done].
  apply Boolean_string_Some in Hs as [-> _]. constructor; [done|].
  apply Forall_forall. intros t [Ht _]%elem_of_omap_Boolean.
  rewrite Forall_forall in Hall. by apply (Hall (Some t)).
Qed.

End categories.

(** X3: [getMarketCategories] lists exactly the non-empty categories that
    some active market carries, each once, in ascending text order; the
    empty string and NULL are never listed. *)
Theorem getMarketCategories_distinct_sorted (db : DB) :
  (∀ c, c ∈ Markets.getMarketCategories db ↔
        c ≠ "" ∧ ∃ m, m ∈ tbl_markets db ∧ markets.status m = Some "active" ∧
                      markets.category m = Some c) ∧
  NoDup (Markets.getMarketCategories db) ∧
  StronglySorted Sql.text_le (Markets.getMarketCategories db).
Proof.
  unfold Markets.getMarketCategories. split; [|split].
  - intros c. rewrite elem_of_omap_Boolean, elem_of_order_by.
    unfold Sql.distinct. rewrite elem_of_remove_dups, list_elem_of_fmap.
    setoid_rewrite elem_of_where. unfold Sql.keeps, Markets.status_cond.
    setoid_rewrite eq_holds. naive_solver.
  - apply NoDup_omap_Boolean. rewrite order_by_perm. apply NoDup_remove_dups.
  - apply sorted_omap_Boolean.
    apply (order_by_sorted (Sql.asc Sql.text_le (λ c : option string, c))).
Qed.

(** ** The pages of [getMarkets] *)

Section pages.


End pages.

Lemma Math_ceil_div_nonneg a : 0 ≤ a → 0 ≤ Math_ceil_div a Markets.PAGE_SIZE.
Proof.
  intros Ha. pose proof (Math_ceil_div_spec a Markets.PAGE_SIZE) as H.
  unfold Markets.PAGE_SIZE in *. lia.
Qed.



Section sorted_positions.
Context {A : Type} (R : relation A).

Lemma sorted_lookup (l : list A) (i j : nat) (x y : A) :
  StronglySorted R l → (i < j)%nat → l !! i = Some x → l !! j = Some y → R x y.
Proof.
  intros Hs. revert i j. induction Hs as [|z l Hs IH Hall]; intros i j Hij Hi Hj.
  - done.
  - destruct j as [|j]; [lia|]. destruct i as [|i]; simpl in *.
    + simplify_eq. rewrite Forall_forall in Hall.
      apply Hall. by eapply list_elem_of_lookup_2.
    + apply (IH i j); [lia|done..].
Qed.

End sorted_positions.

(** X5: under the default sort (volume descending) a market without a
    recorded volume comes before every market that has one. *)
Theorem getMarkets_unknown_volume_first (db : DB) (p : Markets.GetMarketsParams)
  (env : Markets.Envelope) (i j : nat) (mi mj : markets.row) (v : Qc) :
  Markets.order_of_sort (default "volume_desc" (Markets.sort p)) =
    Markets.Desc Markets.col_volume →
  Markets.getMarkets db p = Ok env →
  Markets.data env !! i = Some mi → Markets.data env !! j = Some mj →
  markets.volume mi = None → markets.volume mj = Some v →
  (i < j)%nat.
Proof.
  intros Ho Hget Hi Hj Hvi Hvj.
  pose proof (getMarkets_sorted db p env Hget) as Hs. rewrite Ho in Hs.
  destruct (decide (i = j)) as [->|Hne]; [congruence|].
  destruct (decide (i < j)%nat) as [|Hge]; [done|]. exfalso.
  assert (j < i)%nat as Hlt by lia.
  pose proof (sorted_lookup _ _ _ _ _ _ Hs Hlt Hj Hi) as Hr.
  simpl in Hr. unfold Sql.desc in Hr. by rewrite Hvi, Hvj in Hr.
Qed.

Lemma getMarkets_unknown_volume_first_witness :
  ∃ env,
    Markets.getMarkets Sample.db_markets
      (Sample.params None (Some "all") None None None None) = Ok env ∧
    Markets.data env = [Sample.m_final; Sample.m_bitcoin; Sample.m_election] ∧
    (0 < 1)%nat.
Proof.
  eexists. split; [reflexivity|]. split; [reflexivity|].
  eapply (getMarkets_unknown_volume_first Sample.db_markets
            (Sample.params None (Some "all") None None None None) _ 0 1
            Sample.m_final Sample.m_bitcoin (Q2Qc 1500));
    reflexivity.
Defined.

(** ** The pagination footer of the markets table *)

(** X6: when the markets table shows its pagination footer, "Showing
    a-b of n" spans exactly the rows on the page ([b - a + 1] is their
    number, [1 <= a <= b <= n]), the page lies in [1, totalPages], and an
    enabled Previous or Next button leads to a page in that range. *)
Theorem MarketsTable_footer_consistent (db : DB) (p : Markets.GetMarketsParams)
  (env : Markets.Envelope) (v : PaginationView.view) :
  Markets.getMarkets db p = Ok env →
  PaginationView.MarketsTable_footer db p = Ok (Some v) →
  1 ≤ PaginationView.start v ≤ PaginationView.end_ v ∧
  PaginationView.end_ v ≤ Markets.total env ∧
  PaginationView.end_ v - PaginationView.start v + 1 =
    Z.of_nat (length (Markets.data env)) ∧
  1 ≤ Markets.env_page env ≤ Markets.totalPages env ∧
  (PaginationView.prev_disabled v = false →
   1 ≤ PaginationView.prev_page v ≤ Markets.totalPages env) ∧
  (PaginationView.next_disabled v = false →
   1 ≤ PaginationView.next_page v ≤ Markets.totalPages env).
Proof.
  intros Hget Hfoot. unfold PaginationView.MarketsTable_footer in Hfoot.
  rewrite Hget in Hfoot. simpl in Hfoot.
  assert (Markets.data env ≠ []) as Hne.
  { intros Hnil. rewrite Hnil in Hfoot. discriminate. }
  assert (PaginationView.Pagination (Markets.env_page env) (Markets.totalPages env)
            (Markets.total env) (Markets.pageSize env) = Some v) as Hv.
  { destruct (Markets.data env); [done|]. by injection Hfoot. }
  clear Hfoot. apply getMarkets_Ok in Hget as (Hpg & _ & ->).
  cbn [Markets.data Markets.env_page Markets.totalPages Markets.total
       Markets.pageSize] in *.
  set (pg := Reading.page_of p) in *.
  set (L := Sql.order_by _ (Markets.matching db p)) in *.
  assert (length L = length (Markets.matching db p)) as HL
    by apply length_order_by.
  pose proof (Math_ceil_div_spec (Sql.count (Markets.matching db p))
                Markets.PAGE_SIZE ltac:(done)) as Hc.
  assert (Z.to_nat ((pg - 1) * Markets.PAGE_SIZE) < length L)%nat as Hoff.
  { destruct (decide (Z.to_nat ((pg - 1) * Markets.PAGE_SIZE) < length L)%nat);
      [done|]. exfalso. apply Hne. rewrite drop_ge by lia. by rewrite take_nil. }
  unfold PaginationView.Pagination in Hv.
  destruct (Z.leb_spec (Math_ceil_div (Sql.count (Markets.matching db p))
                          Markets.PAGE_SIZE) 1) as [|Hmany]; [done|].
  injection Hv as <-. cbn.
  rewrite length_take, length_drop.
  unfold Sql.count, Markets.PAGE_SIZE in *.
  repeat split; lia.
Qed.

Lemma MarketsTable_footer_consistent_witness :
  ∃ env v,
    Markets.getMarkets Sample.db_many
      (Sample.params None None None None None (Some 3)) = Ok env ∧
    PaginationView.MarketsTable_footer Sample.db_many
      (Sample.params None None None None None (Some 3)) = Ok (Some v) ∧
    PaginationView.start v = 101 ∧ PaginationView.end_ v = 120 ∧
    PaginationView.end_ v - PaginationView.start v + 1 =
      Z.of_nat (length (Markets.data env)).
Proof.
  eexists. eexists. split; [reflexivity|]. split; [reflexivity|].
  split; [reflexivity|]. split; [reflexivity|].
  eapply (MarketsTable_footer_consistent Sample.db_many
            (Sample.params None None None None None (Some 3))); reflexivity.
Defined.

(** ** The leaderboard *)

Section leaderboard.

Lemma isNotNull_holds {A} (col : option A) : Sql.holds (Sql.isNotNull col) ↔ is_Some col.
Proof.
  unfold Sql.holds, Sql.isNotNull. case_bool_decide; naive_solver.
Qed.

Lemma elem_of_ranked db orderBy t :
  t ∈ Traders.ranked db orderBy ↔
  t ∈ tbl_traders db ∧ is_Some (Traders.ranked_column orderBy t).
Proof.
  unfold Traders.ranked. rewrite elem_of_where. unfold Sql.keeps.
  rewrite isNotNull_holds. tauto.
Qed.

Lemma getTopTraders_Ok db orderBy page :
  1 ≤ JS.Number page → (JS.Number page - 1) * Markets.PAGE_SIZE ≤ 2 ^ 63 - 1 →
  Traders.getTopTraders db orderBy page =
    Ok {| Traders.tt_data :=
            take (Z.to_nat Markets.PAGE_SIZE)
              (drop (Z.to_nat ((JS.Number page - 1) * Markets.PAGE_SIZE))
                 (Sql.order_by (Sql.desc Qcle (Traders.ranked_column orderBy))
                    (Traders.ranked db orderBy)));
          Traders.tt_total := Sql.count (Traders.ranked db orderBy);
          Traders.tt_page := JS.Number page;
          Traders.tt_pageSize := Markets.PAGE_SIZE;
          Traders.tt_totalPages :=
            Math_ceil_div (Sql.count (Traders.ranked db orderBy)) Markets.PAGE_SIZE |}.
Proof.
  intros Hpg Hmax. unfold Traders.getTopTraders. cbv zeta.
  erewrite (proj2 (limit_offset_Ok _ _ _ _)); [done|].
  unfold Markets.PAGE_SIZE in *. split; [lia|done].
Qed.

Lemma getTopTraders_fails db orderBy page :
  2 ^ 63 - 1 < (JS.Number page - 1) * Markets.PAGE_SIZE →
  ∃ e, Traders.getTopTraders db orderBy page = Err e.
Proof.
  intros Hmax. unfold Traders.getTopTraders. cbv zeta.
  destruct (Sql.limit_offset _ _ _) as [rows|e] eqn:Hrows; [|by exists e].
  apply limit_offset_Ok in Hrows as [Hk _]. lia.
Qed.

End leaderboard.

(** X7: for every page [>= 1] whose offset is a safe integer
    [getTopTraders] succeeds; it ranks by [total_volume] when asked to and
    by [total_pnl] for any other key; no returned trader lacks the ranked
    value, the values never increase down the page, at most 50 traders are
    returned, and [total] counts exactly the traders that have the ranked
    value.  A page whose offset does not fit 64 bits makes the call
    fail. *)
Theorem getTopTraders_ranking (db : DB) (orderBy : string) (page : Z) :
  (1 ≤ page → (page - 1) * Markets.PAGE_SIZE ≤ JS.MAX_SAFE_INTEGER →
   ∃ res,
    Traders.getTopTraders db orderBy page = Ok res ∧
    (orderBy ≠ "total_volume" →
     Traders.getTopTraders db orderBy page = Traders.getTopTraders db "total_pnl" page) ∧
    (length (Traders.tt_data res) ≤ 50)%nat ∧
    (∀ t, t ∈ Traders.tt_data res →
          t ∈ tbl_traders db ∧ is_Some (Traders.ranked_column orderBy t)) ∧
    (∀ i j ti tj vi vj,
       (i < j)%nat →
       Traders.tt_data res !! i = Some ti → Traders.tt_data res !! j = Some tj →
       Traders.ranked_column orderBy ti = Some vi →
       Traders.ranked_column orderBy tj = Some vj → (vj ≤ vi)%Qc) ∧
    Traders.tt_total res =
      Z.of_nat (length (filter (λ t, is_Some (Traders.ranked_column orderBy t))
                          (tbl_traders db))) ∧
    (Traders.tt_totalPages res < page → Traders.tt_data res = [])) ∧
  (2 ^ 63 - 1 < (JS.Number page - 1) * Markets.PAGE_SIZE →
   ∃ e, Traders.getTopTraders db orderBy page = Err e).
Proof.
  split; [|apply getTopTraders_fails].
  intros Hpg Hsafe.
  assert (JS.Number page = page) as Hnum.
  { apply Number_safe. unfold Markets.PAGE_SIZE, JS.MAX_SAFE_INTEGER in *. lia. }
  eexists. split.
  { apply getTopTraders_Ok; rewrite Hnum;
      unfold Markets.PAGE_SIZE, JS.MAX_SAFE_INTEGER in *; lia. }
  rewrite Hnum.
  cbn [Traders.tt_data Traders.tt_total Traders.tt_totalPages].
  split; [|split; [|split; [|split; [|split]]]].
  - intros Hne. unfold Traders.getTopTraders, Traders.ranked, Traders.ranked_column.
    destruct (String.eqb_spec orderBy "total_volume"); [done|]. reflexivity.
  - rewrite length_take. unfold Markets.PAGE_SIZE. lia.
  - intros t Ht. apply subseteq_take, subseteq_drop in Ht.
    by apply elem_of_order_by, elem_of_ranked in Ht.
  - intros i j ti tj vi vj. apply desc_sorted_lookup.
    apply StronglySorted_take, StronglySorted_drop, order_by_sorted; apply _.
  - unfold Sql.count, Traders.ranked, Sql.where_. f_equal. f_equal.
    apply list_filter_iff. intros t. unfold Sql.keeps. apply isNotNull_holds.
  - intros Hlt. apply page_beyond_is_empty; [done|].
    unfold Sql.count in *. by rewrite length_order_by.
Qed.

Lemma getTopTraders_ranking_witness :
  ∃ res, Traders.getTopTraders Sample.db_leaderboard "total_pnl" 1 = Ok res ∧
         traders.id <$> Traders.tt_data res = [3; 1; 4] ∧
         Traders.tt_total res = 3 ∧
         (∀ t, t ∈ Traders.tt_data res → is_Some (traders.totalPnl t)).
Proof.
  destruct (proj1 (getTopTraders_ranking Sample.db_leaderboard "total_pnl" 1))
    as (res & Hres & _ & _ & Hin & _ & Htot & _); [lia|by_compute|].
  exists res. split; [exact Hres|]. split; [|split].
  - injection Hres as <-. reflexivity.
  - rewrite Htot. reflexivity.
  - intros t Ht. by apply Hin.
Defined.

(** ** [searchTraders] *)

Lemma ilike_holds lower col pat :
  Sql.holds (Sql.ilike lower col pat) ↔
  ∃ s, col = Some s ∧ Sql.holds (Sql.ilike lower (Some s) pat).
Proof.
  destruct col as [s|]; [naive_solver|].
  unfold Sql.holds, Sql.ilike. simpl. naive_solver.
Qed.

(** X8: [searchTraders] returns at most 20 traders, each with a user name
    that ILIKE matches against the pattern [%query%] after the engine has
    lower-cased both (on ASCII text, where the engine folds case letter by
    letter, the name then contains the query ignoring case, when the query
    has no LIKE metacharacter); a trader without a user name is never
    returned, not even for the empty query, which on such an engine finds
    every trader that has a name. *)
Theorem searchTraders_needs_user_name (db : DB) (query : string) :
  (length (Traders.searchTraders db query) ≤ 20)%nat ∧
  (∀ t, t ∈ Traders.searchTraders db query →
        t ∈ tbl_traders db ∧
        ∃ name, traders.userName t = Some name ∧
                Sql.holds (Sql.ilike (engine_lower (installation db))
                             (Some name) ("%" ++ query ++ "%")) ∧
                (Reading.folds_ascii db →
                 Reading.is_ascii name → Reading.is_ascii query →
                 Forall (λ c, Sql.plain c = true) (list_ascii_of_string query) →
                 Reading.contains_ci name query)) ∧
  (∀ t, traders.userName t = None → t ∉ Traders.searchTraders db query) ∧
  (Reading.folds_ascii db →
   ∀ t, t ∈ tbl_traders db → is_Some (traders.userName t) →
        (length (tbl_traders db) ≤ 20)%nat → t ∈ Traders.searchTraders db "").
Proof.
  assert (∀ t, t ∈ Traders.searchTraders db query →
            t ∈ tbl_traders db ∧
            ∃ name, traders.userName t = Some name ∧
                    Sql.holds (Sql.ilike (engine_lower (installation db))
                                 (Some name) ("%" ++ query ++ "%"))) as Hin.
  { intros t Ht. unfold Traders.searchTraders in Ht.
    apply elem_of_limit, elem_of_order_by, elem_of_where in Ht as [Hk Ht].
    split; [done|]. unfold Sql.keeps in Hk. by apply ilike_holds in Hk. }
  split; [apply length_limit|]. split; [|split].
  - intros t Ht. destruct (Hin t Ht) as (Hdb & name & Hname & Hlike).
    split; [done|]. exists name. split; [done|]. split; [done|].
    intros Hfold Hn Hq Hplain. by apply (ilike_contains db).
  - intros t Hnone Ht. destruct (Hin t Ht) as (_ & name & Hname & _). congruence.
  - intros Hfold t Ht [name Hname] Hlen. unfold Traders.searchTraders.
    rewrite limit_ge.
    + apply elem_of_order_by, elem_of_where. split; [|done].
      unfold Sql.keeps. rewrite Hname. by apply ilike_empty_query.
    + rewrite length_order_by. etransitivity; [apply length_filter|done].
Qed.

Lemma searchTraders_needs_user_name_witness :
  traders.id <$> Traders.searchTraders Sample.db_leaderboard "d" = [1; 4] ∧
  Reading.contains_ci "Dee" "d".
Proof.
  split; [reflexivity|].
  pose (t := Sample.ranked_trader 4 "0x04" "Dee" (Some (Q2Qc (-50))) (Some (Q2Qc 70))).
  assert (t ∈ Traders.searchTraders Sample.db_leaderboard "d") as Ht by by_compute.
  destruct (proj1 (proj2 (searchTraders_needs_user_name Sample.db_leaderboard "d")) t Ht)
    as (_ & name & [= <-] & _ & Hci).
  apply Hci; [intros s _; reflexivity|by_compute|by_compute|by_compute].
Defined.

(** ** Reading and writing the watchlist *)

Section watchlist_reads.

Lemma elem_of_getWatchlistIds db t :
  t ∈ Traders.getWatchlistIds db ↔ Traders.watched db t.
Proof. unfold Traders.getWatchlistIds, Traders.watched. apply elem_of_list_to_set. Qed.

Lemma remove_appended (rows : list traderWatchlist.row) (w : traderWatchlist.row) :
  traderWatchlist.traderId w ∉ traderWatchlist.traderId <$> rows →
  filter (λ r, traderWatchlist.traderId r ≠ traderWatchlist.traderId w)
    (rows ++ [w])%list = rows.
Proof.
  intros Hw. rewrite filter_app, filter_cons_False, filter_nil, app_nil_r by naive_solver.
  apply filter_all, Forall_forall. intros r Hr Heq. apply Hw.
  rewrite <-Heq. by apply list_elem_of_fmap_2.
Qed.

End watchlist_reads.

Lemma getWatchlistIds_spent db :
  Traders.getWatchlistIds (Reading.spent db) = Traders.getWatchlistIds db.
Proof. reflexivity. Qed.

Lemma catch_duplicate_not_true db c : Traders.catch_duplicate db (DbError c) ≠ Ok true.
Proof. by destruct (catch_duplicate_cases db c) as [-> | ->]. Qed.

(** X9: what [getWatchlistIds] reads after a write.  [addToWatchlist]
    returns [true] exactly when it inserted a row, that is for an id in the
    32-bit range of a stored trader who was not watched; the trader then is
    in the set and nobody else joined or left.  On every other path the
    engine refused the insert (the id is out of range, the trader is
    watched already, or no trader carries the id) and the set is as before;
    the call then returns [false] when the driver's text for the condition
    mentions a duplicate and throws the engine's error otherwise.
    [removeFromWatchlist] with an id in the 32-bit range returns normally,
    the trader is out and the others stay; with any other id it throws and
    changes nothing. *)
Theorem watchlist_ids_after_write (db : DB) (now t : Z) :
  ((Traders.addToWatchlist db now t).2 = Ok true ↔
   Sql.int4 t ∧ (t ∉ Traders.getWatchlistIds db) ∧ t ∈ traders.id <$> tbl_traders db) ∧
  ((Traders.addToWatchlist db now t).2 = Ok true →
   Traders.getWatchlistIds (Traders.addToWatchlist db now t).1 =
     {[t]} ∪ Traders.getWatchlistIds db) ∧
  ((Traders.addToWatchlist db now t).2 ≠ Ok true →
   Traders.getWatchlistIds (Traders.addToWatchlist db now t).1 =
     Traders.getWatchlistIds db ∧
   ∃ c, (c = Reading.out_of_range t ∧ ¬ Sql.int4 t ∨
         c = UniqueViolation ∧ Sql.int4 t ∧ t ∈ Traders.getWatchlistIds db ∨
         c = ForeignKeyViolation ∧ Sql.int4 t ∧ (t ∉ Traders.getWatchlistIds db) ∧
           (t ∉ traders.id <$> tbl_traders db)) ∧
        (Traders.addToWatchlist db now t).2 =
          if Reading.reads_as_duplicate db c then Ok false else Err (DbError c)) ∧
  (Sql.int4 t →
   (Traders.removeFromWatchlist db t).2 = Ok () ∧
   Traders.getWatchlistIds (Traders.removeFromWatchlist db t).1 =
     Traders.getWatchlistIds db ∖ {[t]}) ∧
  (¬ Sql.int4 t →
   Traders.removeFromWatchlist db t = (db, Err (DbError (Reading.out_of_range t)))).
Proof.
  assert (Traders.getWatchlistIds
            (Traders.set_watchlist db
               (tbl_trader_watchlist db ++ [Traders.new_watch db now t])%list
               (seq_trader_watchlist db + 1)) =
          {[t]} ∪ Traders.getWatchlistIds db) as Hnew.
  { unfold Traders.getWatchlistIds. simpl.
    rewrite fmap_app, list_to_set_app_L. simpl. set_solver. }
  split; [|split; [|split; [|split]]].
  - rewrite elem_of_getWatchlistIds.
    destruct (addToWatchlist_cases db now t)
      as [(Hr & Hw & Ht & ->)|(c & Hc & ->)]; [done|].
    split; [by intros ?%catch_duplicate_not_true|].
    intros (Hr & Hw & Ht). destruct Hc as [(_ & ? & _)|[[(_ & _ & ?)|(_ & _ & _ & ?)] _]]; done.
  - destruct (addToWatchlist_cases db now t)
      as [(Hr & Hw & Ht & ->)|(c & Hc & ->)]; [done|].
    by intros ?%catch_duplicate_not_true.
  - destruct (addToWatchlist_cases db now t)
      as [(Hr & Hw & Ht & ->)|(c & Hc & Hres)]; [done|].
    intros _. rewrite Hres, catch_duplicate_engine.
    setoid_rewrite elem_of_getWatchlistIds.
    destruct Hc as [(-> & Hr & ->)|[Hc ->]].
    + split; [done|]. exists (Reading.out_of_range t). split; [by left|done].
    + split; [apply getWatchlistIds_spent|]. exists c. split; [|done].
      right. destruct Hc as [(-> & ? & ?)|(-> & ? & ? & ?)]; [by left|by right].
  - intros Hr. rewrite removeFromWatchlist_in_range by done. split; [done|].
    apply set_eq. intros x. rewrite elem_of_difference, !elem_of_getWatchlistIds.
    unfold Traders.watched. simpl.
    rewrite !list_elem_of_fmap. setoid_rewrite list_elem_of_filter.
    rewrite elem_of_singleton. naive_solver.
  - apply removeFromWatchlist_out_of_range.
Qed.

Lemma watchlist_ids_after_write_witness :
  Traders.getWatchlistIds (Traders.addToWatchlist Sample.db_traders 1700000000000 8).1 =
    {[8]} ∪ Traders.getWatchlistIds Sample.db_traders ∧
  Traders.getWatchlistIds (Traders.removeFromWatchlist Sample.db_traders 7).1 =
    Traders.getWatchlistIds Sample.db_traders ∖ {[7]} ∧
  Traders.removeFromWatchlist Sample.db_traders (2 ^ 31) =
    (Sample.db_traders, Err (DbError NumericValueOutOfRange)).
Proof.
  split; [|split].
  - apply (proj1 (proj2 (watchlist_ids_after_write Sample.db_traders 1700000000000 8))).
    reflexivity.
  - apply (proj1 (proj2 (proj2 (proj2
             (watchlist_ids_after_write Sample.db_traders 0 7))))).
    by_compute.
  - apply (proj2 (proj2 (proj2 (proj2
             (watchlist_ids_after_write Sample.db_traders 0 (2 ^ 31)))))).
    by_compute.
Defined.

(** ** What the mutations keep *)

Section watchlist_invariant.

Lemma wf_set_rows db rows seq :
  NoDup (traderWatchlist.traderId <$> rows) →
  NoDup (traderWatchlist.id <$> rows) →
  (∀ r, r ∈ rows → traderWatchlist.id r < seq) →
  (∀ r, r ∈ rows → traderWatchlist.traderId r ∈ traders.id <$> tbl_traders db) →
  Reading.watchlist_wf (Traders.set_watchlist db rows seq).
Proof. intros. by repeat split. Qed.

Lemma spent_keeps_wf db : Reading.watchlist_wf db → Reading.watchlist_wf (Reading.spent db).
Proof.
  intros (Ht & Hi & Hseq & Hfk). unfold Reading.spent.
  apply wf_set_rows; [done..| |done]. intros r Hr. specialize (Hseq r Hr). lia.
Qed.

Lemma remove_keeps_wf db t :
  Reading.watchlist_wf db → Reading.watchlist_wf (Traders.removeFromWatchlist db t).1.
Proof.
  intros Hwf. destruct (decide (Sql.int4 t)) as [Hr|Hr];
    [|by rewrite removeFromWatchlist_out_of_range].
  destruct Hwf as (Ht & Hi & Hseq & Hfk).
  rewrite removeFromWatchlist_in_range by done. simpl.
  apply wf_set_rows.
  - apply (sublist_NoDup _ _ Ht), fmap_sublist, sublist_filter.
  - apply (sublist_NoDup _ _ Hi), fmap_sublist, sublist_filter.
  - intros r [_ Hr']%list_elem_of_filter. by apply Hseq.
  - intros r [_ Hr']%list_elem_of_filter. by apply Hfk.
Qed.

Lemma add_keeps_wf db now t :
  Reading.watchlist_wf db → Reading.watchlist_wf (Traders.addToWatchlist db now t).1.
Proof.
  intros Hwf.
  destruct (addToWatchlist_cases db now t)
    as [(_ & Hw & Hex & ->)|(c & [(_ & _ & ->)|[_ ->]] & _)];
    [|done|by apply spent_keeps_wf].
  destruct Hwf as (Ht & Hi & Hseq & Hfk). simpl. apply wf_set_rows.
  - rewrite fmap_app. apply NoDup_app. split; [done|]. split.
    + intros x Hx Hx'. apply list_elem_of_singleton in Hx'. by subst x.
    + apply NoDup_singleton.
  - rewrite fmap_app. apply NoDup_app. split; [done|]. split.
    + intros x (r & -> & Hr)%list_elem_of_fmap Hx'.
      apply list_elem_of_singleton in Hx'. simpl in Hx'.
      specialize (Hseq r Hr). lia.
    + apply NoDup_singleton.
  - intros r [Hr|Hr]%elem_of_app.
    + specialize (Hseq r Hr). lia.
    + apply list_elem_of_singleton in Hr. subst r. simpl. lia.
  - intros r [Hr|Hr]%elem_of_app; [by apply Hfk|].
    apply list_elem_of_singleton in Hr. by subst r.
Qed.

Lemma step_keeps_wf db act :
  Reading.watchlist_wf db → Reading.watchlist_wf (Actions.step db act).
Proof.
  intros Hwf. destruct act as [now t isWatched|alertId]; simpl.
  - unfold Actions.toggleWatchlistAction. destruct isWatched.
    + by apply remove_keeps_wf.
    + pose proof (add_keeps_wf db now t Hwf) as H.
      by destruct (Traders.addToWatchlist db now t) as [db' [b|e]].
  - done.
Qed.

End watchlist_invariant.

(** X10: the exposed mutations keep the watchlist well formed: starting
    from a store with one row per watched trader, distinct row ids below the
    sequence and every row referring to a stored trader, any sequence of
    toggle and acknowledge actions, with any flags, ends in such a store,
    and never touches the traders, markets, pairs, snapshots or positions. *)
Theorem mutations_keep_watchlist_wf (db : DB) (acts : list Actions.action) :
  Reading.watchlist_wf db →
  Reading.watchlist_wf (Actions.run db acts) ∧
  tbl_traders (Actions.run db acts) = tbl_traders db ∧
  tbl_markets (Actions.run db acts) = tbl_markets db ∧
  tbl_market_pairs (Actions.run db acts) = tbl_market_pairs db ∧
  tbl_price_snapshots (Actions.run db acts) = tbl_price_snapshots db ∧
  tbl_trader_positions (Actions.run db acts) = tbl_trader_positions db.
Proof.
  unfold Actions.run. revert db. induction acts as [|act acts IH]; intros db Hwf.
  - done.
  - simpl. destruct (IH (Actions.step db act) (step_keeps_wf db act Hwf))
      as (Hwf' & -> & -> & -> & -> & ->).
    split; [done|]. destruct act as [now t isWatched|alertId]; simpl.
    + destruct (toggle_other_tables db now t isWatched) as (? & ? & ? & ? & ? & ?).
      done.
    + done.
Qed.

Lemma mutations_keep_watchlist_wf_witness :
  Reading.watchlist_wf Sample.db_traders ∧
  Reading.watchlist_wf
    (Actions.run Sample.db_traders
       [Actions.ToggleWatchlist 1700000000000 8 false;
        Actions.ToggleWatchlist 1700000000001 8 false;
        Actions.ToggleWatchlist 1700000000002 7 true;
        Actions.AcknowledgeAlert 1]).
Proof.
  assert (Reading.watchlist_wf Sample.db_traders) as Hwf.
  { split; [by_compute|]. split; [by_compute|]. split.
    - intros r Hr. apply list_elem_of_singleton in Hr. by subst r.
    - intros r Hr. apply list_elem_of_singleton in Hr. subst r. by_compute. }
  split; [exact Hwf|].
  exact (proj1 (mutations_keep_watchlist_wf Sample.db_traders _ Hwf)).
Defined.

(** X11: toggling on and off again is a round trip, and a repeated
    toggle-on adds no second row.  For a stored trader with an id in the
    32-bit range who is not watched, toggle with flag [false] succeeds and
    makes the trader watched; a following toggle with flag [true] succeeds
    and restores the watchlist rows; a second toggle with flag [false]
    instead (a stale flag, or the second of two racing requests) leaves
    exactly one row for the trader, and it succeeds when the driver's text
    for the unique violation mentions a duplicate and throws that error
    otherwise. *)
Theorem toggle_round_trip (db : DB) (now1 now2 t : Z) :
  Sql.int4 t → ¬ Traders.watched db t → t ∈ traders.id <$> tbl_traders db →
  let on := Actions.toggleWatchlistAction db now1 t false in
  let off := Actions.toggleWatchlistAction on.1 now2 t true in
  let again := Actions.toggleWatchlistAction on.1 now2 t false in
  on.2 = Ok () ∧ Traders.watched on.1 t ∧
  off.2 = Ok () ∧ tbl_trader_watchlist off.1 = tbl_trader_watchlist db ∧
  again.2 = (if Reading.reads_as_duplicate db UniqueViolation then Ok ()
             else Err Traders.unique_violation) ∧
  tbl_trader_watchlist again.1 = tbl_trader_watchlist on.1 ∧
  length (filter (λ r, traderWatchlist.traderId r = t) (tbl_trader_watchlist again.1)) = 1%nat.
Proof.
  intros Hr Hw Ht. cbv zeta. unfold Actions.toggleWatchlistAction.
  rewrite addToWatchlist_new by done. cbn [fst snd].
  set (db1 := Traders.set_watchlist db
                (tbl_trader_watchlist db ++ [Traders.new_watch db now1 t])%list
                (seq_trader_watchlist db + 1)).
  assert (Traders.watched db1 t) as Hw1.
  { unfold Traders.watched. simpl. rewrite fmap_app, elem_of_app. right.
    simpl. by left. }
  rewrite addToWatchlist_watched by done.
  unfold Traders.unique_violation. rewrite !catch_duplicate_engine.
  change (Reading.reads_as_duplicate db1 UniqueViolation)
    with (Reading.reads_as_duplicate db UniqueViolation).
  rewrite removeFromWatchlist_in_range by done. cbn [fst snd].
  split; [done|]. split; [done|]. split; [done|]. split.
  - simpl. by apply (remove_appended _ (Traders.new_watch db now1 t)).
  - assert (tbl_trader_watchlist (Reading.spent db1) = tbl_trader_watchlist db1) as Hrows
      by done.
    destruct (Reading.reads_as_duplicate db UniqueViolation); cbn [fst snd];
      (split; [done|]); (split; [done|]); rewrite Hrows; simpl;
      rewrite filter_app, length_app;
      (assert (filter (λ r, traderWatchlist.traderId r = t) [Traders.new_watch db now1 t]
              = [Traders.new_watch db now1 t]) as ->
        by (by apply (filter_cons_True (λ r, traderWatchlist.traderId r = t))));
      (assert (filter (λ r, traderWatchlist.traderId r = t) (tbl_trader_watchlist db) = [])
        as ->; [|done]);
      (destruct (filter _ (tbl_trader_watchlist db)) as [|r l] eqn:Hf; [done|]);
      exfalso; apply Hw;
      (assert (r ∈ filter (λ r, traderWatchlist.traderId r = t)
                     (tbl_trader_watchlist db)) as Hr'
        by (rewrite Hf; by left));
      apply list_elem_of_filter in Hr' as [<- Hr']; by apply list_elem_of_fmap_2.
Qed.

Lemma toggle_round_trip_witness :
  ¬ Traders.watched Sample.db_traders 8 ∧
  tbl_trader_watchlist
    (Actions.toggleWatchlistAction
       (Actions.toggleWatchlistAction Sample.db_traders 1700000000000 8 false).1
       1700000000001 8 true).1 = tbl_trader_watchlist Sample.db_traders ∧
  (Actions.toggleWatchlistAction
     (Actions.toggleWatchlistAction Sample.db_traders_wrapped 1700000000000 8 false).1
     1700000000001 8 false).2 = Err Traders.unique_violation.
Proof.
  assert (¬ Traders.watched Sample.db_traders 8) as Hw by by_compute.
  split; [exact Hw|]. split.
  - destruct (toggle_round_trip Sample.db_traders 1700000000000 1700000000001 8)
      as (_ & _ & _ & Hback & _); [by_compute|exact Hw|by_compute|exact Hback].
  - destruct (toggle_round_trip Sample.db_traders_wrapped 1700000000000 1700000000001 8)
      as (_ & _ & _ & _ & Hagain & _); [by_compute|exact Hw|by_compute|exact Hagain].
Defined.

(** ** Joins *)

Section joins.
Context {A B : Type}.

Lemma elem_of_left_join (on : A → B → Sql.tri) (l : list A) (r : list B) a ob :
  (a, ob) ∈ Pairs.left_join on l r ↔
  a ∈ l ∧
  match ob with
  | Some b => b ∈ r ∧ Sql.holds (on a b)
  | None => ∀ b, b ∈ r → ¬ Sql.holds (on a b)
  end.
Proof.
  unfold Pairs.left_join. rewrite list_elem_of_bind. split.
  - intros (a' & Hin & Ha').
    destruct (filter (λ b, Sql.holds (on a' b)) r) as [|b bs] eqn:Hf.
    + apply list_elem_of_singleton in Hin. injection Hin as -> ->.
      split; [done|]. intros b Hb Hon.
      assert (b ∈ filter (λ b, Sql.holds (on a' b)) r) as Hm
        by (by apply list_elem_of_filter).
      rewrite Hf in Hm. by apply elem_of_nil in Hm.
    + apply list_elem_of_fmap in Hin as (b' & Heq & Hb'). injection Heq as -> ->.
      split; [done|]. rewrite <-Hf in Hb'.
      apply list_elem_of_filter in Hb'. tauto.
  - intros (Ha & Hob). exists a. split; [|done].
    destruct ob as [b|].
    + destruct Hob as [Hb Hon].
      assert (b ∈ filter (λ b, Sql.holds (on a b)) r) as Hm
        by (by apply list_elem_of_filter).
      destruct (filter (λ b, Sql.holds (on a b)) r) as [|b0 bs];
        [by apply elem_of_nil in Hm|].
      by apply (list_elem_of_fmap_2 (λ b, (a, Some b))).
    + destruct (filter (λ b, Sql.holds (on a b)) r) as [|b0 bs] eqn:Hf.
      * by apply list_elem_of_singleton.
      * exfalso. assert (b0 ∈ filter (λ b, Sql.holds (on a b)) r) as Hm
          by (rewrite Hf; by left).
        apply list_elem_of_filter in Hm as [Hon Hb0]. by apply (Hob b0).
Qed.

Lemma elem_of_inner_join (on : A → B → Sql.tri) (l : list A) (r : list B) a b :
  (a, b) ∈ Sql.inner_join on l r ↔ a ∈ l ∧ b ∈ r ∧ Sql.holds (on a b).
Proof.
  unfold Sql.inner_join. rewrite list_elem_of_bind. split.
  - intros (a' & Hin & Ha'). apply list_elem_of_bind in Hin as (b' & Hin & Hb').
    case_decide as Hon; [|by apply elem_of_nil in Hin].
    apply list_elem_of_singleton in Hin. by injection Hin as -> ->.
  - intros (Ha & Hb & Hon). exists a. split; [|done].
    apply list_elem_of_bind. exists b. split; [|done].
    rewrite decide_True by done. by left.
Qed.

End joins.

(** ** Alerts: reading after acknowledging *)

Section alerts_reads.

Lemma ack_row_marketId alertId a :
  alerts.marketId (Alerts.ack_row alertId a) = alerts.marketId a.
Proof. unfold Alerts.ack_row. by case_decide. Qed.

Lemma ack_row_cases alertId a :
  (alerts.id a = alertId ∧ alerts.acknowledged (Alerts.ack_row alertId a) = Some 1) ∨
  (alerts.id a ≠ alertId ∧ Alerts.ack_row alertId a = a).
Proof.
  destruct (decide (alerts.id a = alertId)) as [Heq|Hne].
  - left. split; [done|]. by apply ack_row_hit.
  - right. split; [done|]. by apply ack_row_miss.
Qed.

Lemma keeps_conditions {Row} (cs : list (Sql.cond Row)) (r : Row) :
  Sql.keeps (match cs with [] => None | c :: l => Some (Sql.and_ (c :: l)) end) r ↔
  Forall (λ c, Sql.holds (c r)) cs.
Proof.
  destruct cs as [|c cs].
  - simpl. split; [constructor|done].
  - unfold Sql.keeps. apply and_holds.
Qed.

Lemma alerts_conditions_unacknowledged p r :
  Alerts.acknowledged p = Some false →
  Sql.keeps (Alerts.where_clause p) r → alerts.acknowledged r.1 = Some 0.
Proof.
  intros Hp Hk. unfold Alerts.where_clause in Hk. rewrite keeps_conditions in Hk.
  unfold Alerts.conditions in Hk. rewrite Hp in Hk.
  apply Forall_app in Hk as [_ Hk]. rewrite Forall_singleton in Hk.
  by rewrite eq_holds in Hk.
Qed.

Lemma elem_of_alerts_all db p a om :
  (a, om) ∈ Alerts.alerts_all db p ↔
  Sql.keeps (Alerts.where_clause p) (a, om) ∧
  a ∈ tbl_alerts db ∧
  match om with
  | Some m => m ∈ tbl_markets db ∧ Sql.holds (Sql.eq (alerts.marketId a) (markets.id m))
  | None => ∀ m, m ∈ tbl_markets db →
                 ¬ Sql.holds (Sql.eq (alerts.marketId a) (markets.id m))
  end.
Proof.
  unfold Alerts.alerts_all. rewrite elem_of_order_by, elem_of_where.
  pose proof (elem_of_left_join
                (λ a m, Sql.eq (alerts.marketId a) (markets.id m))
                (tbl_alerts db) (tbl_markets db) a om) as H.
  unfold Alerts.joined_row in *. by rewrite H.
Qed.

Lemma getAlerts_sub db p r :
  r ∈ Alerts.getAlerts db p → ∃ j, r = Alerts.alert_select j ∧ j ∈ Alerts.alerts_all db p.
Proof.
  unfold Alerts.getAlerts. intros (j & -> & Hj)%list_elem_of_fmap.
  exists j. split; [done|]. by apply elem_of_limit in Hj.
Qed.

End alerts_reads.

(** X12: after [acknowledgeAlert(id)] no row of [getAlerts] with
    [acknowledged: false] carries that id, whatever the other parameters;
    the rows of the unacknowledged list (before LIMIT) are those it had
    before, less the ones with that id; and every alert with that id is in
    the acknowledged list. *)
Theorem acknowledged_alert_leaves_active_list (db : DB) (alertId : Z) :
  let db' := (Alerts.acknowledgeAlert db alertId).1 in
  (∀ p r, Alerts.acknowledged p = Some false → r ∈ Alerts.getAlerts db' p →
          alerts.id (Alerts.alert r) ≠ alertId) ∧
  (∀ p j, Alerts.acknowledged p = Some false →
          j ∈ Alerts.alerts_all db' p ↔
          j ∈ Alerts.alerts_all db p ∧ alerts.id j.1 ≠ alertId) ∧
  (∀ a, a ∈ tbl_alerts db → alerts.id a = alertId →
        ∃ j, j ∈ Alerts.alerts_all db'
                   {| Alerts.type := None; Alerts.acknowledged := Some true;
                      Alerts.limit := None |} ∧
             alerts.id j.1 = alertId).
Proof.
  intros db'.
  assert (∀ p j, Alerts.acknowledged p = Some false →
            j ∈ Alerts.alerts_all db' p ↔
            j ∈ Alerts.alerts_all db p ∧ alerts.id j.1 ≠ alertId) as Hlist.
  { intros p [a om] Hp. rewrite !elem_of_alerts_all.
    unfold db'. rewrite acknowledgeAlert_alerts. simpl. split.
    - intros (Hk & Ha & Hom).
      pose proof (alerts_conditions_unacknowledged p (a, om) Hp Hk) as Hack.
      apply list_elem_of_fmap in Ha as (a0 & -> & Ha0). simpl in Hack.
      destruct (ack_row_cases alertId a0) as [[_ H1]|[Hne Heq]]; [congruence|].
      rewrite Heq in *. done.
    - intros ((Hk & Ha & Hom) & Hne). split; [done|]. split; [|done].
      rewrite <-(ack_row_miss alertId a Hne). by apply list_elem_of_fmap_2. }
  split; [|split; [done|]].
  - intros p r Hp Hr. apply getAlerts_sub in Hr as (j & -> & Hj).
    apply Hlist in Hj as [_ Hne]; done.
  - intros a Ha Hid.
    assert (∃ om, (Alerts.ack_row alertId a, om) ∈
              Pairs.left_join (λ a m, Sql.eq (alerts.marketId a) (markets.id m))
                (tbl_alerts db') (tbl_markets db')) as [om Hj].
    { apply left_join_left. unfold db'. rewrite acknowledgeAlert_alerts.
      by apply list_elem_of_fmap_2. }
    apply elem_of_left_join in Hj as [Hin Hom].
    exists (Alerts.ack_row alertId a, om). split; [|simpl; by rewrite ack_row_id].
    apply elem_of_alerts_all. split; [|done].
    unfold Alerts.where_clause. rewrite keeps_conditions.
    unfold Alerts.conditions. simpl.
    rewrite Forall_singleton, eq_holds. by apply ack_row_hit.
Qed.

Example acknowledged_alert_sample :
  Alerts.alert <$>
    Alerts.getAlerts (Alerts.acknowledgeAlert Sample.db_traders 1).1
      {| Alerts.type := None; Alerts.acknowledged := Some false;
         Alerts.limit := None |} = [] ∧
  alerts.id <$> (Alerts.alert <$>
    Alerts.getAlerts Sample.db_traders
      {| Alerts.type := None; Alerts.acknowledged := Some false;
         Alerts.limit := None |}) = [1].
Proof.
  split; reflexivity.
Qed.

(** ** The dashboard counters *)

Section dashboard.

Lemma unack_count_after_ack alertId (l : list alerts.row) :
  (length (filter Alerts.unack (Alerts.ack_row alertId <$> l)) +
   length (filter (λ a, Alerts.unack a ∧ alerts.id a = alertId) l))%nat =
  length (filter Alerts.unack l).
Proof.
  induction l as [|a l IH]; [done|]. rewrite fmap_cons.
  destruct (ack_row_cases alertId a) as [[Hid Hack]|[Hne Heq]].
  - rewrite (filter_cons_False Alerts.unack (Alerts.ack_row alertId a))
      by (unfold Alerts.unack; congruence).
    destruct (decide (Alerts.unack a)) as [Hu|Hu].
    + rewrite (filter_cons_True Alerts.unack a) by done.
      rewrite (filter_cons_True (λ a, Alerts.unack a ∧ alerts.id a = alertId) a) by done.
      simpl. lia.
    + rewrite (filter_cons_False Alerts.unack a) by done.
      rewrite (filter_cons_False (λ a, Alerts.unack a ∧ alerts.id a = alertId) a)
        by tauto.
      done.
  - rewrite Heq.
    rewrite (filter_cons_False (λ a, Alerts.unack a ∧ alerts.id a = alertId) a) by tauto.
    destruct (decide (Alerts.unack a)) as [Hu|Hu].
    + rewrite !(filter_cons_True Alerts.unack a) by done. simpl. lia.
    + by rewrite !(filter_cons_False Alerts.unack a) by done.
Qed.

Lemma unacknowledgedAlerts_count db fd :
  Dashboard.unacknowledgedAlerts (Dashboard.getDashboardStats db fd) =
  Z.of_nat (length (filter Alerts.unack (tbl_alerts db))).
Proof.
  simpl. unfold Sql.count, Sql.where_. f_equal. f_equal.
  apply list_filter_iff. intros a. unfold Sql.keeps. apply eq_holds.
Qed.

End dashboard.

(** X13: the dashboard's count of unacknowledged alerts is the number of
    alerts whose flag is 0 (an alert with a NULL flag is not counted);
    acknowledging an alert lowers it by the number of open alerts with that
    id and never raises it, and no exposed mutation changes the other
    counters. *)
Theorem dashboard_counts_after_mutation (db : DB) (fd : Feeds) :
  Dashboard.unacknowledgedAlerts (Dashboard.getDashboardStats db fd) =
    Z.of_nat (length (filter Alerts.unack (tbl_alerts db))) ∧
  (∀ alertId,
     Dashboard.unacknowledgedAlerts
       (Dashboard.getDashboardStats (Alerts.acknowledgeAlert db alertId).1 fd) =
     Dashboard.unacknowledgedAlerts (Dashboard.getDashboardStats db fd) -
     Z.of_nat (length (filter (λ a, Alerts.unack a ∧ alerts.id a = alertId)
                         (tbl_alerts db)))) ∧
  (∀ act,
     Dashboard.unacknowledgedAlerts (Dashboard.getDashboardStats (Actions.step db act) fd)
       ≤ Dashboard.unacknowledgedAlerts (Dashboard.getDashboardStats db fd) ∧
     Dashboard.totalMarkets (Dashboard.getDashboardStats (Actions.step db act) fd) =
       Dashboard.totalMarkets (Dashboard.getDashboardStats db fd) ∧
     Dashboard.activeMarkets (Dashboard.getDashboardStats (Actions.step db act) fd) =
       Dashboard.activeMarkets (Dashboard.getDashboardStats db fd) ∧
     Dashboard.totalTraders (Dashboard.getDashboardStats (Actions.step db act) fd) =
       Dashboard.totalTraders (Dashboard.getDashboardStats db fd)).
Proof.
  assert (∀ alertId,
     Dashboard.unacknowledgedAlerts
       (Dashboard.getDashboardStats (Alerts.acknowledgeAlert db alertId).1 fd) =
     Dashboard.unacknowledgedAlerts (Dashboard.getDashboardStats db fd) -
     Z.of_nat (length (filter (λ a, Alerts.unack a ∧ alerts.id a = alertId)
                         (tbl_alerts db)))) as Hack.
  { intros alertId. rewrite !unacknowledgedAlerts_count, acknowledgeAlert_alerts.
    pose proof (unack_count_after_ack alertId (tbl_alerts db)). lia. }
  split; [apply unacknowledgedAlerts_count|].
  split; [done|]. intros [now t isWatched|alertId]; simpl.
  - destruct (toggle_other_tables db now t isWatched) as (Hm & _ & _ & Ha & Ht & _).
    rewrite Hm, Ha, Ht. repeat split; lia.
  - split; [|done]. unfold Actions.acknowledgeAlertAction.
    pose proof (Hack alertId) as H. simpl in H. lia.
Qed.

(** ** The latest run per agent *)

Section first_per_name.
Context {A : Type} (name : A → string).

Lemma elem_of_first_per_name seen rows r :
  r ∈ Agents.first_per_name name seen rows → r ∈ rows ∧ name r ∉ seen.
Proof.
  revert seen. induction rows as [|x rows IH]; intros seen Hr; simpl in Hr.
  - by apply elem_of_nil in Hr.
  - case_decide as Hx.
    + apply IH in Hr as [? ?]. split; [by right|done].
    + apply elem_of_cons in Hr as [->|Hr]; [split; [by left|done]|].
      apply IH in Hr as [? ?]. split; [by right|set_solver].
Qed.

Lemma first_per_name_sublist seen rows :
  Agents.first_per_name name seen rows `sublist_of` rows.
Proof.
  revert seen. induction rows as [|x rows IH]; intros seen; simpl; [done|].
  case_decide; [by apply sublist_cons|by apply sublist_skip].
Qed.

Lemma first_per_name_NoDup seen rows :
  NoDup (name <$> Agents.first_per_name name seen rows).
Proof.
  revert seen. induction rows as [|x rows IH]; intros seen; simpl; [constructor|].
  case_decide; [done|]. rewrite fmap_cons. constructor; [|done].
  intros (r & Heq & Hr)%list_elem_of_fmap.
  apply elem_of_first_per_name in Hr as [_ Hr]. set_solver.
Qed.

Lemma first_per_name_covers seen rows r :
  r ∈ rows → name r ∉ seen →
  name r ∈ name <$> Agents.first_per_name name seen rows.
Proof.
  revert seen. induction rows as [|x rows IH]; intros seen Hr Hs.
  - by apply elem_of_nil in Hr.
  - simpl. case_decide as Hx.
    + apply IH; [|done]. apply elem_of_cons in Hr as [->|Hr]; done.
    + rewrite fmap_cons. destruct (decide (name r = name x)) as [->|Hne];
        [by left|].
      right. apply IH; [|set_solver].
      apply elem_of_cons in Hr as [->|Hr]; done.
Qed.

(** In a sorted list the row kept for a name precedes every other row of
    that name. *)
Lemma first_per_name_first (R : relation A) seen rows r r' :
  StronglySorted R rows →
  r ∈ Agents.first_per_name name seen rows → r' ∈ rows → name r' = name r →
  R r r' ∨ r' = r.
Proof.
  intros Hs. revert seen. induction Hs as [|x rows Hs IH Hall]; intros seen Hr Hr' Hn.
  - by apply elem_of_nil in Hr'.
  - simpl in Hr. case_decide as Hx.
    + pose proof (elem_of_first_per_name _ _ _ Hr) as [_ Hnot].
      apply elem_of_cons in Hr' as [->|Hr']; [congruence|]. by eapply IH.
    + apply elem_of_cons in Hr as [->|Hr].
      * apply elem_of_cons in Hr' as [->|Hr']; [by right|]. left.
        rewrite Forall_forall in Hall. by apply Hall.
      * pose proof (elem_of_first_per_name _ _ _ Hr) as [_ Hnot].
        apply elem_of_cons in Hr' as [->|Hr']; [set_solver|]. by eapply IH.
Qed.

Lemma first_per_name_fmap {B} (f : B → A) seen (rows : list B) :
  Agents.first_per_name name seen (f <$> rows) =
  f <$> Agents.first_per_name (name ∘ f) seen rows.
Proof.
  revert seen. induction rows as [|x rows IH]; intros seen; simpl; [done|].
  case_decide; [done|]. by rewrite fmap_cons, IH.
Qed.

End first_per_name.

Global Instance id_order_trans : Transitive Agents.id_order.
Proof. unfold Agents.id_order. apply _. Qed.
Global Instance id_order_total : Total Agents.id_order.
Proof. unfold Agents.id_order. apply _. Qed.

(** X14: [getLatestRunPerAgent] keeps, among the 50 logs with the highest
    ids, one log per agent name: the names in the result are distinct, every
    agent with a log among those 50 is present, and the log kept for an
    agent has the highest id of that agent's logs among them.  The
    dashboard's [recentAgentRuns] are the same selection over the 10 logs
    with the highest ids. *)
Theorem getLatestRunPerAgent_latest (fd : Feeds) :
  let res := Agents.getLatestRunPerAgent fd in
  NoDup (agentLogs.agentName <$> res) ∧
  res `sublist_of` Agents.recent fd 50 ∧
  (∀ r, r ∈ Agents.recent fd 50 →
        agentLogs.agentName r ∈ agentLogs.agentName <$> res) ∧
  (∀ r r', r ∈ res → r' ∈ Agents.recent fd 50 →
           agentLogs.agentName r' = agentLogs.agentName r →
           agentLogs.id r' ≤ agentLogs.id r) ∧
  (∀ db, Dashboard.recentAgentRuns (Dashboard.getDashboardStats db fd) =
         Dashboard.run_select <$>
           Agents.first_per_name agentLogs.agentName ∅ (Agents.recent fd 10)).
Proof.
  intros res. unfold res, Agents.getLatestRunPerAgent.
  split; [apply first_per_name_NoDup|]. split; [apply first_per_name_sublist|].
  split; [|split].
  - intros r Hr. by apply first_per_name_covers.
  - intros r r' Hr Hr' Hn.
    assert (StronglySorted Agents.id_order (Agents.recent fd 50)) as Hs.
    { unfold Agents.recent. apply limit_sorted, order_by_sorted; apply _. }
    destruct (first_per_name_first agentLogs.agentName Agents.id_order ∅ _ r r'
                Hs Hr Hr' Hn) as [HR| ->]; [|lia].
    exact HR.
  - intros db. simpl. by rewrite first_per_name_fmap.
Qed.

(** ** [getWatchlist] *)

Section watchlist_join.

Lemma watch_on_holds w t :
  Sql.holds (Traders.watch_on w t) ↔ traders.id t = traderWatchlist.traderId w.
Proof. unfold Traders.watch_on. rewrite eq_holds. split; congruence. Qed.

Lemma join_row_none (w : traderWatchlist.row) (ts : list traders.row) :
  traderWatchlist.traderId w ∉ traders.id <$> ts →
  (ts ≫= λ t, if decide (Sql.holds (Traders.watch_on w t)) then [(w, t)] else []) = [].
Proof.
  induction ts as [|t ts IH]; intros Hn; [done|]. rewrite bind_cons.
  rewrite decide_False.
  - simpl. apply IH. intros Hin. apply Hn. rewrite fmap_cons. by right.
  - rewrite watch_on_holds. intros Heq. apply Hn. rewrite fmap_cons, Heq. by left.
Qed.

Lemma join_row_one (w : traderWatchlist.row) (ts : list traders.row) :
  NoDup (traders.id <$> ts) → traderWatchlist.traderId w ∈ traders.id <$> ts →
  length (ts ≫= λ t, if decide (Sql.holds (Traders.watch_on w t)) then [(w, t)] else []) = 1%nat.
Proof.
  induction ts as [|t ts IH]; intros Hnd Hin.
  - by apply elem_of_nil in Hin.
  - rewrite fmap_cons in Hnd, Hin. apply NoDup_cons in Hnd as [Ht Hnd].
    rewrite bind_cons. destruct (decide (traders.id t = traderWatchlist.traderId w))
      as [Heq|Hne].
    + rewrite decide_True by (by apply watch_on_holds).
      rewrite join_row_none; [done|]. by rewrite <-Heq.
    + rewrite decide_False by (by rewrite watch_on_holds). simpl. apply IH; [done|].
      apply elem_of_cons in Hin as [Hin|Hin]; [congruence|done].
Qed.

Lemma inner_join_length (ws : list traderWatchlist.row) (ts : list traders.row) :
  NoDup (traders.id <$> ts) →
  (∀ w, w ∈ ws → traderWatchlist.traderId w ∈ traders.id <$> ts) →
  length (Sql.inner_join Traders.watch_on ws ts) = length ws.
Proof.
  intros Hnd. unfold Sql.inner_join. induction ws as [|w ws IH]; intros Hfk; [done|].
  rewrite bind_cons, length_app, IH.
  - rewrite join_row_one; [done..|]. apply Hfk. by left.
  - intros w' Hw'. apply Hfk. by right.
Qed.

End watchlist_join.

(** X15: [getWatchlist] lists a trader exactly when the trader is in
    [getWatchlistIds] and is a stored trader: the inner join silently drops
    a watchlist row whose trader is missing.  On a well-formed store with
    unique trader ids it has one row per watchlist row. *)
Theorem getWatchlist_matches_ids (db : DB) :
  (∀ id, id ∈ Traders.w_id <$> Traders.getWatchlist db ↔
         id ∈ Traders.getWatchlistIds db ∧ id ∈ traders.id <$> tbl_traders db) ∧
  (Reading.watchlist_wf db → NoDup (traders.id <$> tbl_traders db) →
   length (Traders.getWatchlist db) = length (tbl_trader_watchlist db)).
Proof.
  split.
  - intros id. rewrite elem_of_getWatchlistIds. unfold Traders.watched, Traders.getWatchlist.
    rewrite !list_elem_of_fmap. split.
    + intros (row & -> & (j & -> & Hj)%list_elem_of_fmap). destruct j as [w t].
      apply elem_of_order_by, elem_of_inner_join in Hj as (Hw & Ht & Hon).
      apply watch_on_holds in Hon. simpl. split.
      * exists w. by rewrite Hon.
      * by exists t.
    + intros ((w & -> & Hw) & (t & Heq & Ht)). exists (Traders.watchlist_select (w, t)).
      split; [done|]. apply list_elem_of_fmap_2, elem_of_order_by, elem_of_inner_join.
      split; [done|]. split; [done|]. by apply watch_on_holds.
  - intros (_ & _ & _ & Hfk) Hnd. unfold Traders.getWatchlist.
    rewrite length_fmap, length_order_by. by apply inner_join_length.
Qed.

Lemma getWatchlist_matches_ids_witness :
  Traders.w_id <$> Traders.getWatchlist Sample.db_traders = [7] ∧
  length (Traders.getWatchlist Sample.db_traders) =
    length (tbl_trader_watchlist Sample.db_traders).
Proof.
  split; [reflexivity|].
  apply (proj2 (getWatchlist_matches_ids Sample.db_traders)).
  - split; [by_compute|]. split; [by_compute|]. split.
    + intros r Hr. apply list_elem_of_singleton in Hr. by subst r.
    + intros r Hr. apply list_elem_of_singleton in Hr. subst r. by_compute.
  - by_compute.
Defined.

(** ** Whale trades *)

Section whale_trades.








End whale_trades.



(** ** First-time trades *)

Section first_time_trades.

Lemma min_int_le xs m x : Sql.min_int xs = Some m → Some x ∈ xs → m ≤ x.
Proof.
  revert m. induction xs as [|y xs IH]; intros m Hm Hx.
  - by apply elem_of_nil in Hx.
  - simpl in Hm. apply elem_of_cons in Hx as [<-|Hx].
    + destruct (Sql.min_int xs) as [k|]; injection Hm as <-; lia.
    + destruct y as [n|]; [|by apply IH].
      destruct (Sql.min_int xs) as [k|] eqn:Hk.
      * injection Hm as <-. specialize (IH k eq_refl Hx). lia.
      * clear IH Hm. exfalso. induction xs as [|z xs IH]; [by apply elem_of_nil in Hx|].
        simpl in Hk. apply elem_of_cons in Hx as [<-|Hx].
        -- by destruct (Sql.min_int xs).
        -- destruct z; [by destruct (Sql.min_int xs)|by apply IH].
Qed.

Lemma eq_col_holds {A} `{EqDecision A} (a b : option A) :
  Sql.holds (Sql.eq_col a b) ↔ ∃ x, a = Some x ∧ b = Some x.
Proof.
  unfold Sql.holds, Sql.eq_col. destruct a as [x|], b as [y|]; simpl;
    try case_bool_decide; naive_solver.
Qed.

Lemma in_list_holds col vs :
  Sql.holds (Sql.in_list col vs) ↔ ∃ c, col = Some c ∧ c ∈ vs.
Proof.
  unfold Sql.holds, Sql.in_list. destruct col as [c|]; simpl;
    try case_bool_decide; naive_solver.
Qed.

Lemma elem_of_first_trades fd g f :
  (g, f) ∈ Whales.first_trades fd →
  f = Sql.min_int (whaleTrades.tradeTimestamp <$>
                     filter (λ wt, whaleTrades.traderId wt = g) (tbl_whale_trades fd)).
Proof.
  unfold Whales.first_trades. intros (g' & [= -> ->] & _)%list_elem_of_fmap. done.
Qed.

(** A row of the join is a trade of a known trader id at the earliest
    time stamp recorded for that id. *)
Lemma elem_of_first_joined db fd r :
  r ∈ Whales.first_joined db fd →
  Whales.first_wt r ∈ tbl_whale_trades fd ∧
  (∃ tid ts,
     whaleTrades.traderId (Whales.first_wt r) = Some tid ∧
     whaleTrades.tradeTimestamp (Whales.first_wt r) = Some ts ∧
     ∀ wt ts', wt ∈ tbl_whale_trades fd → whaleTrades.traderId wt = Some tid →
               whaleTrades.tradeTimestamp wt = Some ts' → ts ≤ ts') ∧
  match r.2 with
  | Some m => m ∈ tbl_markets db ∧ markets.platform m = "polymarket" ∧
              whaleTrades.conditionId (Whales.first_wt r) = Some (markets.platformId m)
  | None => True
  end.
Proof.
  destruct r as [[[wt [g f]] ot] om]. unfold Whales.first_joined, Whales.first_wt.
  intros Hr. apply elem_of_left_join in Hr as [Hr Hm].
  apply elem_of_left_join in Hr as [Hr _].
  apply elem_of_inner_join in Hr as (Hwt & Hft & Hon).
  cbn [fst snd] in *. split; [done|]. split.
  - unfold Sql.holds in Hon. rewrite and3_true in Hon. destruct Hon as [Hg Hf].
    apply eq_col_holds in Hg as (tid & Htid & ->).
    apply eq_col_holds in Hf as (ts & Hts & ->).
    exists tid, ts. split; [done|]. split; [done|].
    intros wt' ts' Hwt' Htid' Hts'. apply elem_of_first_trades in Hft.
    eapply min_int_le; [by symmetry|].
    rewrite <-Hts'. apply list_elem_of_fmap_2. by apply list_elem_of_filter.
  - destruct om as [m|]; [|done]. destruct Hm as [Hm Hon'].
    unfold Sql.holds in Hon'. rewrite and3_true in Hon'. destruct Hon' as [Hc Hp].
    fold (Sql.holds (Sql.eq (whaleTrades.conditionId wt) (markets.platformId m))) in Hc.
    fold (Sql.holds (Sql.eq (Some (markets.platform m)) "polymarket")) in Hp.
    rewrite eq_holds in Hc. rewrite eq_holds in Hp.
    split; [done|]. split; congruence.
Qed.

End first_time_trades.

(** X17: [getFirstTimeTrades] returns nothing when none of the requested
    categories is on the whitelist.  Otherwise every row it returns is a
    whale trade of a trader with a trader id, made at the earliest time
    stamp recorded for that trader, with a size of at least [minSize]
    (5000 by default), on a polymarket market whose category is both
    requested and on the whitelist; at most [limit] rows (100 by default)
    are returned. *)
Theorem getFirstTimeTrades_first_and_whitelisted (db : DB) (fd : Feeds)
  (p : Whales.GetFirstTimeTradesParams) :
  let categories := default ["Politics"; "Tech"; "Finance"] (Whales.ft_categories p) in
  let minSize := default (Q2Qc 5000) (Whales.ft_minSize p) in
  ((∀ c, c ∈ categories → c ∉ Whales.ALLOWED_CATEGORIES) →
   Whales.getFirstTimeTrades db fd p = []) ∧
  (∀ r, r ∈ Whales.getFirstTimeTrades db fd p →
     let wt := Whales.ft_trade r in
     wt ∈ tbl_whale_trades fd ∧
     (∃ tid ts,
        whaleTrades.traderId wt = Some tid ∧
        whaleTrades.tradeTimestamp wt = Some ts ∧
        ∀ wt' ts', wt' ∈ tbl_whale_trades fd →
                   whaleTrades.traderId wt' = Some tid →
                   whaleTrades.tradeTimestamp wt' = Some ts' → ts ≤ ts') ∧
     (∃ x, whaleTrades.usdcSize wt = Some x ∧ (minSize ≤ x)%Qc) ∧
     (∃ c m, Whales.ft_category r = Some c ∧ c ∈ categories ∧
             c ∈ Whales.ALLOWED_CATEGORIES ∧
             m ∈ tbl_markets db ∧ markets.category m = Some c ∧
             markets.platform m = "polymarket" ∧
             whaleTrades.conditionId wt = Some (markets.platformId m))) ∧
  (length (Whales.getFirstTimeTrades db fd p) ≤ default 100%nat (Whales.ft_limit p))%nat.
Proof.
  intros categories minSize. unfold Whales.getFirstTimeTrades.
  fold categories. fold minSize. cbn zeta.
  destruct (filter (λ c, c ∈ Whales.ALLOWED_CATEGORIES) categories)
    as [|c0 cs] eqn:Hsafe.
  - split; [done|]. split; [|simpl; lia]. intros r Hr. by apply elem_of_nil in Hr.
  - split; [|split].
    + intros Hnone. exfalso.
      assert (c0 ∈ filter (λ c, c ∈ Whales.ALLOWED_CATEGORIES) categories) as Hc0
        by (rewrite Hsafe; left).
      apply list_elem_of_filter in Hc0 as [? ?]. by eapply Hnone.
    + intros r (j & -> & Hj)%list_elem_of_fmap.
      apply elem_of_limit, elem_of_order_by, elem_of_where in Hj as [Hk Hj].
      apply elem_of_first_joined in Hj as (Hwt & Hfirst & Hm).
      unfold Sql.keeps, Whales.first_cond in Hk.
      rewrite and_holds, !Forall_cons, Forall_nil in Hk.
      destruct Hk as (Hsize & Hcat & _).
      apply gte_holds in Hsize. apply in_list_holds in Hcat as (c & Hc & Hin).
      rewrite <-Hsafe in Hin. apply list_elem_of_filter in Hin as [Hall Hreq].
      cbn zeta. cbn [Whales.ft_trade Whales.ft_category Whales.first_select].
      split; [done|]. split; [done|]. split; [done|].
      destruct j as [j1 [m|]]; [|done]. cbn [snd] in *.
      exists c, m. simpl in Hc. destruct Hm as (? & ? & ?). done.
    + rewrite length_fmap. apply length_limit.
Qed.

(** On the sample data the earliest trade of trader 7 is the one returned
    for the category of the bitcoin market. *)
Example getFirstTimeTrades_sample :
  Whales.ft_trade <$>
    Whales.getFirstTimeTrades Sample.db_whales Sample.feeds
      {| Whales.ft_categories := Some ["Crypto"; "Gossip"];
         Whales.ft_minSize := None; Whales.ft_limit := None |} =
  [Sample.whale_trade 1 (Some 7) "BUY" (Q2Qc 6000) 100].
Proof. by vm_compute. Qed.

(** ** The latest snapshot *)

Section latest_snapshot.

Lemma head_take_pos {A} (n : nat) (l : list A) :
  (0 < n)%nat → head (take n l) = head l.
Proof. intros Hn. destruct n; [lia|]. by destruct l. Qed.

(** The first row of a sorted list precedes every row of the list. *)
Lemma head_sorted {A} (R : relation A) `{!Total R} (l : list A) r x :
  StronglySorted R l → head l = Some r → x ∈ l → R r x.
Proof.
  intros Hs Hh Hx. destruct l as [|y l]; [done|]. injection Hh as ->.
  apply StronglySorted_inv in Hs as [_ Hall].
  apply elem_of_cons in Hx as [->|Hx].
  - by destruct (total R r r).
  - rewrite Forall_forall in Hall. by apply Hall.
Qed.

Lemma head_None_elem_of {A} (l : list A) : head l = None ↔ ∀ x, x ∉ l.
Proof.
  destruct l as [|y l]; simpl.
  - split; [|done]. intros _ x Hx. by apply elem_of_nil in Hx.
  - split; [done|]. intros Hall. exfalso. apply (Hall y). by left.
Qed.

Lemma market_cond_holds marketId r :
  Sql.holds (PriceSnapshots.market_cond marketId r) ↔
  priceSnapshots.marketId r = marketId.
Proof.
  unfold PriceSnapshots.market_cond. rewrite eq_holds. split; congruence.
Qed.

Lemma elem_of_market_snapshots db marketId r :
  r ∈ Sql.order_by PriceSnapshots.timestamp_order
        (Sql.where_ (Some (PriceSnapshots.market_cond marketId))
           (tbl_price_snapshots db)) ↔
  r ∈ tbl_price_snapshots db ∧ priceSnapshots.marketId r = marketId.
Proof.
  rewrite elem_of_order_by, elem_of_where. unfold Sql.keeps.
  rewrite market_cond_holds. tauto.
Qed.

End latest_snapshot.

(** X18: when no two snapshots of the market carry the same time stamp,
    [getLatestSnapshot] is the first row of [getPriceHistory] for any
    positive limit: both read from the one arrangement of the market's
    snapshots by descending time stamp.  [getLatestSnapshot] is [null]
    exactly when the market has no snapshot; otherwise it is a snapshot of
    the market that no other snapshot of the market follows in descending
    time-stamp order: a snapshot with a NULL time stamp, if the market has
    one, and else one with the greatest time stamp. *)
Theorem getLatestSnapshot_latest (db : DB) (marketId : Z) :
  (Reading.no_ties PriceSnapshots.timestamp_order
     (Sql.where_ (Some (PriceSnapshots.market_cond marketId)) (tbl_price_snapshots db)) →
   ∀ l, Reading.sorted_arrangement PriceSnapshots.timestamp_order
          (Sql.where_ (Some (PriceSnapshots.market_cond marketId))
             (tbl_price_snapshots db)) l →
        PriceSnapshots.getLatestSnapshot db marketId = head l ∧
        ∀ n, PriceSnapshots.getPriceHistory db marketId n = take n l) ∧
  (PriceSnapshots.getLatestSnapshot db marketId = None ↔
   ∀ r, r ∈ tbl_price_snapshots db → priceSnapshots.marketId r ≠ marketId) ∧
  (∀ r, PriceSnapshots.getLatestSnapshot db marketId = Some r →
        r ∈ tbl_price_snapshots db ∧ priceSnapshots.marketId r = marketId ∧
        ∀ r', r' ∈ tbl_price_snapshots db → priceSnapshots.marketId r' = marketId →
              match priceSnapshots.timestamp r', priceSnapshots.timestamp r with
              | None, t => t = None
              | Some t', Some t => Sql.text_le t' t
              | Some _, None => True
              end).
Proof.
  unfold PriceSnapshots.getLatestSnapshot, PriceSnapshots.getPriceHistory.
  rewrite head_limit_1. split; [|split].
  - intros Hties l Hl.
    assert (l = Sql.order_by PriceSnapshots.timestamp_order
                  (Sql.where_ (Some (PriceSnapshots.market_cond marketId))
                     (tbl_price_snapshots db))) as ->; [|done].
    unfold PriceSnapshots.timestamp_order in *.
    by apply arrangement_unique; [apply _..| |].
  - rewrite head_None_elem_of. setoid_rewrite elem_of_market_snapshots.
    naive_solver.
  - intros r Hr.
    assert (r ∈ Sql.order_by PriceSnapshots.timestamp_order
                  (Sql.where_ (Some (PriceSnapshots.market_cond marketId))
                     (tbl_price_snapshots db))) as Hin.
    { destruct (Sql.order_by _ _) as [|y l]; simplify_eq/=. by left. }
    apply elem_of_market_snapshots in Hin as [Hin Hm].
    split; [done|]. split; [done|]. intros r' Hin' Hm'.
    assert (PriceSnapshots.timestamp_order r r') as Hord.
    { eapply (head_sorted PriceSnapshots.timestamp_order); [|exact Hr|].
      - unfold PriceSnapshots.timestamp_order. apply order_by_sorted; apply _.
      - apply elem_of_market_snapshots. done. }
    unfold PriceSnapshots.timestamp_order, Sql.desc, Sql.nulls_last in Hord.
    destruct (priceSnapshots.timestamp r'), (priceSnapshots.timestamp r); done.
Qed.

Lemma getLatestSnapshot_latest_witness :
  PriceSnapshots.getLatestSnapshot Sample.db_snapshots 2 = Some (Sample.snapshot 4 2 None) ∧
  PriceSnapshots.getPriceHistory Sample.db_snapshots 2 2 =
    [Sample.snapshot 4 2 None; Sample.snapshot 2 2 (Some "2025-03-01T00:00:00.000Z")].
Proof.
  destruct (proj1 (getLatestSnapshot_latest Sample.db_snapshots 2) ltac:(by_compute)
              [Sample.snapshot 4 2 None;
               Sample.snapshot 2 2 (Some "2025-03-01T00:00:00.000Z");
               Sample.snapshot 1 2 (Some "2025-01-01T00:00:00.000Z")]
              ltac:(by_compute)) as [Hhead Htake].
  split; [exact Hhead|exact (Htake 2%nat)].
Defined.

(** A snapshot without a time stamp counts as the latest one. *)
Example getLatestSnapshot_sample :
  PriceSnapshots.getLatestSnapshot Sample.db_snapshots 2 =
    Some (Sample.snapshot 4 2 None) ∧
  PriceSnapshots.getLatestSnapshot Sample.db_snapshots 3 =
    Some (Sample.snapshot 3 3 (Some "2025-02-01T00:00:00.000Z")) ∧
  PriceSnapshots.getLatestSnapshot Sample.db_snapshots 1 = None.
Proof. by vm_compute. Qed.

(** ** Whale favourites *)

Section whale_favorites.

Lemma whale_trade_on_holds m wt :
  Sql.holds (SmartFilters.whale_trade_on m wt) ↔
  whaleTrades.conditionId wt = Some (markets.platformId m) ∧
  markets.platform m = "polymarket".
Proof.
  unfold SmartFilters.whale_trade_on, Sql.holds. rewrite and3_true.
  fold (Sql.holds (Sql.eq (whaleTrades.conditionId wt) (markets.platformId m))).
  fold (Sql.holds (Sql.eq (Some (markets.platform m)) "polymarket")).
  rewrite !eq_holds. split; intros [? ?]; split; congruence.
Qed.

Lemma whale_trade_count_pos fd m :
  0 < SmartFilters.whale_trade_count fd m ↔
  markets.platform m = "polymarket" ∧
  ∃ wt, wt ∈ tbl_whale_trades fd ∧
        whaleTrades.conditionId wt = Some (markets.platformId m).
Proof.
  unfold SmartFilters.whale_trade_count, Sql.count.
  destruct (filter _ _) as [|wt l] eqn:Hf.
  - simpl. split; [lia|]. intros (Hp & wt & Hwt & Hc). exfalso.
    assert (wt ∈ filter (λ wt, Sql.holds (SmartFilters.whale_trade_on m wt))
                   (tbl_whale_trades fd)) as Hin.
    { apply list_elem_of_filter. by rewrite whale_trade_on_holds. }
    rewrite Hf in Hin. by apply elem_of_nil in Hin.
  - split; [intros _|simpl; lia].
    assert (wt ∈ filter (λ wt, Sql.holds (SmartFilters.whale_trade_on m wt))
                   (tbl_whale_trades fd)) as Hin by (rewrite Hf; left).
    apply list_elem_of_filter in Hin as [Hon Hin].
    apply whale_trade_on_holds in Hon as [? ?]. eauto.
Qed.

Lemma elem_of_whale_favorites_all db fd m :
  m ∈ SmartFilters.whale_favorites_all db fd ↔
  m ∈ tbl_markets db ∧ markets.status m = Some "active" ∧
  markets.platform m = "polymarket" ∧
  ∃ wt, wt ∈ tbl_whale_trades fd ∧
        whaleTrades.conditionId wt = Some (markets.platformId m).
Proof.
  unfold SmartFilters.whale_favorites_all.
  rewrite elem_of_order_by, list_elem_of_filter, elem_of_where.
  unfold Sql.keeps. rewrite eq_holds, whale_trade_count_pos. tauto.
Qed.

End whale_favorites.

(** X19: [getWhaleFavoriteMarkets] returns only active polymarket markets
    whose platform id is the condition id of at least one whale trade, in
    descending order of their number of whale trades, and at most [limit]
    of them; when fewer than [limit] come back, every such market is among
    them. *)
Theorem getWhaleFavoriteMarkets_ranked (db : DB) (fd : Feeds) (limit : nat) :
  let result := SmartFilters.getWhaleFavoriteMarkets db fd limit in
  let favorite m :=
    m ∈ tbl_markets db ∧ markets.status m = Some "active" ∧
    markets.platform m = "polymarket" ∧
    ∃ wt, wt ∈ tbl_whale_trades fd ∧
          whaleTrades.conditionId wt = Some (markets.platformId m) in
  (∀ m, m ∈ result → favorite m) ∧
  StronglySorted
    (λ m1 m2, SmartFilters.whale_trade_count fd m2 ≤
              SmartFilters.whale_trade_count fd m1) result ∧
  (length result ≤ limit)%nat ∧
  ((length result < limit)%nat → ∀ m, favorite m → m ∈ result).
Proof.
  intros result favorite. subst result favorite. cbn beta.
  unfold SmartFilters.getWhaleFavoriteMarkets. split; [|split; [|split]].
  - intros m Hm%elem_of_limit. by apply elem_of_whale_favorites_all.
  - apply (limit_sorted
             (Sql.desc Z.le (λ m, Some (SmartFilters.whale_trade_count fd m)))).
    unfold SmartFilters.whale_favorites_all. apply order_by_sorted; apply _.
  - apply length_limit.
  - intros Hlt m Hm. unfold Sql.limit in *. rewrite length_take in Hlt.
    rewrite take_ge by lia. by apply elem_of_whale_favorites_all.
Qed.

(** The bitcoin market is the only whale favourite of the sample. *)
Example getWhaleFavoriteMarkets_sample :
  SmartFilters.getWhaleFavoriteMarkets Sample.db_whales Sample.feeds 20 =
    [Sample.m_bitcoin] ∧
  SmartFilters.whale_trade_count Sample.feeds Sample.m_bitcoin = 3.
Proof. by vm_compute. Qed.

(** ** Query-string navigation *)

Section url_params.
Implicit Types (ps : UrlParams.t) (k name v : string).

Lemma get_delete_eq name ps : UrlParams.get name (UrlParams.delete name ps) = None.
Proof.
  unfold UrlParams.delete, UrlParams.t. induction ps as [|[k v] ps IH]; [done|].
  destruct (decide (k = name)) as [->|Hk].
  - by rewrite filter_cons_False by (simpl; naive_solver).
  - rewrite filter_cons_True by (simpl; naive_solver). simpl.
    by destruct (String.eqb_spec k name).
Qed.

Lemma get_delete_ne k name ps :
  k ≠ name → UrlParams.get k (UrlParams.delete name ps) = UrlParams.get k ps.
Proof.
  intros Hne. unfold UrlParams.delete, UrlParams.t. induction ps as [|[k' v] ps IH]; [done|].
  destruct (decide (k' = name)) as [->|Hk].
  - rewrite filter_cons_False by (simpl; naive_solver). simpl.
    by destruct (String.eqb_spec name k).
  - rewrite filter_cons_True by (simpl; naive_solver). simpl. by rewrite IH.
Qed.

Lemma get_set_eq name v ps : UrlParams.get name (UrlParams.set name v ps) = Some v.
Proof.
  induction ps as [|[k v'] ps IH]; simpl.
  - by rewrite String.eqb_refl.
  - destruct (String.eqb_spec k name) as [->|Hk]; simpl.
    + by rewrite String.eqb_refl.
    + by destruct (String.eqb_spec k name).
Qed.

Lemma get_set_ne k name v ps :
  k ≠ name → UrlParams.get k (UrlParams.set name v ps) = UrlParams.get k ps.
Proof.
  intros Hne. induction ps as [|[k' v'] ps IH]; simpl.
  - by destruct (String.eqb_spec name k).
  - destruct (String.eqb_spec k' name) as [->|Hk]; simpl.
    + destruct (String.eqb_spec name k); [done|]. by apply get_delete_ne.
    + by rewrite IH.
Qed.

Lemma delete_no_name name ps :
  filter (λ kv : string * string, kv.1 = name) (UrlParams.delete name ps) = [].
Proof.
  unfold UrlParams.delete, UrlParams.t. induction ps as [|[k v] ps IH]; [done|].
  destruct (decide (k = name)) as [->|Hk].
  - by rewrite filter_cons_False by (simpl; naive_solver).
  - rewrite filter_cons_True by (simpl; naive_solver). by rewrite filter_cons_False by (simpl; naive_solver).
Qed.

(** After [set] the name occurs once. *)
Lemma set_one_name name v ps :
  filter (λ kv : string * string, kv.1 = name) (UrlParams.set name v ps) = [(name, v)].
Proof.
  unfold UrlParams.t in *. induction ps as [|[k v'] ps IH]; simpl.
  - by rewrite filter_cons_True by (simpl; naive_solver).
  - destruct (String.eqb_spec k name) as [->|Hk].
    + rewrite filter_cons_True by (simpl; naive_solver). by rewrite delete_no_name.
    + by rewrite filter_cons_False by (simpl; naive_solver).
Qed.

Lemma get_or_Some name fallback v ps :
  UrlParams.get name ps = Some v → v ≠ "" → UrlParams.get_or name fallback ps = v.
Proof.
  intros Hg Hv. unfold UrlParams.get_or. rewrite Hg.
  apply truthy_true in Hv. by rewrite Hv.
Qed.

Lemma get_or_None name fallback ps :
  UrlParams.get name ps = None → UrlParams.get_or name fallback ps = fallback.
Proof. intros Hg. unfold UrlParams.get_or. by rewrite Hg. Qed.

End url_params.

(** X20: after [handleChange(value)] of a [FilterSelect] whose parameter
    is not [page], with a non-empty value, the select shows that value on
    the next render, the [page] parameter is gone, and every other
    parameter reads as before. *)
Theorem FilterSelect_round_trip (paramKey defaultValue value : string)
  (ps : UrlParams.t) :
  value ≠ "" → paramKey ≠ "page" →
  let ps' := UrlParams.FilterSelect_handleChange paramKey defaultValue value ps in
  UrlParams.FilterSelect_current paramKey defaultValue ps' = value ∧
  UrlParams.get "page" ps' = None ∧
  (∀ k, k ≠ paramKey → k ≠ "page" → UrlParams.get k ps' = UrlParams.get k ps).
Proof.
  intros Hv Hkey ps'. subst ps'.
  unfold UrlParams.FilterSelect_handleChange, UrlParams.FilterSelect_current.
  split; [|split].
  - destruct (String.eqb_spec value defaultValue) as [->|Hne].
    + apply get_or_None. rewrite get_delete_ne by done. apply get_delete_eq.
    + apply get_or_Some; [|done]. rewrite get_delete_ne by done. apply get_set_eq.
  - apply get_delete_eq.
  - intros k Hk Hpage. rewrite get_delete_ne by done.
    destruct (String.eqb_spec value defaultValue).
    + by apply get_delete_ne.
    + by apply get_set_ne.
Qed.

Lemma FilterSelect_round_trip_witness :
  UrlParams.FilterSelect_current "category" "all"
    (UrlParams.FilterSelect_handleChange "category" "all" "Crypto"
       [("category", "Sports"); ("page", "3"); ("sort", "title_asc")]) = "Crypto" ∧
  UrlParams.FilterSelect_handleChange "category" "all" "Crypto"
    [("category", "Sports"); ("page", "3"); ("sort", "title_asc")] =
    [("category", "Crypto"); ("sort", "title_asc")].
Proof.
  split; [|by vm_compute].
  exact (proj1 (FilterSelect_round_trip "category" "all" "Crypto"
                  [("category", "Sports"); ("page", "3"); ("sort", "title_asc")]
                  ltac:(done) ltac:(done))).
Defined.

(** X21: after [handleSearch(newValue)] of a [SearchInput] whose parameter
    is not [page], the parameter reads back as the text typed (absent for
    the empty text), the [page] parameter is gone, and every other
    parameter reads as before. *)
Theorem SearchInput_round_trip (paramKey newValue : string) (ps : UrlParams.t) :
  paramKey ≠ "page" →
  let ps' := UrlParams.SearchInput_handleSearch paramKey newValue ps in
  UrlParams.get_or paramKey "" ps' = newValue ∧
  (UrlParams.get paramKey ps' = None ↔ newValue = "") ∧
  UrlParams.get "page" ps' = None ∧
  (∀ k, k ≠ paramKey → k ≠ "page" → UrlParams.get k ps' = UrlParams.get k ps).
Proof.
  intros Hkey ps'. subst ps'. unfold UrlParams.SearchInput_handleSearch.
  destruct newValue as [|c s].
  - simpl. split; [|split; [|split]].
    + apply get_or_None. rewrite get_delete_ne by done. apply get_delete_eq.
    + split; [done|]. intros _. rewrite get_delete_ne by done. apply get_delete_eq.
    + apply get_delete_eq.
    + intros k Hk Hpage. rewrite get_delete_ne by done. by apply get_delete_ne.
  - cbn [JS.truthy]. split; [|split; [|split]].
    + apply get_or_Some; [|done]. rewrite get_delete_ne by done. apply get_set_eq.
    + rewrite get_delete_ne by done. rewrite get_set_eq. done.
    + apply get_delete_eq.
    + intros k Hk Hpage. rewrite get_delete_ne by done. by apply get_set_ne.
Qed.

Lemma SearchInput_round_trip_witness :
  UrlParams.get_or "search" ""
    (UrlParams.SearchInput_handleSearch "search" "rain"
       [("page", "2"); ("search", "snow")]) = "rain".
Proof.
  exact (proj1 (SearchInput_round_trip "search" "rain"
                  [("page", "2"); ("search", "snow")] ltac:(done))).
Defined.

(** X22: after a click on one of the buttons of [TimeRangeSelector] the
    charts page reads the range of that button, the query string holds
    [range] at most once, the other parameters read as before, and, at a
    clock reading in the range of time values, the price-history query of
    the page returns rows rather than throwing. *)
Theorem TimeRangeSelector_click_then_query (db : DB) (now marketId : Z)
  (value : string) (ps : UrlParams.t) :
  value ∈ UrlParams.TIME_RANGES → 0 ≤ now ≤ 8640000000000000 →
  let ps' := UrlParams.TimeRangeSelector_handleClick value ps in
  UrlParams.ChartContent_range ps' = value ∧
  (length (filter (λ kv : string * string, kv.1 = "range") ps') ≤ 1)%nat ∧
  (∀ k, k ≠ "range" → UrlParams.get k ps' = UrlParams.get k ps) ∧
  ∃ rows, UrlParams.ChartContent_history db now marketId ps' = Ok rows.
Proof.
  intros Hv Hnow ps'.
  assert (UrlParams.ChartContent_range ps' = value) as Hrange.
  { subst ps'. unfold UrlParams.ChartContent_range,
      UrlParams.TimeRangeSelector_handleClick.
    destruct (String.eqb_spec value "7d") as [->|Hne].
    - apply get_or_None, get_delete_eq.
    - apply get_or_Some; [apply get_set_eq|].
      intros ->. unfold UrlParams.TIME_RANGES in Hv. set_solver. }
  split; [done|]. split; [|split].
  - subst ps'. unfold UrlParams.TimeRangeSelector_handleClick.
    destruct (String.eqb_spec value "7d").
    + rewrite delete_no_name. simpl. lia.
    + rewrite set_one_name. simpl. lia.
  - intros k Hk. subst ps'. unfold UrlParams.TimeRangeSelector_handleClick.
    destruct (String.eqb_spec value "7d").
    + by apply get_delete_ne.
    + by apply get_set_ne.
  - unfold UrlParams.ChartContent_history. rewrite Hrange.
    unfold PriceSnapshots.getPriceHistoryWithRange.
    assert (∃ cs, PriceSnapshots.conditions now marketId (Some value) = Ok cs)
      as [cs ->]; [|by eexists].
    unfold UrlParams.TIME_RANGES in Hv.
    repeat (apply elem_of_cons in Hv as [->|Hv]); [..|by apply elem_of_nil in Hv].
    + by rewrite (conditions_bounded now marketId "24h" 24) by done; eexists.
    + by rewrite (conditions_bounded now marketId "7d" 168) by done; eexists.
    + by rewrite (conditions_bounded now marketId "30d" 720) by done; eexists.
    + by eexists.
Qed.

Lemma TimeRangeSelector_click_then_query_witness :
  UrlParams.ChartContent_range
    (UrlParams.TimeRangeSelector_handleClick "30d"
       [("marketId", "2"); ("range", "24h")]) = "30d" ∧
  ∃ rows, UrlParams.ChartContent_history Sample.db_snapshots 1740000000000 2
            (UrlParams.TimeRangeSelector_handleClick "30d"
               [("marketId", "2"); ("range", "24h")]) = Ok rows.
Proof.
  pose proof (TimeRangeSelector_click_then_query Sample.db_snapshots
                1740000000000 2 "30d" [("marketId", "2"); ("range", "24h")]
                ltac:(by_compute) ltac:(lia)) as (H1 & _ & _ & H2).
  split; [exact H1|exact H2].
Defined.

(** ** Alert types *)

Section alert_types.

(** A left join keeps every row of its left table. *)
Lemma left_join_covers {A B} (on : A → B → Sql.tri) (l : list A) (r : list B) a :
  a ∈ l → ∃ ob, (a, ob) ∈ Pairs.left_join on l r.
Proof.
  intros Ha. destruct (filter (λ b, Sql.holds (on a b)) r) as [|b bs] eqn:Hf.
  - exists None. apply elem_of_left_join. split; [done|]. intros b Hb Hon.
    assert (b ∈ filter (λ b, Sql.holds (on a b)) r) as Hin
      by by apply list_elem_of_filter.
    rewrite Hf in Hin. by apply elem_of_nil in Hin.
  - exists (Some b). apply elem_of_left_join. split; [done|].
    assert (b ∈ filter (λ b, Sql.holds (on a b)) r) as Hin by (rewrite Hf; left).
    apply list_elem_of_filter in Hin. tauto.
Qed.

Lemma elem_of_getAlertTypes db ty :
  ty ∈ Alerts.getAlertTypes db ↔ ∃ a, a ∈ tbl_alerts db ∧ alerts.alertType a = ty.
Proof.
  unfold Alerts.getAlertTypes, Sql.distinct.
  rewrite elem_of_order_by, elem_of_remove_dups, list_elem_of_fmap. naive_solver.
Qed.

Lemma alerts_type_conditions ty lim (r : Alerts.joined_row) :
  ty ≠ "" → ty ≠ "all" →
  Sql.keeps (Alerts.where_clause
               {| Alerts.type := Some ty; Alerts.acknowledged := None;
                  Alerts.limit := lim |}) r ↔
  alerts.alertType r.1 = ty.
Proof.
  intros Hne Hall. unfold Alerts.where_clause. rewrite keeps_conditions.
  unfold Alerts.conditions. cbn [Alerts.type Alerts.acknowledged].
  apply truthy_true in Hne. rewrite Hne.
  destruct (String.eqb_spec ty "all"); [done|]. cbn [negb andb].
  rewrite app_nil_r, Forall_singleton, eq_holds. split; congruence.
Qed.

Lemma limit_nonempty {A} (n : nat) (l : list A) x :
  (0 < n)%nat → x ∈ l → ∃ y, y ∈ Sql.limit n l.
Proof.
  intros Hn Hx. destruct l as [|y l]; [by apply elem_of_nil in Hx|].
  exists y. destruct n; [lia|]. unfold Sql.limit. simpl. by left.
Qed.

End alert_types.

(** X23: [getAlertTypes] lists exactly the alert types present in the
    table, each once, in ascending text order.  Each type it lists, other
    than the wildcard ["all"] and the empty string, is a live filter of
    [getAlerts]: with that type and a positive limit the list is not empty,
    and all its rows carry the type. *)
Theorem getAlertTypes_live_filters (db : DB) :
  (∀ ty, ty ∈ Alerts.getAlertTypes db ↔
         ∃ a, a ∈ tbl_alerts db ∧ alerts.alertType a = ty) ∧
  NoDup (Alerts.getAlertTypes db) ∧
  StronglySorted Sql.text_le (Alerts.getAlertTypes db) ∧
  (∀ ty lim, ty ∈ Alerts.getAlertTypes db → ty ≠ "" → ty ≠ "all" → (0 < lim)%nat →
     let rows := Alerts.getAlerts db
                   {| Alerts.type := Some ty; Alerts.acknowledged := None;
                      Alerts.limit := Some lim |} in
     rows ≠ [] ∧ ∀ r, r ∈ rows → alerts.alertType (Alerts.alert r) = ty).
Proof.
  split; [apply elem_of_getAlertTypes|]. split; [|split].
  - unfold Alerts.getAlertTypes. rewrite order_by_perm. apply NoDup_remove_dups.
  - unfold Alerts.getAlertTypes. apply order_by_sorted; apply _.
  - intros ty lim Hty Hne Hall Hlim rows. subst rows. split.
    + apply elem_of_getAlertTypes in Hty as (a & Ha & Hta).
      destruct (left_join_covers
                  (λ a m, Sql.eq (alerts.marketId a) (markets.id m))
                  (tbl_alerts db) (tbl_markets db) a Ha) as [om Hj].
      assert ((a, om) ∈ Alerts.alerts_all db
                {| Alerts.type := Some ty; Alerts.acknowledged := None;
                   Alerts.limit := Some lim |}) as Hin.
      { unfold Alerts.alerts_all. rewrite elem_of_order_by, elem_of_where.
        split; [|exact Hj]. by apply alerts_type_conditions. }
      destruct (limit_nonempty lim _ _ Hlim Hin) as [y Hy].
      unfold Alerts.getAlerts. intros Hnil%fmap_nil_inv.
      apply (not_elem_of_nil y). exact (eq_ind _ (λ l, y ∈ l) Hy _ Hnil).
    + intros r (j & -> & Hj)%getAlerts_sub. destruct j as [a om].
      apply elem_of_alerts_all in Hj as (Hk & _).
      by apply alerts_type_conditions in Hk.
Qed.

Example getAlertTypes_sample :
  Alerts.getAlertTypes Sample.db_traders = ["price_move"] ∧
  length (Alerts.getAlerts Sample.db_traders
            {| Alerts.type := Some "price_move"; Alerts.acknowledged := None;
               Alerts.limit := Some 1%nat |}) = 1%nat.
Proof. by vm_compute. Qed.

(** ** Single-row lookups *)

(** X24: [getLatestAgentRun] is [null] exactly when the agent has no log;
    otherwise it is a log of that agent that no other log of the agent
    follows in descending [started_at] order: a log without a start time,
    if the agent has one, and else one with the greatest start time. *)
Theorem getLatestAgentRun_latest (fd : Feeds) (agentName : string) :
  (Agents.getLatestAgentRun fd agentName = None ↔
   ∀ r, r ∈ tbl_agent_logs fd → agentLogs.agentName r ≠ agentName) ∧
  (∀ r, Agents.getLatestAgentRun fd agentName = Some r →
        r ∈ tbl_agent_logs fd ∧ agentLogs.agentName r = agentName ∧
        ∀ r', r' ∈ tbl_agent_logs fd → agentLogs.agentName r' = agentName →
              match agentLogs.startedAt r', agentLogs.startedAt r with
              | None, t => t = None
              | Some t', Some t => Sql.text_le t' t
              | Some _, None => True
              end).
Proof.
  unfold Agents.getLatestAgentRun. rewrite head_limit_1.
  assert (∀ r, r ∈ Sql.order_by (Sql.desc Sql.text_le agentLogs.startedAt)
                     (Sql.where_
                        (Some (λ r, Sql.eq (Some (agentLogs.agentName r)) agentName))
                        (tbl_agent_logs fd)) ↔
               r ∈ tbl_agent_logs fd ∧ agentLogs.agentName r = agentName) as Hel.
  { intros r. rewrite elem_of_order_by, elem_of_where. unfold Sql.keeps.
    rewrite eq_holds. split; intros [? ?]; split; congruence. }
  split.
  - rewrite head_None_elem_of. setoid_rewrite Hel. naive_solver.
  - intros r Hr.
    assert (r ∈ Sql.order_by (Sql.desc Sql.text_le agentLogs.startedAt)
                  (Sql.where_
                     (Some (λ r, Sql.eq (Some (agentLogs.agentName r)) agentName))
                     (tbl_agent_logs fd))) as Hin.
    { destruct (Sql.order_by _ _) as [|y l]; simplify_eq/=. by left. }
    apply Hel in Hin as [Hin Hn]. split; [done|]. split; [done|].
    intros r' Hin' Hn'.
    assert (Sql.desc Sql.text_le agentLogs.startedAt r r') as Hord.
    { eapply (head_sorted (Sql.desc Sql.text_le agentLogs.startedAt)); [|exact Hr|].
      - apply order_by_sorted; apply _.
      - by apply Hel. }
    unfold Sql.desc, Sql.nulls_last in Hord.
    destruct (agentLogs.startedAt r'), (agentLogs.startedAt r); done.
Qed.

(** The latest run by start time need not be the one [getLatestRunPerAgent]
    keeps, which goes by id. *)
Example getLatestAgentRun_sample :
  Agents.getLatestAgentRun Sample.feeds_agents "collector" =
    Some (Sample.agent_log 1 "collector" (Some "2025-03-02T00:00:00.000Z")) ∧
  Agents.getLatestRunPerAgent Sample.feeds_agents =
    [ Sample.agent_log 3 "collector" (Some "2025-03-01T00:00:00.000Z");
      Sample.agent_log 2 "analyst" (Some "2025-03-01T00:00:00.000Z") ].
Proof. by vm_compute. Qed.

(** X25: [getTraderByWallet] is [null] exactly when no trader has the
    wallet, and a trader it returns has the wallet; where wallets are unique,
    as the schema declares, every trader is found under their wallet. *)
Theorem getTraderByWallet_lookup (db : DB) :
  (∀ wallet, Traders.getTraderByWallet db wallet = None ↔
             ∀ t, t ∈ tbl_traders db → traders.proxyWallet t ≠ wallet) ∧
  (∀ wallet t, Traders.getTraderByWallet db wallet = Some t →
               t ∈ tbl_traders db ∧ traders.proxyWallet t = wallet) ∧
  (NoDup (traders.proxyWallet <$> tbl_traders db) →
   ∀ t, t ∈ tbl_traders db →
        Traders.getTraderByWallet db (traders.proxyWallet t) = Some t).
Proof.
  assert (∀ wallet, Traders.getTraderByWallet db wallet =
                    head (filter (λ t, traders.proxyWallet t = wallet)
                            (tbl_traders db))) as Heq.
  { intros wallet. unfold Traders.getTraderByWallet. rewrite head_limit_1.
    f_equal. unfold Sql.where_. apply list_filter_iff. intros t.
    unfold Sql.keeps. rewrite eq_holds. split; congruence. }
  split; [|split].
  - intros wallet. rewrite Heq. apply head_filter_None.
  - intros wallet t. rewrite Heq. intros Ht.
    by apply (head_filter_Some (λ t, traders.proxyWallet t = wallet)) in Ht.
  - intros Hnd t Ht. rewrite Heq.
    by apply (head_filter_unique traders.proxyWallet).
Qed.

Lemma getTraderByWallet_lookup_witness :
  NoDup (traders.proxyWallet <$> tbl_traders Sample.db_traders) ∧
  Traders.getTraderByWallet Sample.db_traders "0xdef" =
    Some (Sample.trader 8 "0xdef").
Proof.
  assert (NoDup (traders.proxyWallet <$> tbl_traders Sample.db_traders)) as Hnd
    by by_compute.
  split; [exact Hnd|].
  exact (proj2 (proj2 (getTraderByWallet_lookup Sample.db_traders)) Hnd
           (Sample.trader 8 "0xdef") ltac:(by_compute)).
Defined.

(** X26: [getWhaleTradesByTrader] returns only trades of the given trader,
    at most [limit] of them, in descending order of trade time with the
    trades that have no trade time first; when fewer than [limit] come
    back, they are all the trades of the trader. *)
Theorem getWhaleTradesByTrader_own_trades (fd : Feeds) (traderId : Z) (limit : nat) :
  let result := Whales.getWhaleTradesByTrader fd traderId limit in
  (∀ wt, wt ∈ result →
         wt ∈ tbl_whale_trades fd ∧ whaleTrades.traderId wt = Some traderId) ∧
  StronglySorted
    (λ a b, match whaleTrades.tradeTimestamp b, whaleTrades.tradeTimestamp a with
            | Some y, Some x => y ≤ x
            | _, None => True
            | None, Some _ => False
            end) result ∧
  (length result ≤ limit)%nat ∧
  ((length result < limit)%nat →
   ∀ wt, wt ∈ tbl_whale_trades fd → whaleTrades.traderId wt = Some traderId →
         wt ∈ result).
Proof.
  intros result. subst result. unfold Whales.getWhaleTradesByTrader.
  assert (∀ wt, wt ∈ Sql.order_by (Sql.desc Z.le whaleTrades.tradeTimestamp)
                       (Sql.where_
                          (Some (λ wt, Sql.eq (whaleTrades.traderId wt) traderId))
                          (tbl_whale_trades fd)) ↔
                wt ∈ tbl_whale_trades fd ∧ whaleTrades.traderId wt = Some traderId)
    as Hel.
  { intros wt. rewrite elem_of_order_by, elem_of_where. unfold Sql.keeps.
    rewrite eq_holds. tauto. }
  split; [|split; [|split]].
  - intros wt Hwt%elem_of_limit. by apply Hel.
  - apply (limit_sorted (Sql.desc Z.le whaleTrades.tradeTimestamp)).
    apply order_by_sorted; apply _.
  - apply length_limit.
  - intros Hlt wt Hwt Hid. unfold Sql.limit in *. rewrite length_take in Hlt.
    rewrite take_ge by lia. by apply Hel.
Qed.

Example getWhaleTradesByTrader_sample :
  whaleTrades.id <$> Whales.getWhaleTradesByTrader Sample.feeds 7 50 = [2; 1].
Proof. by vm_compute. Qed.
